(** * python-kle: the KLE layout parser and the rotation-aware key geometry

    A shallow embedding of [kle/kle.py].  Python floats are idealised as
    real numbers ([R]): every arithmetic step of the source is kept, only
    rounding is abstracted away, so the geometric identities of the
    specification ("up to floating-point tolerance") become exact
    equalities.  Python exceptions are values of [exn]; a method that can
    raise returns a [result].  Objects that the source shares by reference
    (the keyboard's running [KbProperties]) live in an explicit heap. *)

From Stdlib Require Import Reals Lra List String Ascii ZArith Bool Arith Lia.
From Stdlib Require Import DecimalString.
Import ListNotations.

Local Open Scope string_scope.
Local Open Scope R_scope.

(** ** Exceptions and results *)

(** [class KLEParseError(Exception)] and the built-in exceptions that the
    modelled code can raise.  [PyException e] is [Exception(e)]: a plain
    [Exception] instance whose only argument is the exception object [e]. *)
Inductive exn : Type :=
| KLEParseError (msg : string)
| PyException (arg : exn)
| ZeroDivisionError
| TypeError
| ValueError
| UnboundLocalError
| AssertionError
| KeyError.

Inductive result (A : Type) : Type :=
| Ok (a : A)
| Raise (e : exn).
Arguments Ok {A} a.
Arguments Raise {A} e.

Definition bind {A B : Type} (m : result A) (f : A -> result B) : result B :=
  match m with
  | Ok a => f a
  | Raise e => Raise e
  end.

Declare Scope result_scope.
Delimit Scope result_scope with result.
Notation "x <- m ;; k" := (bind m (fun x => k))
  (at level 61, m at next level, right associativity) : result_scope.
Notation "' p <- m ;; k" := (bind m (fun v => let p := v in k))
  (at level 61, p pattern, m at next level, right associativity) : result_scope.
Local Open Scope result_scope.

(** [isinstance(e, KLEParseError)]: the class has no subclass, and a plain
    [Exception] is not an instance of it. *)
Definition is_KLEParseError (e : exn) : bool :=
  match e with
  | KLEParseError _ => true
  | _ => false
  end.

(** ** Python strings *)

Definition newline : ascii := "010"%char.
Definition nl : string := String newline EmptyString.

(** [s.split(sep)] for a one-character separator. *)
Fixpoint split (sep : ascii) (s : string) : list string :=
  match s with
  | EmptyString => [EmptyString]
  | String c s' =>
      if Ascii.eqb c sep then EmptyString :: split sep s'
      else match split sep s' with
           | [] => [String c EmptyString]
           | seg :: segs => String c seg :: segs
           end
  end.

(** [s.lstrip(c)], [s.rstrip(c)] and [s.strip(c)] for a one-character set. *)
Fixpoint lstrip (c : ascii) (s : string) : string :=
  match s with
  | EmptyString => EmptyString
  | String a s' => if Ascii.eqb a c then lstrip c s' else s
  end.

Fixpoint rstrip (c : ascii) (s : string) : string :=
  match s with
  | EmptyString => EmptyString
  | String a s' =>
      match rstrip c s' with
      | EmptyString => if Ascii.eqb a c then EmptyString else String a EmptyString
      | t => String a t
      end
  end.

Definition strip (c : ascii) (s : string) : string := rstrip c (lstrip c s).

(** ["{}".format(n)] for a non-negative integer. *)
Definition format_nat (n : nat) : string :=
  NilEmpty.string_of_uint (Nat.to_uint n).

(** ** Python dicts

    A dict is an association list without duplicate keys, in insertion
    order; [d[k] = v] overwrites in place or appends. *)
Section Dict.
Context {K V : Type}.
Variable eqb : K -> K -> bool.

Definition dict : Type := list (K * V).

Fixpoint dict_get (d : dict) (k : K) : option V :=
    match d with
    | [] => None
    | (k', v) :: d' => if eqb k k' then Some v else dict_get d' k
    end.

Definition dict_mem (d : dict) (k : K) : bool :=
    match dict_get d k with
    | Some _ => true
    | None => false
    end.

Fixpoint dict_set (d : dict) (k : K) (v : V) : dict :=
    match d with
    | [] => [(k, v)]
    | (k', v') :: d' =>
        if eqb k k' then (k', v) :: d' else (k', v') :: dict_set d' k v
    end.

Definition dict_keys (d : dict) : list K := map fst d.
End Dict.

(** ** Python complex numbers *)

Record complex : Type := Complex { real : R; imag : R }.

Definition of_float (a : R) : complex := Complex a 0.
(** The literal [1j]. *)
Definition Cj : complex := Complex 0 1.

Definition Cadd (a b : complex) : complex :=
  Complex (real a + real b) (imag a + imag b).
Definition Csub (a b : complex) : complex :=
  Complex (real a - real b) (imag a - imag b).
Definition Cmul (a b : complex) : complex :=
  Complex (real a * real b - imag a * imag b)
          (real a * imag b + imag a * real b).

(** [cmath.exp]. *)
Definition cmath_exp (z : complex) : complex :=
  Complex (exp (real z) * cos (imag z)) (exp (real z) * sin (imag z)).

(** [math.radians]. *)
Definition math_radians (deg : R) : R := deg * PI / 180.

(** [def rotate_complex(radians): return cmath.exp(radians*1j)] *)
Definition rotate_complex (radians : R) : complex :=
  cmath_exp (Cmul (of_float radians) Cj).

(** [a + b*1j] for floats [a] and [b], as the source writes it. *)
Definition float_plus_j (a b : R) : complex :=
  Cadd (of_float a) (Cmul (of_float b) Cj).

(** ** Floats with the infinities

    [bounding_box] starts its running minima and maxima at [math.inf] and
    [-math.inf]; [NaN] is what [inf - inf] gives. *)
Inductive xfloat : Type :=
| Fin (v : R)
| PInf
| MInf
| NaN.

Definition xlt (a b : xfloat) : bool :=
  match a, b with
  | Fin u, Fin v => if Rlt_dec u v then true else false
  | Fin _, PInf => true
  | MInf, Fin _ => true
  | MInf, PInf => true
  | _, _ => false
  end.

(** [min(a, b)] returns [b] when [b < a] and [a] otherwise; [max(a, b)]
    returns [b] when [b > a]. *)
Definition py_min (a b : xfloat) : xfloat := if xlt b a then b else a.
Definition py_max (a b : xfloat) : xfloat := if xlt a b then b else a.

Definition xneg (a : xfloat) : xfloat :=
  match a with
  | Fin v => Fin (- v)
  | PInf => MInf
  | MInf => PInf
  | NaN => NaN
  end.

Definition xsub (a b : xfloat) : xfloat :=
  match a, b with
  | Fin u, Fin v => Fin (u - v)
  | NaN, _ | _, NaN => NaN
  | PInf, PInf | MInf, MInf => NaN
  | PInf, _ => PInf
  | MInf, _ => MInf
  | Fin _, PInf => MInf
  | Fin _, MInf => PInf
  end.

Definition xadd (a b : xfloat) : xfloat :=
  match a, b with
  | Fin u, Fin v => Fin (u + v)
  | NaN, _ | _, NaN => NaN
  | PInf, MInf | MInf, PInf => NaN
  | PInf, _ | _, PInf => PInf
  | MInf, _ | _, MInf => MInf
  end.

(** [math.hypot]. *)
Definition math_hypot (u v : R) : R := sqrt (u * u + v * v).

(** ** Rect and Point *)

(** [Rect = namedtuple('Rect', 'x y w h')] *)
Module Rect.
Record t : Type := mk { x : xfloat; y : xfloat; w : xfloat; h : xfloat }.
End Rect.

Module Point.
Record t : Type := mk { x : R; y : R }.

Definition add (a b : t) : t := mk (x a + x b) (y a + y b).
Definition sub (a b : t) : t := mk (x a - x b) (y a - y b).
Definition neg (a : t) : t := mk (- x a) (- y a).
Definition mul (a : t) (k : R) : t := mk (x a * k) (y a * k).

  (** [__truediv__]: float division raises on a zero divisor. *)
Definition truediv (a : t) (k : R) : result t :=
    if Req_dec_T k 0 then Raise ZeroDivisionError
    else Ok (mk (x a / k) (y a / k)).

Definition dot_product (a b : t) : R := x a * x b + y a * y b.

(** [__abs__] and [__rmul__]. *)
Definition abs (a : t) : t := mk (Rabs (x a)) (Rabs (y a)).
Definition rmul (a : t) (k : R) : t := mk (x a * k) (y a * k).


(** [distance_to] *)
Definition distance_to (a b : t) : R := math_hypot (x a - x b) (y a - y b).


(** A [Point] built from the fields of a [Rect]. *)
Record xt : Type := xmk { xx : xfloat; xy : xfloat }.
End Point.

(** ** JSON values, as [json.loads] returns them *)

#[local] Set Warnings "-register-all".
Inductive json : Type :=
| JNull
| JBool (b : bool)
| JInt (n : Z)
| JFloat (v : R)
| JStr (s : string)
| JList (items : list json)
| JDict (fields : list (string * json)).

(** The parts of the built-in conversions that belong to the interpreter
    and not to this program: parsing a number out of a string and the
    printed form of a value that is not a string. *)
Class Interp : Type := {
  float_of_str : string -> option R;
  int_of_str : string -> option Z;
  repr : json -> string
}.

(** [int(v)] on a float truncates towards zero. *)
Definition trunc (v : R) : Z :=
  if Rle_dec 0 v then Int_part v else (- Int_part (- v))%Z.

Section Builtins.
Context {I : Interp}.

  (** [float(v)] *)
Definition py_float (v : json) : result R :=
    match v with
    | JInt n => Ok (IZR n)
    | JFloat u => Ok u
    | JBool b => Ok (if b then 1 else 0)
    | JStr s => match float_of_str s with
                | Some u => Ok u
                | None => Raise ValueError
                end
    | JNull | JList _ | JDict _ => Raise TypeError
    end.

  (** [int(v)] *)
Definition py_int (v : json) : result Z :=
    match v with
    | JInt n => Ok n
    | JFloat u => Ok (trunc u)
    | JBool b => Ok (if b then 1%Z else 0%Z)
    | JStr s => match int_of_str s with
                | Some n => Ok n
                | None => Raise ValueError
                end
    | JNull | JList _ | JDict _ => Raise TypeError
    end.

  (** [str(v)] *)
Definition py_str (v : json) : string :=
    match v with
    | JStr s => s
    | _ => repr v
    end.
End Builtins.

(** [bool(v)]: truthiness. *)
Definition py_bool (v : json) : bool :=
  match v with
  | JNull => false
  | JBool b => b
  | JInt n => negb (Z.eqb n 0)
  | JFloat u => if Req_dec_T u 0 then false else true
  | JStr s => negb (String.eqb s EmptyString)
  | JList l => match l with [] => false | _ => true end
  | JDict l => match l with [] => false | _ => true end
  end.

(** [k in obj] and [obj[k]] on a parsed JSON object. *)
Definition has_field (obj : list (string * json)) (k : string) : bool :=
  dict_mem String.eqb obj k.
Definition field (obj : list (string * json)) (k : string) : option json :=
  dict_get String.eqb obj k.

(** ** KbProperties *)

Module KbProperties.
Record t : Type := mk {
    bg : string;
    fg : string;
    ghosted : bool;
    profile : option string;
    text_alignment : option Z;
    font_primary : Z;
    font_secondary : Z;
    r : R;
    rx : R;
    ry : R
  }.

  (** [__init__]: only the colours and [r], [rx], [ry] are taken from the
      arguments. *)
Definition init (keycap_color text_color : string) (ghosted_arg : bool)
      (profile_arg : option string) (text_alignment_arg : option Z)
      (font_primary_arg font_secondary_arg : Z) (r0 rx0 ry0 : R) : t :=
    mk keycap_color text_color false None None 3 3 r0 rx0 ry0.

  (** [KbProperties()] *)
Definition default : t :=
    init "#ffffff" "#000000" false None None 3 3 0 0 0.

Definition set_bg (p : t) (v : string) : t :=
    mk v (fg p) (ghosted p) (profile p) (text_alignment p) (font_primary p)
       (font_secondary p) (r p) (rx p) (ry p).
Definition set_fg (p : t) (v : string) : t :=
    mk (bg p) v (ghosted p) (profile p) (text_alignment p) (font_primary p)
       (font_secondary p) (r p) (rx p) (ry p).
Definition set_ghosted (p : t) (v : bool) : t :=
    mk (bg p) (fg p) v (profile p) (text_alignment p) (font_primary p)
       (font_secondary p) (r p) (rx p) (ry p).
Definition set_profile (p : t) (v : option string) : t :=
    mk (bg p) (fg p) (ghosted p) v (text_alignment p) (font_primary p)
       (font_secondary p) (r p) (rx p) (ry p).
Definition set_text_alignment (p : t) (v : option Z) : t :=
    mk (bg p) (fg p) (ghosted p) (profile p) v (font_primary p)
       (font_secondary p) (r p) (rx p) (ry p).
Definition set_font_primary (p : t) (v : Z) : t :=
    mk (bg p) (fg p) (ghosted p) (profile p) (text_alignment p) v
       (font_secondary p) (r p) (rx p) (ry p).
Definition set_font_secondary (p : t) (v : Z) : t :=
    mk (bg p) (fg p) (ghosted p) (profile p) (text_alignment p)
       (font_primary p) v (r p) (rx p) (ry p).
Definition set_r (p : t) (v : R) : t :=
    mk (bg p) (fg p) (ghosted p) (profile p) (text_alignment p)
       (font_primary p) (font_secondary p) v (rx p) (ry p).
Definition set_rx (p : t) (v : R) : t :=
    mk (bg p) (fg p) (ghosted p) (profile p) (text_alignment p)
       (font_primary p) (font_secondary p) (r p) v (ry p).
Definition set_ry (p : t) (v : R) : t :=
    mk (bg p) (fg p) (ghosted p) (profile p) (text_alignment p)
       (font_primary p) (font_secondary p) (r p) (rx p) v.

Section Update.
Context {I : Interp}.

    (** [if k in obj: <assign conv(obj[k])>] *)
Definition when_field {A : Type} (obj : list (string * json)) (k : string)
        (conv : json -> result A) (assign : t -> A -> t) (p : t) : result t :=
      match field obj k with
      | Some v => a <- conv v ;; Ok (assign p a)
      | None => Ok p
      end.

    (** [update(self, obj)], on the value of the object; the caller writes
        the result back to the object's heap cell. *)
Definition update (p : t) (obj : list (string * json)) : result t :=
      p <- when_field obj "c" (fun v => Ok (py_str v)) set_bg p ;;
      p <- when_field obj "t" (fun v => Ok (py_str v)) set_fg p ;;
      p <- when_field obj "g" (fun v => Ok (py_bool v)) set_ghosted p ;;
      p <- when_field obj "a" py_int
             (fun q n => set_text_alignment q (Some n)) p ;;
      p <- when_field obj "f" py_int set_font_primary p ;;
      p <- when_field obj "f2" py_int set_font_secondary p ;;
      p <- when_field obj "p" (fun v => Ok (py_str v))
             (fun q s => set_profile q (Some s)) p ;;
      p <- when_field obj "r" py_float set_r p ;;
      p <- when_field obj "rx" py_float set_rx p ;;
      when_field obj "ry" py_float set_ry p.
End Update.
End KbProperties.

(** ** The heap of [KbProperties] objects

    The keyboard and its keys hold references; [copy.copy] allocates. *)
Definition ref : Type := nat.

Record heap : Type := Heap {
  cell : ref -> KbProperties.t;
  next : ref
}.

Definition empty_heap : heap := Heap (fun _ => KbProperties.default) 0%nat.

Definition alloc (hp : heap) (p : KbProperties.t) : heap * ref :=
  (Heap (fun a => if Nat.eqb a (next hp) then p else cell hp a) (S (next hp)),
   next hp).

Definition write (hp : heap) (a : ref) (p : KbProperties.t) : heap :=
  Heap (fun b => if Nat.eqb b a then p else cell hp b) (next hp).

(** [copy.copy(obj)]: a new object with the same attribute values. *)
Definition copy_copy (hp : heap) (a : ref) : heap * ref :=
  alloc hp (cell hp a).

(** ** KeyProperties *)

Module KeyProperties.
Record t : Type := mk {
    x : R; y : R; w : R; h : R;
    x2 : option R; y2 : option R; w2 : option R; h2 : option R;
    rx : option R; ry : option R;
    stepped : bool; homing : bool; decal : bool
  }.

  (** [__init__]: the secondary rectangle and the flags ignore their
      arguments. *)
Definition init (x0 y0 w0 h0 : R) (x2_arg y2_arg w2_arg h2_arg : option R)
      (stepped_arg homing_arg decal_arg : bool) : t :=
    mk x0 y0 w0 h0 None None None None None None false false false.

  (** [KeyProperties()] *)
Definition default : t :=
    init 0 0 1 1 None None None None false false false.

Definition set_x (p : t) (v : R) : t :=
    mk v (y p) (w p) (h p) (x2 p) (y2 p) (w2 p) (h2 p) (rx p) (ry p)
       (stepped p) (homing p) (decal p).
Definition set_y (p : t) (v : R) : t :=
    mk (x p) v (w p) (h p) (x2 p) (y2 p) (w2 p) (h2 p) (rx p) (ry p)
       (stepped p) (homing p) (decal p).
Definition set_w (p : t) (v : R) : t :=
    mk (x p) (y p) v (h p) (x2 p) (y2 p) (w2 p) (h2 p) (rx p) (ry p)
       (stepped p) (homing p) (decal p).
Definition set_h (p : t) (v : R) : t :=
    mk (x p) (y p) (w p) v (x2 p) (y2 p) (w2 p) (h2 p) (rx p) (ry p)
       (stepped p) (homing p) (decal p).
Definition set_x2 (p : t) (v : option R) : t :=
    mk (x p) (y p) (w p) (h p) v (y2 p) (w2 p) (h2 p) (rx p) (ry p)
       (stepped p) (homing p) (decal p).
Definition set_y2 (p : t) (v : option R) : t :=
    mk (x p) (y p) (w p) (h p) (x2 p) v (w2 p) (h2 p) (rx p) (ry p)
       (stepped p) (homing p) (decal p).
Definition set_w2 (p : t) (v : option R) : t :=
    mk (x p) (y p) (w p) (h p) (x2 p) (y2 p) v (h2 p) (rx p) (ry p)
       (stepped p) (homing p) (decal p).
Definition set_h2 (p : t) (v : option R) : t :=
    mk (x p) (y p) (w p) (h p) (x2 p) (y2 p) (w2 p) v (rx p) (ry p)
       (stepped p) (homing p) (decal p).
Definition set_rx (p : t) (v : option R) : t :=
    mk (x p) (y p) (w p) (h p) (x2 p) (y2 p) (w2 p) (h2 p) v (ry p)
       (stepped p) (homing p) (decal p).
Definition set_ry (p : t) (v : option R) : t :=
    mk (x p) (y p) (w p) (h p) (x2 p) (y2 p) (w2 p) (h2 p) (rx p) v
       (stepped p) (homing p) (decal p).
Definition set_stepped (p : t) (v : bool) : t :=
    mk (x p) (y p) (w p) (h p) (x2 p) (y2 p) (w2 p) (h2 p) (rx p) (ry p)
       v (homing p) (decal p).
Definition set_homing (p : t) (v : bool) : t :=
    mk (x p) (y p) (w p) (h p) (x2 p) (y2 p) (w2 p) (h2 p) (rx p) (ry p)
       (stepped p) v (decal p).
Definition set_decal (p : t) (v : bool) : t :=
    mk (x p) (y p) (w p) (h p) (x2 p) (y2 p) (w2 p) (h2 p) (rx p) (ry p)
       (stepped p) (homing p) v.

Section FromJson.
Context {I : Interp}.

Definition when_field {A : Type} (obj : list (string * json)) (k : string)
        (conv : json -> result A) (assign : t -> A -> t) (p : t) : result t :=
      match field obj k with
      | Some v => a <- conv v ;; Ok (assign p a)
      | None => Ok p
      end.

    (** [from_json(obj)] *)
Definition from_json (obj : list (string * json)) : result t :=
      let props := default in
      props <- when_field obj "x" py_float set_x props ;;
      props <- when_field obj "y" py_float set_y props ;;
      props <- when_field obj "w" py_float set_w props ;;
      props <- when_field obj "h" py_float set_h props ;;
      props <- when_field obj "x2" py_float
                 (fun q v => set_x2 q (Some v)) props ;;
      props <- when_field obj "y2" py_float
                 (fun q v => set_y2 q (Some v)) props ;;
      props <- when_field obj "w2" py_float
                 (fun q v => set_w2 q (Some v)) props ;;
      props <- when_field obj "h2" py_float
                 (fun q v => set_h2 q (Some v)) props ;;
      props <- when_field obj "d" (fun v => Ok (py_bool v)) set_decal props ;;
      props <- when_field obj "l" (fun v => Ok (py_bool v)) set_stepped props ;;
      when_field obj "n" (fun v => Ok (py_bool v)) set_homing props.
End FromJson.

  (** The attribute looked up by [getattr(self, field)] in [to_json]. *)
Definition getattr (p : t) (name : string) : option R :=
    if String.eqb name "x" then Some (x p)
    else if String.eqb name "y" then Some (y p)
    else if String.eqb name "w" then Some (w p)
    else if String.eqb name "h" then Some (h p)
    else if String.eqb name "x2" then x2 p
    else if String.eqb name "y2" then y2 p
    else if String.eqb name "w2" then w2 p
    else if String.eqb name "h2" then h2 p
    else if String.eqb name "rx" then rx p
    else if String.eqb name "ry" then ry p
    else None.

  (** [to_json(self)]: every listed field whose value is not [None]. *)
Definition to_json (p : t) : dict (K := string) (V := R) :=
    fold_left
      (fun result name =>
         match getattr p name with
         | Some value => dict_set String.eqb result name value
         | None => result
         end)
      ["x"; "y"; "w"; "h"; "x2"; "y2"; "w2"; "h2"; "rx"; "ry"]
      [].
End KeyProperties.

(** ** KLEKey *)

Module KLEKey.

(** The legend slots and their anchors. *)
Definition LEGEND_MAP : dict (K := nat) (V := Z * Z) :=
  [ (0%nat, (-1, -1)%Z); (1%nat, (-1, 1)%Z); (2%nat, (1, -1)%Z);
    (3%nat, (1, 1)%Z); (4%nat, (-1, 2)%Z); (5%nat, (1, 2)%Z);
    (6%nat, (-1, 0)%Z); (7%nat, (1, 0)%Z); (8%nat, (0, -1)%Z);
    (9%nat, (0, 0)%Z); (10%nat, (0, 1)%Z); (11%nat, (0, 2)%Z) ].

Record t : Type := mk {
  _u_x : R;
  _u_y : R;
  _u_w : R;
  _u_h : R;
  _spacing : R;
  decal : bool;
  properties : ref;
  _r : R;
  _u_rx : R;
  _u_ry : R;
  _legends : dict (K := nat) (V := string)
}.

(** The first loop of [__init__]: one slot per index of [LEGEND_MAP]. *)
Definition fill_legends (legends : list string) (max_legends : nat)
    : dict (K := nat) (V := string) :=
  fold_left
    (fun d key =>
       if Nat.ltb key (List.length legends)
       then dict_set Nat.eqb d key (nth key legends EmptyString)
       else dict_set Nat.eqb d key EmptyString)
    (seq 0 max_legends) [].

(** The second loop of [__init__]. *)
Definition complete_legends (d : dict (K := nat) (V := string))
    : dict (K := nat) (V := string) :=
  fold_left
    (fun d' key =>
       if negb (dict_mem Nat.eqb d' key)
       then dict_set Nat.eqb d' key EmptyString
       else d')
    (dict_keys d) d.

Definition too_many_legends (got max_legends : nat) : exn :=
  PyException
    (KLEParseError
       ("Too many legends for key. Got " ++ format_nat got
        ++ ", max is " ++ format_nat max_legends)).

(** [__init__(self, ux, uy, uw, uh, text, properties, decal, spacing)];
    [props] is [None] or a reference to the caller's [KbProperties]. *)
Definition init (hp : heap) (ux uy uw uh : R) (text : string)
    (props : option ref) (decal0 : bool) (spacing0 : R)
    : result (heap * t) :=
  let '(hp1, own) :=
    match props with
    | None => alloc hp KbProperties.default
    | Some p => copy_copy hp p
    end in
  let legends := split newline text in
  let max_legends := List.length LEGEND_MAP in
  if Nat.ltb max_legends (List.length legends)
  then Raise (too_many_legends (List.length legends) max_legends)
  else
    Ok (hp1,
        mk (ux * 1) (uy * 1) (uw * 1) (uh * 1) spacing0 decal0 own
           (KbProperties.r (cell hp1 own))
           (KbProperties.rx (cell hp1 own))
           (KbProperties.ry (cell hp1 own))
           (complete_legends (fill_legends legends max_legends))).

(** [get_legend(self, key)] *)
Definition get_legend (k : t) (key : nat) : result string :=
  if dict_mem Nat.eqb LEGEND_MAP key
  then match dict_get Nat.eqb (_legends k) key with
       | Some s => Ok s
       | None => Raise KeyError
       end
  else Raise AssertionError.

(** [get_legend_str(self)]; the [print] is not modelled. *)
Definition get_legend_str (k : t) : result string :=
  result <-
    fold_left
      (fun acc key =>
         result <- acc ;;
         match dict_get Nat.eqb (_legends k) key with
         | Some s => Ok (result ++ s ++ nl)
         | None => Raise KeyError
         end)
      (seq 0 (List.length LEGEND_MAP)) (Ok EmptyString) ;;
  Ok (strip newline result).

(** The read-only properties. *)
Definition spacing (k : t) : R := _spacing k.
Definition x (k : t) : R := _spacing k * (_u_x k + _u_rx k).
Definition y (k : t) : R := _spacing k * (_u_y k + _u_ry k).
Definition w (k : t) : R := _spacing k * _u_w k.
Definition h (k : t) : R := _spacing k * _u_h k.
Definition r (k : t) : R := _r k.
Definition r_rad (k : t) : R := math_radians (_r k).
Definition rx (k : t) : R := _u_rx k * _spacing k.
Definition ry (k : t) : R := _u_ry k * _spacing k.
Definition u_x (k : t) : R := _u_x k + _u_rx k.
Definition u_y (k : t) : R := _u_y k + _u_ry k.
Definition u_w (k : t) : R := _u_w k.
Definition u_h (k : t) : R := _u_h k.

Definition with_u_pos (k : t) (ux uy : R) : t :=
  mk ux uy (_u_w k) (_u_h k) (_spacing k) (decal k) (properties k)
     (_r k) (_u_rx k) (_u_ry k) (_legends k).
Definition with_r (k : t) (v : R) : t :=
  mk (_u_x k) (_u_y k) (_u_w k) (_u_h k) (_spacing k) (decal k)
     (properties k) v (_u_rx k) (_u_ry k) (_legends k).
Definition with_u_rx (k : t) (v : R) : t :=
  mk (_u_x k) (_u_y k) (_u_w k) (_u_h k) (_spacing k) (decal k)
     (properties k) (_r k) v (_u_ry k) (_legends k).
Definition with_u_ry (k : t) (v : R) : t :=
  mk (_u_x k) (_u_y k) (_u_w k) (_u_h k) (_spacing k) (decal k)
     (properties k) (_r k) (_u_rx k) v (_legends k).

(** [get_pos(self)] *)
Definition get_pos (k : t) : Point.t :=
  let rpos := float_plus_j (_u_rx k) (_u_ry k) in
  let pos :=
    Cadd rpos (Cmul (float_plus_j (_u_x k) (_u_y k))
                    (rotate_complex (r_rad k))) in
  let pos := Cmul pos (of_float (_spacing k)) in
  Point.mk (real pos) (imag pos).

(** [set_pos(self, x, y)] *)
Definition set_pos (k : t) (px py : R) : result t :=
  u_pos <- Point.truediv (Point.mk px py) (_spacing k) ;;
  let u_pos := Point.sub u_pos (Point.mk (_u_rx k) (_u_ry k)) in
  let u_pos :=
    Cmul (float_plus_j (Point.x u_pos) (Point.y u_pos))
         (rotate_complex (- r_rad k)) in
  Ok (with_u_pos k (real u_pos) (imag u_pos)).

(** [get_rect_points(self)] *)
Definition get_rect_points (k : t) : list Point.t :=
  let pos := get_pos k in
  let pos := float_plus_j (Point.x pos) (Point.y pos) in
  let edge_w :=
    Cmul (Cadd (of_float (w k)) (Complex 0 0)) (rotate_complex (r_rad k)) in
  let edge_h :=
    Cmul (Cadd (of_float 0) (Cmul (of_float (h k)) Cj))
         (rotate_complex (r_rad k)) in
  let v0 := pos in
  let v1 := Cadd pos edge_w in
  let v2 := Cadd (Cadd pos edge_w) edge_h in
  let v3 := Cadd pos edge_h in
  [ Point.mk (real v0) (imag v0);
    Point.mk (real v1) (imag v1);
    Point.mk (real v2) (imag v2);
    Point.mk (real v3) (imag v3) ].

(** [1/2 * (self.w + self.h*1j) * rotate_complex(self.r_rad)] *)
Definition half_diagonal (k : t) : complex :=
  Cmul (Cmul (of_float (1 / 2)) (float_plus_j (w k) (h k)))
       (rotate_complex (r_rad k)).

(** [get_center(self)] *)
Definition get_center (k : t) : Point.t :=
  let pos := get_pos k in
  let pos := float_plus_j (Point.x pos) (Point.y pos) in
  let center := Cadd pos (half_diagonal k) in
  Point.mk (real center) (imag center).

(** [set_center(self, x, y)] *)
Definition set_center (k : t) (cx cy : R) : result t :=
  let new_center := float_plus_j cx cy in
  let corner := Csub new_center (half_diagonal k) in
  set_pos k (real corner) (imag corner).

(** [bounding_box(self)] *)
Definition bounding_box (k : t) : Rect.t :=
  let points := get_rect_points k in
  let '(xmin, ymin, xmax, ymax) :=
    fold_left
      (fun '(xmin, ymin, xmax, ymax) point =>
         (py_min xmin (Fin (Point.x point)),
          py_min ymin (Fin (Point.y point)),
          py_max xmax (Fin (Point.x point)),
          py_max ymax (Fin (Point.y point))))
      points (PInf, PInf, xneg PInf, xneg PInf) in
  Rect.mk xmin ymin (xsub xmax xmin) (xsub ymax ymin).

(** [set_angle(self, new_r)] *)
Definition set_angle (k : t) (new_r : R) : result t :=
  let pos := get_center k in
  let k := with_r k new_r in
  set_center k (Point.x pos) (Point.y pos).

(** [get_u_pos(self)] *)
Definition get_u_pos (k : t) : Point.t := Point.mk (_u_x k) (_u_y k).

(** [if v: <assign v>] for an optional float argument: [None], [0] and
    [0.0] are false. *)
Definition assign_if_truthy (v : option R) (assign : t -> R -> t) (k : t)
    : t :=
  match v with
  | Some u => if Req_dec_T u 0 then k else assign k u
  | None => k
  end.

(** [set_u_pos(self, ux, uy, r=None, u_rx=None, u_ry=None)] *)
Definition set_u_pos (k : t) (ux uy : R) (r0 u_rx0 u_ry0 : option R) : t :=
  let k := with_u_pos k ux uy in
  let k := assign_if_truthy r0 with_r k in
  let k := assign_if_truthy u_rx0 with_u_rx k in
  assign_if_truthy u_ry0 with_u_ry k.

(** [get_properties(self)] *)
Definition get_properties (k : t) : KeyProperties.t :=
  let result := KeyProperties.default in
  let result := KeyProperties.set_x result (_u_x k) in
  let result := KeyProperties.set_y result (_u_y k) in
  let result := KeyProperties.set_w result (_u_w k) in
  let result := KeyProperties.set_h result (_u_h k) in
  let result := KeyProperties.set_rx result (Some (_u_rx k)) in
  let result := KeyProperties.set_ry result (Some (_u_ry k)) in
  result.

Definition with_legends (k : t) (d : dict (K := nat) (V := string)) : t :=
  mk (_u_x k) (_u_y k) (_u_w k) (_u_h k) (_spacing k) (decal k)
     (properties k) (_r k) (_u_rx k) (_u_ry k) d.

(** [set_legend(self, key, value)]; [value] is a string by its type. *)
Definition set_legend (k : t) (key : nat) (value : string) : result t :=
  if dict_mem Nat.eqb LEGEND_MAP key
  then Ok (with_legends k (dict_set Nat.eqb (_legends k) key value))
  else Raise AssertionError.

(** [get_legend_list(self)] *)
Definition get_legend_list (k : t) : result (list ((Z * Z) * string)) :=
  fold_left
    (fun acc key =>
       result <- acc ;;
       match dict_get Nat.eqb (_legends k) key with
       | Some s =>
           if negb (String.eqb s EmptyString)
           then match dict_get Nat.eqb LEGEND_MAP key with
                | Some anchor => Ok (result ++ [(anchor, s)])%list
                | None => Raise KeyError
                end
           else Ok result
       | None => Raise KeyError
       end)
    (seq 0 (List.length LEGEND_MAP)) (Ok []).

(** [bounding_box_points(self)] *)
Definition bounding_box_points (k : t) : list Point.xt :=
  let b := bounding_box k in
  [ Point.xmk (Rect.x b) (Rect.y b);
    Point.xmk (xadd (Rect.x b) (Rect.w b)) (Rect.y b);
    Point.xmk (xadd (Rect.x b) (Rect.w b)) (xadd (Rect.y b) (Rect.h b));
    Point.xmk (Rect.x b) (xadd (Rect.y b) (Rect.h b)) ].

(** The setter of the [spacing] property. *)
Definition set_spacing (k : t) (value : R) : t :=
  mk (_u_x k) (_u_y k) (_u_w k) (_u_h k) value (decal k)
     (properties k) (_r k) (_u_rx k) (_u_ry k) (_legends k).

End KLEKey.

(** ** KLEKeyboard *)

Module KLEKeyboard.

Record t : Type := mk {
  keys : list KLEKey.t;
  col : Z;
  row : Z;
  global_props : ref;
  cur_x : R;
  cur_y : R;
  spacing : R;
  metadata : dict (K := string) (V := json);
  _col : option Z
}.

(** [__init__(self, spacing)]; the attribute [_col] does not exist yet. *)
Definition init (hp : heap) (spacing0 : R) : heap * t :=
  let '(hp1, gp) := alloc hp KbProperties.default in
  (hp1, mk [] 0 (-1) gp 0 0 spacing0 [] None).

(** [get_keys(self)] *)
Definition get_keys (kb : t) : list KLEKey.t := keys kb.

(** [reset_pos(self, u_x, u_y)] *)
Definition reset_pos (kb : t) (ux uy : R) : t :=
  mk (keys kb) (col kb) (row kb) (global_props kb) ux uy (spacing kb)
     (metadata kb) (_col kb).

Definition with_cur_x (kb : t) (v : R) : t :=
  mk (keys kb) (col kb) (row kb) (global_props kb) v (cur_y kb) (spacing kb)
     (metadata kb) (_col kb).
Definition with_cur_y (kb : t) (v : R) : t :=
  mk (keys kb) (col kb) (row kb) (global_props kb) (cur_x kb) v (spacing kb)
     (metadata kb) (_col kb).
Definition with_metadata (kb : t) (m : dict (K := string) (V := json)) : t :=
  mk (keys kb) (col kb) (row kb) (global_props kb) (cur_x kb) (cur_y kb)
     (spacing kb) m (_col kb).
Definition with_keys (kb : t) (ks : list KLEKey.t) : t :=
  mk ks (col kb) (row kb) (global_props kb) (cur_x kb) (cur_y kb)
     (spacing kb) (metadata kb) (_col kb).

(** [add_row(self)] *)
Definition add_row (kb : t) : t :=
  mk (keys kb) (col kb) (row kb + 1) (global_props kb) 0 (cur_y kb + 1)
     (spacing kb) (metadata kb) (Some 0%Z).

(** [add_key(self, x, y, w, h, text, decal)] *)
Definition add_key (hp : heap) (kb : t) (dx dy uw uh : R) (text : string)
    (decal0 : bool) : result (heap * t) :=
  let kb := with_cur_x kb (cur_x kb + dx) in
  let kb := with_cur_y kb (cur_y kb + dy) in
  let pos_x := cur_x kb in
  let pos_y := cur_y kb in
  '(hp1, key) <- KLEKey.init hp pos_x pos_y uw uh text
                   (Some (global_props kb)) decal0 (spacing kb) ;;
  Ok (hp1,
      mk (keys kb ++ [key]) (col kb + 1) (row kb) (global_props kb)
         (cur_x kb + uw) (cur_y kb) (spacing kb) (metadata kb) (_col kb)).

(** The state of the scan in [from_json]: the heap, the keyboard being
    built and the locals [props] and [pos]. *)
Record scan : Type := Scan {
  st_heap : heap;
  st_kb : t;
  st_props : KeyProperties.t;
  st_pos : Z
}.

(** What [for key in row] yields; a string yields its characters. *)
Definition iterate (v : json) : result (list json) :=
  match v with
  | JList items => Ok items
  | JStr s => Ok (map (fun c => JStr (String c EmptyString))
                      (list_ascii_of_string s))
  | JDict o => Ok (map JStr (dict_keys o))
  | JNull | JBool _ | JInt _ | JFloat _ => Raise TypeError
  end.

Section FromJson.
Context {I : Interp}.

(** The body of the inner loop of [from_json], for one item of a row. *)
Definition item_step (st : scan) (key : json) : result scan :=
  match key with
  | JStr key_text =>
      let props := st_props st in
      '(hp, kb) <- add_key (st_heap st) (st_kb st)
                     (KeyProperties.x props) (KeyProperties.y props)
                     (KeyProperties.w props) (KeyProperties.h props)
                     key_text (KeyProperties.decal props) ;;
      Ok (Scan hp kb KeyProperties.default (st_pos st + 1))
  | JDict obj =>
      props <- KeyProperties.from_json obj ;;
      let gp := global_props (st_kb st) in
      updated <- KbProperties.update (cell (st_heap st) gp) obj ;;
      let hp := write (st_heap st) gp updated in
      let kb := st_kb st in
      let kb := if has_field obj "rx" then with_cur_x kb 0 else kb in
      let kb := if has_field obj "ry" then with_cur_y kb 0 else kb in
      Ok (Scan hp kb props (st_pos st))
  | _ => Ok st
  end.

Fixpoint scan_items (st : scan) (items : list json) : result scan :=
  match items with
  | [] => Ok st
  | key :: rest => st1 <- item_step st key ;; scan_items st1 rest
  end.

(** The metadata branch: [for key in row: keyboard.metadata[key] = row[key]]. *)
Definition merge_metadata (m : dict (K := string) (V := json))
    (obj : list (string * json)) : dict (K := string) (V := json) :=
  fold_left
    (fun m' key =>
       match field obj key with
       | Some v => dict_set String.eqb m' key v
       | None => m'
       end)
    (dict_keys obj) m.

(** The body of the outer loop of [from_json], for one row. *)
Definition row_step (st : scan) (row0 : json) : result scan :=
  match row0 with
  | JDict obj =>
      Ok (Scan (st_heap st)
               (with_metadata (st_kb st)
                  (merge_metadata (metadata (st_kb st)) obj))
               (st_props st) (st_pos st))
  | _ =>
      items <- iterate row0 ;;
      st1 <- scan_items st items ;;
      Ok (Scan (st_heap st1) (add_row (st_kb st1)) (st_props st1) (st_pos st1))
  end.

Fixpoint scan_rows (st : scan) (rows : list json) : result scan :=
  match rows with
  | [] => Ok st
  | row0 :: rest => st1 <- row_step st row0 ;; scan_rows st1 rest
  end.

(** The scan from a point between two items to a later such point: the
    next items of the current row and then, when the later point lies in
    another row, the end of the current row, the rows in between and the
    first items of that other row. *)
Definition scan_on (st : scan) (items : list json)
    (later : option (list json * list json)) : result scan :=
  st1 <- scan_items st items ;;
  match later with
  | None => Ok st1
  | Some (rows, more) =>
      st2 <- scan_rows
               (Scan (st_heap st1) (add_row (st_kb st1)) (st_props st1)
                     (st_pos st1))
               rows ;;
      scan_items st2 more
  end.

(** The state in which the outer loop of [from_json] starts. *)
Definition begin_scan (hp : heap) (spacing0 : R) : scan :=
  let '(hp1, keyboard) := init hp spacing0 in
  Scan hp1 keyboard KeyProperties.default 0.

(** [from_json(json_layout, spacing)] *)
Definition from_json (hp : heap) (json_layout : list json) (spacing0 : R)
    : result (heap * t) :=
  st <- scan_rows (begin_scan hp spacing0) json_layout ;;
  Ok (st_heap st, st_kb st).

End FromJson.

(** One entry of the list that [to_json] returns, for a key. *)
Definition key_entry (key : KLEKey.t) : result json :=
  let props := KLEKey.get_properties key in
  legend_str <- KLEKey.get_legend_str key ;;
  Ok (JList [ JDict (map (fun '(name, v) => (name, JFloat v))
                         (KeyProperties.to_json props));
              JStr legend_str ]).

(** [to_json(self)] *)
Definition to_json (kb : t) : result (list json) :=
  let result :=
    match metadata kb with
    | [] => []
    | _ :: _ => [JDict (metadata kb)]
    end in
  fold_left
    (fun acc key =>
       result <- acc ;;
       row0 <- key_entry key ;;
       Ok (result ++ [row0])%list)
    (get_keys kb) (Ok result).

(** The body of the loop of [mirror]. *)
Definition mirror_key (m : option Point.t) (key : KLEKey.t)
    : result KLEKey.t :=
  match m with
  | None => Raise UnboundLocalError
  | Some mirror0 =>
      let old_center := KLEKey.get_center key in
      key1 <- KLEKey.set_center key
                (Point.x mirror0 * Point.x old_center)
                (Point.y mirror0 * Point.y old_center) ;;
      KLEKey.set_angle key1 (- KLEKey.r key1)
  end.

Fixpoint mirror_keys (m : option Point.t) (ks : list KLEKey.t)
    : result (list KLEKey.t) :=
  match ks with
  | [] => Ok []
  | key :: rest =>
      key1 <- mirror_key m key ;;
      rest1 <- mirror_keys m rest ;;
      Ok (key1 :: rest1)
  end.

(** [mirror(self, axis)]; any other axis leaves the local [mirror]
    unbound. *)
Definition mirror (kb : t) (axis : string) : result t :=
  let m :=
    if String.eqb axis "x" then Some (Point.mk (-1) 1)
    else if String.eqb axis "y" then Some (Point.mk 1 (-1))
    else None in
  ks <- mirror_keys m (get_keys kb) ;;
  Ok (with_keys kb ks).

End KLEKeyboard.

(** ** Snapshots and the running properties *)

(** The keyboard's running [KbProperties] and the private copy of a key. *)
Definition running (st : KLEKeyboard.scan) : KbProperties.t :=
  cell (KLEKeyboard.st_heap st)
       (KLEKeyboard.global_props (KLEKeyboard.st_kb st)).
Definition snapshot (hp : heap) (k : KLEKey.t) : KbProperties.t :=
  cell hp (KLEKey.properties k).

(** The values [_r], [_u_rx], [_u_ry] that a key took from its copy. *)
Definition captured (hp : heap) (k : KLEKey.t) : Prop :=
  KLEKey._r k = KbProperties.r (snapshot hp k)
  /\ KLEKey._u_rx k = KbProperties.rx (snapshot hp k)
  /\ KLEKey._u_ry k = KbProperties.ry (snapshot hp k).

(** The references of a scan state are allocated, and no key shares its
    [KbProperties] object with the keyboard. *)
Definition wf (st : KLEKeyboard.scan) : Prop :=
  (KLEKeyboard.global_props (KLEKeyboard.st_kb st)
   < next (KLEKeyboard.st_heap st))%nat
  /\ Forall
       (fun k =>
          (KLEKey.properties k < next (KLEKeyboard.st_heap st))%nat
          /\ KLEKey.properties k
             <> KLEKeyboard.global_props (KLEKeyboard.st_kb st))
       (KLEKeyboard.keys (KLEKeyboard.st_kb st)).

(** The persistent style fields, with the JSON name that [update] reads. *)
Inductive style_field : Type :=
| F_bg | F_fg | F_ghosted | F_text_alignment | F_font_primary
| F_font_secondary | F_profile | F_r | F_rx | F_ry.

Definition field_name (f : style_field) : string :=
  match f with
  | F_bg => "c"
  | F_fg => "t"
  | F_ghosted => "g"
  | F_text_alignment => "a"
  | F_font_primary => "f"
  | F_font_secondary => "f2"
  | F_profile => "p"
  | F_r => "r"
  | F_rx => "rx"
  | F_ry => "ry"
  end.

(** Two [KbProperties] values have the same value in field [f]. *)
Definition agree (f : style_field) (p q : KbProperties.t) : Prop :=
  match f with
  | F_bg => KbProperties.bg p = KbProperties.bg q
  | F_fg => KbProperties.fg p = KbProperties.fg q
  | F_ghosted => KbProperties.ghosted p = KbProperties.ghosted q
  | F_text_alignment =>
      KbProperties.text_alignment p = KbProperties.text_alignment q
  | F_font_primary => KbProperties.font_primary p = KbProperties.font_primary q
  | F_font_secondary =>
      KbProperties.font_secondary p = KbProperties.font_secondary q
  | F_profile => KbProperties.profile p = KbProperties.profile q
  | F_r => KbProperties.r p = KbProperties.r q
  | F_rx => KbProperties.rx p = KbProperties.rx q
  | F_ry => KbProperties.ry p = KbProperties.ry q
  end.

(** Field [f] of [p] holds what [update] assigns to it from the JSON value
    [v]: [str(v)] for 'c', 't' and 'p', [bool(v)] for 'g', [int(v)] for
    'a', 'f' and 'f2', [float(v)] for 'r', 'rx' and 'ry'. *)
Definition stores {I : Interp} (f : style_field) (v : json)
    (p : KbProperties.t) : Prop :=
  match f with
  | F_bg => KbProperties.bg p = py_str v
  | F_fg => KbProperties.fg p = py_str v
  | F_ghosted => KbProperties.ghosted p = py_bool v
  | F_text_alignment =>
      exists n, py_int v = Ok n /\ KbProperties.text_alignment p = Some n
  | F_font_primary => py_int v = Ok (KbProperties.font_primary p)
  | F_font_secondary => py_int v = Ok (KbProperties.font_secondary p)
  | F_profile => KbProperties.profile p = Some (py_str v)
  | F_r => py_float v = Ok (KbProperties.r p)
  | F_rx => py_float v = Ok (KbProperties.rx p)
  | F_ry => py_float v = Ok (KbProperties.ry p)
  end.

(** An item of a row, or a row, that assigns field [f]. *)
Definition sets_field (f : style_field) (item : json) : bool :=
  match item with
  | JDict obj => has_field obj (field_name f)
  | _ => false
  end.

Definition quiet_items (f : style_field) (items : list json) : bool :=
  forallb (fun item => negb (sets_field f item)) items.

Definition quiet_row (f : style_field) (row0 : json) : bool :=
  match row0 with
  | JList items => quiet_items f items
  | _ => true
  end.

Definition quiet_rows (f : style_field) (rows : list json) : bool :=
  forallb (quiet_row f) rows.

(** No object item between the two points of [scan_on] assigns [f]. *)
Definition quiet_on (f : style_field) (items : list json)
    (later : option (list json * list json)) : bool :=
  quiet_items f items
  && match later with
     | None => true
     | Some (rows, more) => quiet_rows f rows && quiet_items f more
     end.

(** How a scan state [st'] relates to an earlier state [st]: the objects
    that existed in [st], other than the running properties, are unchanged;
    the keys of [st] are still there, followed by new keys whose copies are
    new objects; when [Q] holds, field [f] of the running properties and of
    each new copy is what it was in the running properties of [st]. *)
Definition evolves (f : style_field) (Q : Prop) (st st' : KLEKeyboard.scan)
    : Prop :=
  wf st'
  /\ KLEKeyboard.global_props (KLEKeyboard.st_kb st')
     = KLEKeyboard.global_props (KLEKeyboard.st_kb st)
  /\ (next (KLEKeyboard.st_heap st) <= next (KLEKeyboard.st_heap st'))%nat
  /\ (forall a,
        (a < next (KLEKeyboard.st_heap st))%nat ->
        a <> KLEKeyboard.global_props (KLEKeyboard.st_kb st) ->
        cell (KLEKeyboard.st_heap st') a = cell (KLEKeyboard.st_heap st) a)
  /\ (Q -> agree f (running st') (running st))
  /\ exists new,
       KLEKeyboard.keys (KLEKeyboard.st_kb st')
       = (KLEKeyboard.keys (KLEKeyboard.st_kb st) ++ new)%list
       /\ Forall
            (fun k =>
               (next (KLEKeyboard.st_heap st) <= KLEKey.properties k)%nat
               /\ captured (KLEKeyboard.st_heap st') k
               /\ (Q -> agree f (snapshot (KLEKeyboard.st_heap st') k)
                                (running st)))
            new.

(** ** The serialised form, in the words of the specification *)

(** Every legend slot of the key holds a string, as [__init__] leaves
    it. *)
Definition all_slots (k : KLEKey.t) : Prop :=
  forall key, (key < List.length KLEKey.LEGEND_MAP)%nat ->
              dict_get Nat.eqb (KLEKey._legends k) key <> None.

(** The legends of a key, slot 0 to slot 11. *)
Definition legend_list (k : KLEKey.t) : list string :=
  map (fun key => match dict_get Nat.eqb (KLEKey._legends k) key with
                  | Some s => s
                  | None => EmptyString
                  end)
      (seq 0 (List.length KLEKey.LEGEND_MAP)).

Fixpoint has_newline (s : string) : bool :=
  match s with
  | EmptyString => false
  | String c s' => Ascii.eqb c newline || has_newline s'
  end.

(** Every line followed by a newline, as the loop of [get_legend_str]
    builds its string. *)
Definition concat_lines (ls : list string) : string :=
  fold_right (fun l acc => l ++ nl ++ acc) EmptyString ls.

(** "Newline-joined": a newline between consecutive lines. *)
Fixpoint join_lines (ls : list string) : string :=
  match ls with
  | [] => EmptyString
  | l :: rest =>
      match rest with
      | [] => l
      | _ :: _ => l ++ nl ++ join_lines rest
      end
  end.

(** "Trailing empty lines trimmed". *)
Fixpoint trim_trailing_empty (ls : list string) : list string :=
  match ls with
  | [] => []
  | l :: rest =>
      match trim_trailing_empty rest with
      | [] => if String.eqb l EmptyString then [] else [l]
      | t => l :: t
      end
  end.

(** The legend string that the specification describes. *)
Definition spec_legend_string (k : KLEKey.t) : string :=
  join_lines (trim_trailing_empty (legend_list k)).


(** The object that [to_json] emits for a key. *)
Definition key_object (k : KLEKey.t) : json :=
  JDict [ ("x", JFloat (KLEKey._u_x k)); ("y", JFloat (KLEKey._u_y k));
          ("w", JFloat (KLEKey._u_w k)); ("h", JFloat (KLEKey._u_h k));
          ("rx", JFloat (KLEKey._u_rx k)); ("ry", JFloat (KLEKey._u_ry k)) ].

(** ** What an object item says about a field *)

Section ObjectFields.
Context {I : Interp}.

(** A number field: [float(obj[name])] when the object has it, the default
    otherwise. *)
Definition float_field (obj : list (string * json)) (name : string)
    (default got : R) : Prop :=
  match field obj name with
  | Some v => py_float v = Ok got
  | None => got = default
  end.

(** An optional number field: absent means [None]. *)
Definition optional_float_field (obj : list (string * json)) (name : string)
    (got : option R) : Prop :=
  match field obj name with
  | Some v => exists u, py_float v = Ok u /\ got = Some u
  | None => got = None
  end.

(** A flag: [bool(obj[name])] when the object has it, [False] otherwise. *)
Definition flag_field (obj : list (string * json)) (name : string)
    (got : bool) : Prop :=
  got = match field obj name with
        | Some v => py_bool v
        | None => false
        end.
End ObjectFields.

(** [isinstance(row, dict)] and the test of the inner loop of [from_json]
    that an item is a string or an object. *)
Definition is_dict (v : json) : bool :=
  match v with
  | JDict _ => true
  | _ => false
  end.

Definition is_str_or_dict (v : json) : bool :=
  match v with
  | JStr _ | JDict _ => true
  | _ => false
  end.

(** ** Keys and keyboards that [to_json] can write in full *)

(** A key with its twelve slots, no newline inside a legend and a legend in
    slot 0. *)
Definition plain_legends (k : KLEKey.t) : Prop :=
  all_slots k
  /\ Forall (fun l => has_newline l = false) (legend_list k)
  /\ nth 0 (legend_list k) EmptyString <> EmptyString.

(** What [from_json] reads back from the entry that [to_json] wrote for a
    key: the unit position and size, the rotation origin and the legends;
    the angle and the decal flag are not written and come back as the
    defaults. *)
Definition read_back (spacing0 : R) (k k' : KLEKey.t) : Prop :=
  KLEKey._u_x k' = KLEKey._u_x k /\ KLEKey._u_y k' = KLEKey._u_y k
  /\ KLEKey._u_w k' = KLEKey._u_w k /\ KLEKey._u_h k' = KLEKey._u_h k
  /\ KLEKey._u_rx k' = KLEKey._u_rx k /\ KLEKey._u_ry k' = KLEKey._u_ry k
  /\ KLEKey._r k' = 0 /\ KLEKey.decal k' = false
  /\ KLEKey._spacing k' = spacing0
  /\ forall i, (i < 12)%nat -> KLEKey.get_legend k' i = KLEKey.get_legend k i.

(** ** Layouts that are a grid of legends *)

(** The unit positions of a row of legends that starts at (x, y), and of
    the rows of a grid whose first row is on line y. *)
Fixpoint row_positions (x y : R) (row0 : list string) : list (R * R) :=
  match row0 with
  | [] => []
  | _ :: rest => (x, y) :: row_positions (x + 1) y rest
  end.

Fixpoint grid_positions (y : R) (grid : list (list string))
    : list (R * R) :=
  match grid with
  | [] => []
  | row0 :: rest => (row_positions 0 y row0 ++ grid_positions (y + 1) rest)%list
  end.

(** A key of a grid: at its place, of size 1 x 1, with the running angle
    and rotation origin and the legends of its text. *)
Definition grid_key (p : KbProperties.t) (k : KLEKey.t)
    (at_ : (R * R) * string) : Prop :=
  KLEKey._u_x k = fst (fst at_) /\ KLEKey._u_y k = snd (fst at_)
  /\ KLEKey._u_w k = 1 /\ KLEKey._u_h k = 1
  /\ KLEKey._r k = KbProperties.r p
  /\ KLEKey._u_rx k = KbProperties.rx p /\ KLEKey._u_ry k = KbProperties.ry p
  /\ forall i, (i < 12)%nat ->
               KLEKey.get_legend k i
               = Ok (nth i (split newline (snd at_)) EmptyString).

(** The layout of a grid: one array row of strings per row of legends. *)
Definition grid_layout (grid : list (list string)) : list json :=
  map (fun row0 => JList (map JStr row0)) grid.

(** The value of a result that is known not to raise. *)
Definition value_or {A : Type} (d : A) (m : result A) : A :=
  match m with
  | Ok a => a
  | Raise _ => d
  end.

(** An interpreter for layouts that hold no number inside a string. *)
Definition plain_interp : Interp :=
  Build_Interp (fun _ => None) (fun _ => None) (fun _ => EmptyString).

(** The example layout of the specification. *)
Definition layout_AB_C : list json :=
  [ JList [JStr "A"; JStr "B"];
    JList [JDict [("w", JInt 2)]; JStr "C"] ].

(** ** Sample values *)

(** A key rotated by 30 degrees about the origin (1, 2), and an unrotated
    one, both at the default spacing. *)
Definition sample_legends : dict (K := nat) (V := string) :=
  KLEKey.complete_legends
    (KLEKey.fill_legends (split newline "A") (List.length KLEKey.LEGEND_MAP)).
Definition sample_key : KLEKey.t :=
  KLEKey.mk 3 4 2 1 19 false 1%nat 30 1 2 sample_legends.
Definition plain_key : KLEKey.t :=
  KLEKey.mk 0 0 1 1 19 false 2%nat 0 0 0 sample_legends.
Definition sample_keyboard : KLEKeyboard.t :=
  KLEKeyboard.mk [sample_key; plain_key] 2 0 0%nat 3 0 19 [] (Some 0%Z).

(** A heap for [sample_keyboard]: object 0 is the running properties,
    objects 1 and 2 are the copies of the two keys. *)
Definition sample_heap : heap :=
  Heap (fun a =>
          if Nat.eqb a 1
          then KbProperties.init "#ffffff" "#000000" false None None 3 3 30 1 2
          else KbProperties.default)
       3%nat.
Definition sample_scan : KLEKeyboard.scan :=
  KLEKeyboard.Scan sample_heap sample_keyboard KeyProperties.default 2.

(** A keyboard with one unrotated key of unit size, as the layout
    [[["A"]]] gives. *)
Definition plain_keyboard : KLEKeyboard.t :=
  KLEKeyboard.mk [plain_key] 1 0 0%nat 0 1 19 [] (Some 0%Z).

(** A key whose only legend is in slot 1, as the text "\nB" gives. *)
Definition second_slot_key : KLEKey.t :=
  KLEKey.mk 0 0 1 1 19 false 1%nat 0 0 0
    (KLEKey.complete_legends
       (KLEKey.fill_legends (split newline (nl ++ "B"))
          (List.length KLEKey.LEGEND_MAP))).

(** The example layout after a metadata object, and what [from_json]
    makes of it. *)
Definition layout_with_meta : list json :=
  JDict [("name", JStr "demo"); ("author", JStr "kle")] :: layout_AB_C.
Definition parsed_with_meta : heap * KLEKeyboard.t :=
  value_or (empty_heap, plain_keyboard)
    (KLEKeyboard.from_json (I := plain_interp) empty_heap layout_with_meta 19).

(** [sample_keyboard] with some metadata. *)
Definition meta_keyboard : KLEKeyboard.t :=
  KLEKeyboard.with_metadata sample_keyboard
    [("name", JStr "demo"); ("author", JStr "kle")].

(** A key whose spacing is 0. *)
Definition zero_spacing_key : KLEKey.t := KLEKey.set_spacing sample_key 0.

(** A scan that goes on from [sample_scan]: an object that sets the angle
    and the profile, one more key in the row, then two rows, the second of
    which changes the keycap colour only, then the first key of a further
    row. *)
Definition sample_obj : list (string * json) :=
  [("r", JInt 15); ("p", JStr "DCS")].
Definition sample_items : list json := [JStr "X"].
Definition sample_rows : list json :=
  [ JList [JStr "Y"]; JList [JDict [("c", JStr "#cccccc")]; JStr "Z"] ].
Definition sample_scan_r : KLEKeyboard.scan :=
  value_or sample_scan
    (KLEKeyboard.item_step (I := plain_interp) sample_scan (JDict sample_obj)).
Definition sample_later : option (list json * list json) :=
  Some (sample_rows, [JStr "W"]).
Definition sample_scan_end : KLEKeyboard.scan :=
  value_or sample_scan_r
    (KLEKeyboard.scan_on (I := plain_interp) sample_scan_r
       sample_items sample_later).

(** Thirteen newline-separated segments, and twelve. *)
Definition thirteen_segments : string :=
  String.concat nl
    ["a"; "b"; "c"; "d"; "e"; "f"; "g"; "h"; "i"; "j"; "k"; "l"; "m"].
Definition twelve_segments : string :=
  String.concat nl
    ["a"; "b"; "c"; "d"; "e"; "f"; "g"; "h"; "i"; "j"; "k"; "l"].

(** * Properties *)

(** ** Complex arithmetic and rotation *)

Lemma complex_eq (a b : complex) :
  real a = real b -> imag a = imag b -> a = b.
Proof. destruct a, b; simpl; intros -> ->; reflexivity. Qed.

Lemma float_plus_j_eq (a b : R) : float_plus_j a b = Complex a b.
Proof. apply complex_eq; simpl; ring. Qed.

Lemma rotate_complex_eq (t : R) :
  rotate_complex t = Complex (cos t) (sin t).
Proof.
  unfold rotate_complex, cmath_exp; simpl.
  replace (t * 0 - 0 * 1) with 0 by ring.
  replace (t * 1 + 0 * 0) with t by ring.
  rewrite exp_0. apply complex_eq; simpl; ring.
Qed.

Lemma cos_sin_unit (t : R) : cos t * cos t + sin t * sin t = 1.
Proof. generalize (sin2_cos2 t); unfold Rsqr; lra. Qed.

(** Rotating by [-t] and then by [t] gives the vector back. *)
Lemma rotate_back_real (a b c s : R) :
  c * c + s * s = 1 ->
  (a * c - b * - s) * c - (a * - s + b * c) * s = a.
Proof.
  intros H. replace ((a * c - b * - s) * c - (a * - s + b * c) * s)
    with (a * (c * c + s * s)) by ring.
  rewrite H; ring.
Qed.

Lemma rotate_back_imag (a b c s : R) :
  c * c + s * s = 1 ->
  (a * c - b * - s) * s + (a * - s + b * c) * c = b.
Proof.
  intros H. replace ((a * c - b * - s) * s + (a * - s + b * c) * c)
    with (b * (c * c + s * s)) by ring.
  rewrite H; ring.
Qed.

(** Rotating by [t] and then by [-t] gives the vector back. *)
Lemma rotate_forth_real (a b c s : R) :
  c * c + s * s = 1 ->
  (a * c - b * s) * c - (a * s + b * c) * - s = a.
Proof.
  intros H. replace ((a * c - b * s) * c - (a * s + b * c) * - s)
    with (a * (c * c + s * s)) by ring.
  rewrite H; ring.
Qed.

Lemma rotate_forth_imag (a b c s : R) :
  c * c + s * s = 1 ->
  (a * c - b * s) * - s + (a * s + b * c) * c = b.
Proof.
  intros H. replace ((a * c - b * s) * - s + (a * s + b * c) * c)
    with (b * (c * c + s * s)) by ring.
  rewrite H; ring.
Qed.

(** ** Position of a key *)

Lemma get_pos_eq (k : KLEKey.t) :
  let c := cos (KLEKey.r_rad k) in
  let s := sin (KLEKey.r_rad k) in
  KLEKey.get_pos k =
  Point.mk
    (KLEKey._spacing k
     * (KLEKey._u_rx k + (KLEKey._u_x k * c - KLEKey._u_y k * s)))
    (KLEKey._spacing k
     * (KLEKey._u_ry k + (KLEKey._u_x k * s + KLEKey._u_y k * c))).
Proof.
  intros c s. unfold KLEKey.get_pos.
  rewrite !float_plus_j_eq, rotate_complex_eq. simpl.
  fold c s. f_equal; ring.
Qed.

Lemma set_pos_eq (k : KLEKey.t) (px py : R) :
  KLEKey._spacing k <> 0 ->
  let c := cos (KLEKey.r_rad k) in
  let s := sin (KLEKey.r_rad k) in
  let a := px / KLEKey._spacing k - KLEKey._u_rx k in
  let b := py / KLEKey._spacing k - KLEKey._u_ry k in
  KLEKey.set_pos k px py =
  Ok (KLEKey.with_u_pos k (a * c - b * - s) (a * - s + b * c)).
Proof.
  intros Hs c s a b. unfold KLEKey.set_pos, Point.truediv.
  destruct (Req_dec_T (KLEKey._spacing k) 0) as [E | _]; [contradiction |].
  unfold bind. rewrite float_plus_j_eq, rotate_complex_eq, cos_neg, sin_neg.
  reflexivity.
Qed.

Lemma set_pos_zero_spacing (k : KLEKey.t) (px py : R) :
  KLEKey._spacing k = 0 -> KLEKey.set_pos k px py = Raise ZeroDivisionError.
Proof.
  intros Hs. unfold KLEKey.set_pos, Point.truediv.
  destruct (Req_dec_T (KLEKey._spacing k) 0); [reflexivity | contradiction].
Qed.

(** [get_pos] after [set_pos] is the point that was set. *)
Lemma get_pos_set_pos (k k' : KLEKey.t) (px py : R) :
  KLEKey.set_pos k px py = Ok k' ->
  KLEKey.get_pos k' = Point.mk px py.
Proof.
  intros H.
  destruct (Req_dec_T (KLEKey._spacing k) 0) as [E | Hs].
  - rewrite (set_pos_zero_spacing k px py E) in H; discriminate.
  - rewrite (set_pos_eq k px py Hs) in H. injection H as <-.
    rewrite get_pos_eq. unfold KLEKey.r_rad; simpl.
    rewrite rotate_back_real, rotate_back_imag by apply cos_sin_unit.
    f_equal; field; exact Hs.
Qed.

(** [set_pos] at the current position stores the same unit coordinates. *)
Lemma set_pos_get_pos (k : KLEKey.t) :
  KLEKey._spacing k <> 0 ->
  KLEKey.set_pos k (Point.x (KLEKey.get_pos k)) (Point.y (KLEKey.get_pos k))
  = Ok k.
Proof.
  intros Hs. rewrite (set_pos_eq k _ _ Hs), get_pos_eq. simpl.
  destruct k as [ux uy uw uh sp d p r0 rx0 ry0 lg]; unfold KLEKey.with_u_pos;
    simpl in *.
  set (c := cos (KLEKey.r_rad _)). set (s := sin (KLEKey.r_rad _)).
  assert (Hcs : c * c + s * s = 1) by apply cos_sin_unit.
  replace (sp * (rx0 + (ux * c - uy * s)) / sp - rx0) with (ux * c - uy * s)
    by (field; exact Hs).
  replace (sp * (ry0 + (ux * s + uy * c)) / sp - ry0) with (ux * s + uy * c)
    by (field; exact Hs).
  rewrite rotate_forth_real, rotate_forth_imag by exact Hcs.
  reflexivity.
Qed.

(** ** Center of a key *)

Arguments KLEKey.get_pos : simpl never.
Arguments KLEKey.set_pos : simpl never.
Arguments KLEKey.half_diagonal : simpl never.
Arguments KLEKey.get_center : simpl never.
Arguments KLEKey.set_center : simpl never.
Arguments KLEKey.set_angle : simpl never.

Lemma set_pos_shape (k k' : KLEKey.t) (px py : R) :
  KLEKey.set_pos k px py = Ok k' ->
  exists ux uy, k' = KLEKey.with_u_pos k ux uy.
Proof.
  unfold KLEKey.set_pos, Point.truediv.
  destruct (Req_dec_T (KLEKey._spacing k) 0); [discriminate |].
  unfold bind. intros H; injection H as <-. eauto.
Qed.

Lemma set_pos_ok (k : KLEKey.t) (px py : R) :
  KLEKey._spacing k <> 0 -> exists k', KLEKey.set_pos k px py = Ok k'.
Proof. intros Hs. rewrite (set_pos_eq k px py Hs). eauto. Qed.

Lemma half_diagonal_with_u_pos (k : KLEKey.t) (ux uy : R) :
  KLEKey.half_diagonal (KLEKey.with_u_pos k ux uy) = KLEKey.half_diagonal k.
Proof. reflexivity. Qed.

Lemma get_center_eq (k : KLEKey.t) :
  KLEKey.get_center k =
  Point.mk (Point.x (KLEKey.get_pos k) + real (KLEKey.half_diagonal k))
           (Point.y (KLEKey.get_pos k) + imag (KLEKey.half_diagonal k)).
Proof.
  unfold KLEKey.get_center. rewrite float_plus_j_eq. reflexivity.
Qed.

Lemma set_center_eq (k : KLEKey.t) (cx cy : R) :
  KLEKey.set_center k cx cy =
  KLEKey.set_pos k (cx - real (KLEKey.half_diagonal k))
                   (cy - imag (KLEKey.half_diagonal k)).
Proof.
  unfold KLEKey.set_center. rewrite float_plus_j_eq. reflexivity.
Qed.

(** [get_center] after [set_center] is the point that was set. *)
Lemma get_center_set_center (k k' : KLEKey.t) (cx cy : R) :
  KLEKey.set_center k cx cy = Ok k' ->
  KLEKey.get_center k' = Point.mk cx cy.
Proof.
  rewrite set_center_eq. intros H.
  rewrite get_center_eq, (get_pos_set_pos _ _ _ _ H).
  destruct (set_pos_shape _ _ _ _ H) as (ux & uy & ->).
  rewrite half_diagonal_with_u_pos. cbn [Point.x Point.y]. f_equal; ring.
Qed.

(** [set_center] at the current center changes nothing. *)
Lemma set_center_get_center (k : KLEKey.t) :
  KLEKey._spacing k <> 0 ->
  KLEKey.set_center k (Point.x (KLEKey.get_center k))
                      (Point.y (KLEKey.get_center k)) = Ok k.
Proof.
  intros Hs. rewrite set_center_eq, get_center_eq. cbn [Point.x Point.y].
  replace (Point.x (KLEKey.get_pos k) + real (KLEKey.half_diagonal k)
           - real (KLEKey.half_diagonal k))
    with (Point.x (KLEKey.get_pos k)) by ring.
  replace (Point.y (KLEKey.get_pos k) + imag (KLEKey.half_diagonal k)
           - imag (KLEKey.half_diagonal k))
    with (Point.y (KLEKey.get_pos k)) by ring.
  apply set_pos_get_pos; exact Hs.
Qed.

Lemma set_center_ok (k : KLEKey.t) (cx cy : R) :
  KLEKey._spacing k <> 0 -> exists k', KLEKey.set_center k cx cy = Ok k'.
Proof. intros Hs. rewrite set_center_eq. apply set_pos_ok; exact Hs. Qed.

Lemma set_center_shape (k k' : KLEKey.t) (cx cy : R) :
  KLEKey.set_center k cx cy = Ok k' ->
  exists ux uy, k' = KLEKey.with_u_pos k ux uy.
Proof. rewrite set_center_eq. apply set_pos_shape. Qed.

(** [set_angle] stores the new angle and keeps the center. *)
Lemma set_angle_spec (k k' : KLEKey.t) (a : R) :
  KLEKey.set_angle k a = Ok k' ->
  KLEKey.get_center k' = KLEKey.get_center k
  /\ KLEKey._r k' = a
  /\ KLEKey._spacing k' = KLEKey._spacing k.
Proof.
  unfold KLEKey.set_angle. intros H.
  rewrite (get_center_set_center _ _ _ _ H).
  destruct (set_center_shape _ _ _ _ H) as (ux & uy & ->).
  destruct (KLEKey.get_center k); auto.
Qed.

Lemma set_angle_ok (k : KLEKey.t) (a : R) :
  KLEKey._spacing k <> 0 -> exists k', KLEKey.set_angle k a = Ok k'.
Proof. intros Hs. unfold KLEKey.set_angle. apply set_center_ok; exact Hs. Qed.

(** ** Mirroring *)

Lemma mirror_key_spec (m : Point.t) (key key' : KLEKey.t) :
  KLEKeyboard.mirror_key (Some m) key = Ok key' ->
  KLEKey.get_center key'
  = Point.mk (Point.x m * Point.x (KLEKey.get_center key))
             (Point.y m * Point.y (KLEKey.get_center key))
  /\ KLEKey._r key' = - KLEKey._r key
  /\ KLEKey._spacing key' = KLEKey._spacing key.
Proof.
  unfold KLEKeyboard.mirror_key.
  destruct (KLEKey.set_center key _ _) as [key1 | e] eqn:E1; [| discriminate].
  unfold bind. intros H.
  destruct (set_angle_spec _ _ _ H) as (Hc & Hr & Hs).
  rewrite Hc, Hr, Hs, (get_center_set_center _ _ _ _ E1).
  destruct (set_center_shape _ _ _ _ E1) as (ux & uy & ->).
  auto.
Qed.

Lemma mirror_key_ok (m : Point.t) (key : KLEKey.t) :
  KLEKey._spacing key <> 0 ->
  exists key', KLEKeyboard.mirror_key (Some m) key = Ok key'.
Proof.
  intros Hs. unfold KLEKeyboard.mirror_key.
  destruct (set_center_ok key
              (Point.x m * Point.x (KLEKey.get_center key))
              (Point.y m * Point.y (KLEKey.get_center key)) Hs)
    as (key1 & E1).
  rewrite E1. unfold bind.
  apply set_angle_ok.
  destruct (set_center_shape _ _ _ _ E1) as (ux & uy & ->). exact Hs.
Qed.

(** Mirroring one key twice about the same axis. *)
Lemma mirror_key_twice (m : Point.t) (key : KLEKey.t) :
  Point.x m * Point.x m = 1 -> Point.y m * Point.y m = 1 ->
  KLEKey._spacing key <> 0 ->
  exists key1 key2,
    KLEKeyboard.mirror_key (Some m) key = Ok key1
    /\ KLEKeyboard.mirror_key (Some m) key1 = Ok key2
    /\ KLEKey.get_center key2 = KLEKey.get_center key
    /\ KLEKey._r key2 = KLEKey._r key
    /\ KLEKey._spacing key1 <> 0.
Proof.
  intros Hx Hy Hs.
  destruct (mirror_key_ok m key Hs) as (key1 & E1).
  destruct (mirror_key_spec _ _ _ E1) as (Hc1 & Hr1 & Hs1).
  assert (Hs' : KLEKey._spacing key1 <> 0) by (rewrite Hs1; exact Hs).
  destruct (mirror_key_ok m key1 Hs') as (key2 & E2).
  destruct (mirror_key_spec _ _ _ E2) as (Hc2 & Hr2 & Hs2).
  exists key1, key2. repeat split; try assumption.
  - rewrite Hc2, Hc1. cbn [Point.x Point.y].
    destruct (KLEKey.get_center key) as [cx cy]; cbn [Point.x Point.y].
    f_equal.
    + replace (Point.x m * (Point.x m * cx)) with (Point.x m * Point.x m * cx)
        by ring.
      rewrite Hx; ring.
    + replace (Point.y m * (Point.y m * cy)) with (Point.y m * Point.y m * cy)
        by ring.
      rewrite Hy; ring.
  - rewrite Hr2, Hr1; ring.
Qed.

Lemma mirror_keys_twice (m : Point.t) (ks : list KLEKey.t) :
  Point.x m * Point.x m = 1 -> Point.y m * Point.y m = 1 ->
  Forall (fun key => KLEKey._spacing key <> 0) ks ->
  exists ks1 ks2,
    KLEKeyboard.mirror_keys (Some m) ks = Ok ks1
    /\ KLEKeyboard.mirror_keys (Some m) ks1 = Ok ks2
    /\ Forall2
         (fun key key2 =>
            KLEKey.get_center key2 = KLEKey.get_center key
            /\ KLEKey._r key2 = KLEKey._r key)
         ks ks2.
Proof.
  intros Hx Hy. induction 1 as [| key rest Hs _ IH].
  - exists [], []. simpl. auto.
  - destruct IH as (ks1 & ks2 & E1 & E2 & Hall).
    destruct (mirror_key_twice m key Hx Hy Hs)
      as (key1 & key2 & F1 & F2 & Hc & Hr & _).
    exists (key1 :: ks1), (key2 :: ks2).
    cbn [KLEKeyboard.mirror_keys]. rewrite F1, E1.
    cbn [bind KLEKeyboard.mirror_keys]. rewrite F2, E2.
    cbn [bind]. auto.
Qed.

(** C1: for every key (any angle, any rotation origin) with spacing > 0,
    [set_pos] succeeds at every target point and [get_pos] then returns that
    point, and [set_pos] at the current [get_pos] leaves the key, and so its
    stored unit coordinates, unchanged. *)
Theorem position_roundtrip (k : KLEKey.t) (px py : R) :
  0 < KLEKey._spacing k ->
  (exists k', KLEKey.set_pos k px py = Ok k'
              /\ KLEKey.get_pos k' = Point.mk px py)
  /\ KLEKey.set_pos k (Point.x (KLEKey.get_pos k))
                      (Point.y (KLEKey.get_pos k)) = Ok k.
Proof.
  intros Hpos. assert (Hs : KLEKey._spacing k <> 0) by lra. split.
  - destruct (set_pos_ok k px py Hs) as (k' & E).
    exists k'. split; [exact E | exact (get_pos_set_pos _ _ _ _ E)].
  - apply set_pos_get_pos; exact Hs.
Qed.

Lemma position_roundtrip_witness :
  0 < KLEKey._spacing sample_key
  /\ (exists k', KLEKey.set_pos sample_key 5 6 = Ok k'
                 /\ KLEKey.get_pos k' = Point.mk 5 6)
  /\ KLEKey.set_pos sample_key (Point.x (KLEKey.get_pos sample_key))
                               (Point.y (KLEKey.get_pos sample_key))
     = Ok sample_key.
Proof.
  assert (H : 0 < KLEKey._spacing sample_key) by (simpl; lra).
  split; [exact H | exact (position_roundtrip sample_key 5 6 H)].
Defined.

(** C5: for every key with a non-zero spacing, [set_center] at the current
    [get_center] leaves the key unchanged, and [set_angle] with any new angle
    succeeds, stores that angle and leaves [get_center] as it was. *)
Theorem center_preserved (k : KLEKey.t) :
  KLEKey._spacing k <> 0 ->
  KLEKey.set_center k (Point.x (KLEKey.get_center k))
                      (Point.y (KLEKey.get_center k)) = Ok k
  /\ forall a : R,
       exists k', KLEKey.set_angle k a = Ok k'
                  /\ KLEKey.get_center k' = KLEKey.get_center k
                  /\ KLEKey.r k' = a.
Proof.
  intros Hs. split.
  - apply set_center_get_center; exact Hs.
  - intros a. destruct (set_angle_ok k a Hs) as (k' & E).
    exists k'. destruct (set_angle_spec _ _ _ E) as (Hc & Hr & _).
    auto.
Qed.

Lemma center_preserved_witness :
  KLEKey.set_center sample_key (Point.x (KLEKey.get_center sample_key))
                               (Point.y (KLEKey.get_center sample_key))
  = Ok sample_key
  /\ forall a : R,
       exists k', KLEKey.set_angle sample_key a = Ok k'
                  /\ KLEKey.get_center k' = KLEKey.get_center sample_key
                  /\ KLEKey.r k' = a.
Proof.
  apply (center_preserved sample_key). simpl; lra.
Defined.

(** C4: on a keyboard whose keys all have a non-zero spacing, [mirror] about
    'x' or about 'y' succeeds twice in a row, and after the second call every
    key has the center and the angle it had before the first. *)
Theorem mirror_involution (kb : KLEKeyboard.t) (axis : string) :
  axis = "x" \/ axis = "y" ->
  Forall (fun key => KLEKey._spacing key <> 0) (KLEKeyboard.keys kb) ->
  exists kb1 kb2,
    KLEKeyboard.mirror kb axis = Ok kb1
    /\ KLEKeyboard.mirror kb1 axis = Ok kb2
    /\ Forall2
         (fun key key2 =>
            KLEKey.get_center key2 = KLEKey.get_center key
            /\ KLEKey.r key2 = KLEKey.r key)
         (KLEKeyboard.keys kb) (KLEKeyboard.keys kb2).
Proof.
  intros Haxis Hall. unfold KLEKeyboard.mirror, KLEKeyboard.get_keys.
  destruct Haxis as [-> | ->]; cbn [String.eqb Ascii.eqb Bool.eqb].
  - destruct (mirror_keys_twice (Point.mk (-1) 1) (KLEKeyboard.keys kb))
      as (ks1 & ks2 & E1 & E2 & H); [simpl; ring | simpl; ring | exact Hall |].
    exists (KLEKeyboard.with_keys kb ks1),
           (KLEKeyboard.with_keys (KLEKeyboard.with_keys kb ks1) ks2).
    rewrite E1. cbn [bind KLEKeyboard.with_keys KLEKeyboard.keys].
    rewrite E2. cbn [bind]. auto.
  - destruct (mirror_keys_twice (Point.mk 1 (-1)) (KLEKeyboard.keys kb))
      as (ks1 & ks2 & E1 & E2 & H); [simpl; ring | simpl; ring | exact Hall |].
    exists (KLEKeyboard.with_keys kb ks1),
           (KLEKeyboard.with_keys (KLEKeyboard.with_keys kb ks1) ks2).
    rewrite E1. cbn [bind KLEKeyboard.with_keys KLEKeyboard.keys].
    rewrite E2. cbn [bind]. auto.
Qed.

Lemma mirror_involution_witness :
  exists kb1 kb2,
    KLEKeyboard.mirror sample_keyboard "x" = Ok kb1
    /\ KLEKeyboard.mirror kb1 "x" = Ok kb2
    /\ Forall2
         (fun key key2 =>
            KLEKey.get_center key2 = KLEKey.get_center key
            /\ KLEKey.r key2 = KLEKey.r key)
         (KLEKeyboard.keys sample_keyboard) (KLEKeyboard.keys kb2).
Proof.
  apply (mirror_involution sample_keyboard "x").
  - left; reflexivity.
  - repeat constructor; simpl; lra.
Defined.

(** ** Bounding box *)

Lemma py_min_inf (a : R) : py_min PInf (Fin a) = Fin a.
Proof. reflexivity. Qed.

Lemma py_max_minf (a : R) : py_max (xneg PInf) (Fin a) = Fin a.
Proof. reflexivity. Qed.

Lemma py_min_fin (a b : R) : py_min (Fin a) (Fin b) = Fin (Rmin a b).
Proof.
  unfold py_min, xlt, Rmin.
  destruct (Rlt_dec b a), (Rle_dec a b); try reflexivity; f_equal; lra.
Qed.

Lemma py_max_fin (a b : R) : py_max (Fin a) (Fin b) = Fin (Rmax a b).
Proof.
  unfold py_max, xlt, Rmax.
  destruct (Rlt_dec a b), (Rle_dec a b); try reflexivity; f_equal; lra.
Qed.

(** The four corners are always there. *)
Lemma get_rect_points_four (k : KLEKey.t) :
  exists p0 p1 p2 p3, KLEKey.get_rect_points k = [p0; p1; p2; p3].
Proof. unfold KLEKey.get_rect_points. eauto 6. Qed.

Lemma min4_le (a b c d : R) :
  let m := Rmin (Rmin (Rmin a b) c) d in
  m <= a /\ m <= b /\ m <= c /\ m <= d.
Proof.
  intros m. subst m.
  pose proof (Rmin_l (Rmin (Rmin a b) c) d).
  pose proof (Rmin_r (Rmin (Rmin a b) c) d).
  pose proof (Rmin_l (Rmin a b) c). pose proof (Rmin_r (Rmin a b) c).
  pose proof (Rmin_l a b). pose proof (Rmin_r a b).
  repeat split; lra.
Qed.

Lemma max4_ge (a b c d : R) :
  let m := Rmax (Rmax (Rmax a b) c) d in
  a <= m /\ b <= m /\ c <= m /\ d <= m.
Proof.
  intros m. subst m.
  pose proof (Rmax_l (Rmax (Rmax a b) c) d).
  pose proof (Rmax_r (Rmax (Rmax a b) c) d).
  pose proof (Rmax_l (Rmax a b) c). pose proof (Rmax_r (Rmax a b) c).
  pose proof (Rmax_l a b). pose proof (Rmax_r a b).
  repeat split; lra.
Qed.

(** C9: for every key, [bounding_box] returns a rectangle of finite floats
    with w >= 0 and h >= 0 that contains each of the four points of
    [get_rect_points]. *)
Theorem bounding_box_contains (k : KLEKey.t) :
  exists bx by_ bw bh : R,
    KLEKey.bounding_box k = Rect.mk (Fin bx) (Fin by_) (Fin bw) (Fin bh)
    /\ 0 <= bw /\ 0 <= bh
    /\ List.length (KLEKey.get_rect_points k) = 4%nat
    /\ Forall
         (fun p => bx <= Point.x p <= bx + bw /\ by_ <= Point.y p <= by_ + bh)
         (KLEKey.get_rect_points k).
Proof.
  destruct (get_rect_points_four k) as (p0 & p1 & p2 & p3 & E).
  unfold KLEKey.bounding_box. rewrite E. cbn [fold_left].
  rewrite !py_min_inf, !py_max_minf, !py_min_fin, !py_max_fin.
  cbn [xsub].
  destruct (min4_le (Point.x p0) (Point.x p1) (Point.x p2) (Point.x p3))
    as (X0 & X1 & X2 & X3).
  destruct (min4_le (Point.y p0) (Point.y p1) (Point.y p2) (Point.y p3))
    as (Y0 & Y1 & Y2 & Y3).
  destruct (max4_ge (Point.x p0) (Point.x p1) (Point.x p2) (Point.x p3))
    as (U0 & U1 & U2 & U3).
  destruct (max4_ge (Point.y p0) (Point.y p1) (Point.y p2) (Point.y p3))
    as (V0 & V1 & V2 & V3).
  do 4 eexists. split; [reflexivity |].
  split; [lra |]. split; [lra |]. split; [reflexivity |].
  repeat (apply Forall_cons; [split; lra |]). apply Forall_nil.
Qed.

(** ** Unit position *)

(** C10: [set_u_pos] stores [ux] and [uy]; a zero passed for [r], [u_rx] or
    [u_ry] gives the same key as leaving that argument out, so the stored
    angle and rotation origin keep their previous values; a non-zero value
    overwrites the stored field. *)
Theorem set_u_pos_zero_is_absent (k : KLEKey.t) (ux uy v : R)
    (a b : option R) :
  v <> 0 ->
  KLEKey.set_u_pos k ux uy (Some 0) a b = KLEKey.set_u_pos k ux uy None a b
  /\ KLEKey.set_u_pos k ux uy a (Some 0) b = KLEKey.set_u_pos k ux uy a None b
  /\ KLEKey.set_u_pos k ux uy a b (Some 0) = KLEKey.set_u_pos k ux uy a b None
  /\ KLEKey._r (KLEKey.set_u_pos k ux uy (Some 0) a b) = KLEKey._r k
  /\ KLEKey._u_rx (KLEKey.set_u_pos k ux uy a (Some 0) b) = KLEKey._u_rx k
  /\ KLEKey._u_ry (KLEKey.set_u_pos k ux uy a b (Some 0)) = KLEKey._u_ry k
  /\ KLEKey._r (KLEKey.set_u_pos k ux uy (Some v) a b) = v
  /\ KLEKey._u_rx (KLEKey.set_u_pos k ux uy a (Some v) b) = v
  /\ KLEKey._u_ry (KLEKey.set_u_pos k ux uy a b (Some v)) = v
  /\ KLEKey.get_u_pos (KLEKey.set_u_pos k ux uy a b (Some v))
     = Point.mk ux uy.
Proof.
  intros Hv. unfold KLEKey.set_u_pos, KLEKey.assign_if_truthy.
  destruct (Req_dec_T 0 0) as [_ | N]; [| contradiction N; reflexivity].
  destruct (Req_dec_T v 0) as [E | _]; [contradiction |].
  repeat split;
    destruct a as [u | ]; destruct b as [u' | ];
    repeat match goal with
           | |- context [Req_dec_T ?z 0] => destruct (Req_dec_T z 0)
           end; reflexivity.
Qed.

Lemma set_u_pos_zero_is_absent_witness :
  KLEKey._r (KLEKey.set_u_pos sample_key 7 8 (Some 0) None None) = 30
  /\ KLEKey._r (KLEKey.set_u_pos sample_key 7 8 (Some 15) None None) = 15.
Proof.
  assert (H : 15 <> 0) by lra.
  destruct (set_u_pos_zero_is_absent sample_key 7 8 15 None None H)
    as (_ & _ & _ & Hr & _ & _ & Hv & _).
  split; [exact Hr | exact Hv].
Defined.

(** ** Dicts *)

Section DictFacts.
Context {K V : Type}.
Variable eqb : K -> K -> bool.
Hypothesis eqb_eq : forall a b, eqb a b = true <-> a = b.

Lemma eqb_refl_true (a : K) : eqb a a = true.
Proof. apply eqb_eq; reflexivity. Qed.

Lemma eqb_neq_false (a b : K) : a <> b -> eqb a b = false.
Proof.
  intros N. destruct (eqb a b) eqn:E; [| reflexivity].
  apply eqb_eq in E; contradiction.
Qed.

Lemma dict_get_set_same (d : dict (V := V)) (k : K) (v : V) :
  dict_get eqb (dict_set eqb d k v) k = Some v.
Proof.
  induction d as [| [k' v'] d IH]; simpl.
  - rewrite eqb_refl_true; reflexivity.
  - destruct (eqb k k') eqn:E; simpl; rewrite E; [reflexivity | exact IH].
Qed.

Lemma dict_get_set_other (d : dict (V := V)) (k j : K) (v : V) :
  j <> k -> dict_get eqb (dict_set eqb d k v) j = dict_get eqb d j.
Proof.
  intros N. induction d as [| [k' v'] d IH]; simpl.
  - rewrite (eqb_neq_false j k N); reflexivity.
  - destruct (eqb k k') eqn:E; simpl.
    + apply eqb_eq in E; subst k'.
      rewrite (eqb_neq_false j k N); reflexivity.
    + destruct (eqb j k'); [reflexivity | exact IH].
Qed.

(** Assigning [f key] for every key of a list, as a loop does. *)
Lemma dict_get_assign_all (f : K -> V) (l : list K) (d : dict (V := V))
    (j : K) :
  dict_get eqb (fold_left (fun d' key => dict_set eqb d' key (f key)) l d) j
  = if existsb (eqb j) l then Some (f j) else dict_get eqb d j.
Proof.
  revert d. induction l as [| k l IH]; intros d; simpl; [reflexivity |].
  rewrite IH. destruct (existsb (eqb j) l) eqn:El.
  - rewrite orb_true_r; reflexivity.
  - rewrite orb_false_r. destruct (eqb j k) eqn:E.
    + apply eqb_eq in E; subst k. apply dict_get_set_same.
    + apply dict_get_set_other. intros ->.
      rewrite eqb_refl_true in E; discriminate.
Qed.

Lemma dict_mem_keys (d : dict (V := V)) (k : K) :
  In k (dict_keys d) -> dict_mem eqb d k = true.
Proof.
  unfold dict_mem. induction d as [| [k' v'] d IH]; simpl; [tauto |].
  intros [-> | H].
  - rewrite eqb_refl_true; reflexivity.
  - destruct (eqb k k'); [reflexivity | exact (IH H)].
Qed.
End DictFacts.

(** ** Construction of a key *)

Lemma fill_legends_assign (legends : list string) (n : nat) :
  KLEKey.fill_legends legends n
  = fold_left
      (fun d key => dict_set Nat.eqb d key (nth key legends EmptyString))
      (seq 0 n) [].
Proof.
  unfold KLEKey.fill_legends. generalize (@nil (nat * string)).
  induction (seq 0 n) as [| key l IH]; intros d; simpl; [reflexivity |].
  destruct (Nat.ltb key (List.length legends)) eqn:E.
  - apply IH.
  - apply Nat.ltb_ge in E. rewrite (nth_overflow legends EmptyString E).
    apply IH.
Qed.

Lemma fill_legends_get (legends : list string) (n i : nat) :
  (i < n)%nat ->
  dict_get Nat.eqb (KLEKey.fill_legends legends n) i
  = Some (nth i legends EmptyString).
Proof.
  intros Hi. rewrite fill_legends_assign.
  rewrite (dict_get_assign_all Nat.eqb Nat.eqb_eq
             (fun key => nth key legends EmptyString)).
  replace (existsb (Nat.eqb i) (seq 0 n)) with true; [reflexivity |].
  symmetry. apply existsb_exists. exists i. split.
  - apply in_seq; lia.
  - apply Nat.eqb_refl.
Qed.

(** The second loop of the constructor never finds a missing key. *)
Lemma complete_legends_id (d : dict (K := nat) (V := string)) :
  KLEKey.complete_legends d = d.
Proof.
  unfold KLEKey.complete_legends.
  assert (H : forall ks d', (forall k, In k ks -> dict_mem Nat.eqb d' k = true) ->
            fold_left
              (fun d'' key =>
                 if negb (dict_mem Nat.eqb d'' key)
                 then dict_set Nat.eqb d'' key EmptyString
                 else d'') ks d' = d').
  { induction ks as [| k ks IH]; intros d' Hin; simpl; [reflexivity |].
    rewrite (Hin k (or_introl eq_refl)). simpl.
    apply IH. intros j Hj. apply Hin. right; exact Hj. }
  apply H. intros k Hk. apply (dict_mem_keys Nat.eqb Nat.eqb_eq); exact Hk.
Qed.

Lemma legend_slot_valid (i : nat) :
  (i < 12)%nat -> dict_mem Nat.eqb KLEKey.LEGEND_MAP i = true.
Proof.
  intros Hi. do 12 (destruct i as [| i]; [reflexivity |]). lia.
Qed.

(** More segments than slots: the constructor raises a plain [Exception]
    that carries a [KLEParseError] as its argument. *)
Lemma init_too_many (hp : heap) (ux uy uw uh : R) (text : string)
    (props : option ref) (decal0 : bool) (spacing0 : R) :
  (12 < List.length (split newline text))%nat ->
  KLEKey.init hp ux uy uw uh text props decal0 spacing0
  = Raise (KLEKey.too_many_legends (List.length (split newline text)) 12).
Proof.
  intros H. unfold KLEKey.init.
  destruct (match props with
            | Some p => copy_copy hp p
            | None => alloc hp KbProperties.default
            end) as [hp1 own].
  change (List.length KLEKey.LEGEND_MAP) with 12%nat.
  apply Nat.ltb_lt in H. rewrite H. reflexivity.
Qed.

(** At most twelve segments: the key is built and slot [i] holds segment
    [i], or the empty string when there is no such segment. *)
Lemma init_accepts (hp : heap) (ux uy uw uh : R) (text : string)
    (props : option ref) (decal0 : bool) (spacing0 : R) :
  (List.length (split newline text) <= 12)%nat ->
  exists hp1 k,
    KLEKey.init hp ux uy uw uh text props decal0 spacing0 = Ok (hp1, k)
    /\ forall i, (i < 12)%nat ->
         KLEKey.get_legend k i
         = Ok (nth i (split newline text) EmptyString).
Proof.
  intros H. unfold KLEKey.init.
  destruct (match props with
            | Some p => copy_copy hp p
            | None => alloc hp KbProperties.default
            end) as [hp1 own].
  change (List.length KLEKey.LEGEND_MAP) with 12%nat.
  apply Nat.ltb_ge in H. rewrite H.
  eexists _, _. split; [reflexivity |].
  intros i Hi. unfold KLEKey.get_legend.
  rewrite (legend_slot_valid i Hi). cbn [KLEKey._legends].
  rewrite complete_legends_id, (fill_legends_get _ 12 i Hi). reflexivity.
Qed.

Lemma split_twelve :
  split newline twelve_segments
  = ["a"; "b"; "c"; "d"; "e"; "f"; "g"; "h"; "i"; "j"; "k"; "l"].
Proof. reflexivity. Qed.

(** C6: on a text of thirteen segments the constructor raises
    [Exception(KLEParseError(...))], which is not an instance of
    [KLEParseError]; a text of twelve segments is accepted and every
    segment is read back by [get_legend] at its index. *)
Theorem legend_overflow_raises_plain_exception :
  KLEKey.init empty_heap 0 0 1 1 thirteen_segments None false 19
  = Raise (PyException
             (KLEParseError "Too many legends for key. Got 13, max is 12"))
  /\ is_KLEParseError
       (PyException
          (KLEParseError "Too many legends for key. Got 13, max is 12"))
     = false
  /\ exists hp1 k,
       KLEKey.init empty_heap 0 0 1 1 twelve_segments None false 19
       = Ok (hp1, k)
       /\ forall i, (i < 12)%nat ->
            KLEKey.get_legend k i
            = Ok (nth i ["a"; "b"; "c"; "d"; "e"; "f"; "g"; "h"; "i"; "j";
                         "k"; "l"] EmptyString).
Proof.
  split; [| split].
  - rewrite init_too_many; [reflexivity | vm_compute; lia].
  - reflexivity.
  - rewrite <- split_twelve. apply init_accepts. vm_compute; lia.
Qed.

(** ** Parsing *)

Ltac run := cbv -[Rplus Rmult Rminus Ropp IZR Rdiv Rinv].

(** C2: parsing [[["A","B"], [{"w":2}, "C"]]] gives exactly three keys, with
    legends A, B, C in this order; A and B have unit width 1 and C has unit
    width 2; the first row ends with the cursor at column 0 of line 1, so A
    is at unit position (0,0), B at (1,0) and C at (0,1). *)
Theorem from_json_example {I : Interp} (hp : heap) (s : R) :
  exists hp' kb kA kB kC,
    KLEKeyboard.from_json hp layout_AB_C s = Ok (hp', kb)
    /\ KLEKeyboard.keys kb = [kA; kB; kC]
    /\ KLEKey.get_legend kA 0 = Ok "A"
    /\ KLEKey.get_legend kB 0 = Ok "B"
    /\ KLEKey.get_legend kC 0 = Ok "C"
    /\ (exists st1,
          KLEKeyboard.row_step (KLEKeyboard.begin_scan hp s)
            (JList [JStr "A"; JStr "B"]) = Ok st1
          /\ KLEKeyboard.cur_x (KLEKeyboard.st_kb st1) = 0
          /\ KLEKeyboard.cur_y (KLEKeyboard.st_kb st1) = 1)
    /\ KLEKey.u_w kA = 1 /\ KLEKey.u_w kB = 1 /\ KLEKey.u_w kC = 2
    /\ KLEKey.get_u_pos kA = Point.mk 0 0
    /\ KLEKey.get_u_pos kB = Point.mk 1 0
    /\ KLEKey.get_u_pos kC = Point.mk 0 1.
Proof.
  do 5 eexists. split.
  { unfold KLEKeyboard.from_json, layout_AB_C. run. reflexivity. }
  do 4 (split; [reflexivity |]).
  split.
  { eexists. split; [run; reflexivity |]. run. split; lra. }
  run. repeat split; try lra; f_equal; lra.
Qed.

Lemma bind_ok_inv {A B : Type} (m : result A) (f : A -> result B) (b : B) :
  bind m f = Ok b -> exists a, m = Ok a /\ f a = Ok b.
Proof. destruct m as [a | e]; simpl; [eauto | discriminate]. Qed.

Lemma has_field_false (obj : list (string * json)) (k : string) :
  has_field obj k = false <-> field obj k = None.
Proof.
  unfold has_field, dict_mem, field.
  destruct (dict_get String.eqb obj k); split; intros; congruence.
Qed.

Lemma has_field_true (obj : list (string * json)) (k : string) :
  has_field obj k = true <-> exists v, field obj k = Some v.
Proof.
  unfold has_field, dict_mem, field.
  destruct (dict_get String.eqb obj k) as [v | ]; split; intros H.
  - exists v; reflexivity.
  - reflexivity.
  - discriminate.
  - destruct H as (v & H); discriminate.
Qed.

(** What one item of a row does, case by case. *)
Lemma item_step_dict_inv {I : Interp} (st st' : KLEKeyboard.scan)
    (obj : list (string * json)) :
  KLEKeyboard.item_step st (JDict obj) = Ok st' ->
  exists props updated,
    KeyProperties.from_json obj = Ok props
    /\ KbProperties.update (running st) obj = Ok updated
    /\ KLEKeyboard.st_heap st'
       = write (KLEKeyboard.st_heap st)
               (KLEKeyboard.global_props (KLEKeyboard.st_kb st)) updated
    /\ KLEKeyboard.st_props st' = props
    /\ KLEKeyboard.st_kb st'
       = (let kb := KLEKeyboard.st_kb st in
          let kb := if has_field obj "rx"
                    then KLEKeyboard.with_cur_x kb 0 else kb in
          if has_field obj "ry" then KLEKeyboard.with_cur_y kb 0 else kb).
Proof.
  cbn [KLEKeyboard.item_step]. intros H.
  apply bind_ok_inv in H. destruct H as (props & Hp & H).
  apply bind_ok_inv in H. destruct H as (updated & Hu & H).
  injection H as <-. exists props, updated. auto.
Qed.

Lemma init_copy_inv (hp hp1 : heap) (ux uy uw uh : R) (text : string)
    (gp : ref) (decal0 : bool) (spacing0 : R) (k : KLEKey.t) :
  KLEKey.init hp ux uy uw uh text (Some gp) decal0 spacing0 = Ok (hp1, k) ->
  hp1 = fst (copy_copy hp gp)
  /\ KLEKey.properties k = next hp
  /\ snapshot hp1 k = cell hp gp
  /\ captured hp1 k
  /\ KLEKey._u_x k = ux * 1 /\ KLEKey._u_y k = uy * 1
  /\ KLEKey._u_w k = uw * 1 /\ KLEKey._u_h k = uh * 1
  /\ KLEKey._spacing k = spacing0.
Proof.
  unfold KLEKey.init, copy_copy, alloc.
  destruct (Nat.ltb _ _); [discriminate |].
  intros H; injection H as <- <-.
  unfold captured, snapshot; cbn [fst KLEKey.properties cell KLEKey._r
    KLEKey._u_rx KLEKey._u_ry KLEKey._u_x KLEKey._u_y KLEKey._u_w KLEKey._u_h
    KLEKey._spacing].
  rewrite Nat.eqb_refl. repeat split; reflexivity.
Qed.

Lemma item_step_str_inv {I : Interp} (st st' : KLEKeyboard.scan)
    (text : string) :
  KLEKeyboard.item_step st (JStr text) = Ok st' ->
  exists k,
    KLEKeyboard.keys (KLEKeyboard.st_kb st')
    = (KLEKeyboard.keys (KLEKeyboard.st_kb st) ++ [k])%list
    /\ KLEKeyboard.global_props (KLEKeyboard.st_kb st')
       = KLEKeyboard.global_props (KLEKeyboard.st_kb st)
    /\ KLEKeyboard.st_heap st'
       = fst (copy_copy (KLEKeyboard.st_heap st)
                (KLEKeyboard.global_props (KLEKeyboard.st_kb st)))
    /\ KLEKey.properties k = next (KLEKeyboard.st_heap st)
    /\ snapshot (KLEKeyboard.st_heap st') k = running st
    /\ captured (KLEKeyboard.st_heap st') k
    /\ KLEKey._u_x k
       = (KLEKeyboard.cur_x (KLEKeyboard.st_kb st)
          + KeyProperties.x (KLEKeyboard.st_props st)) * 1
    /\ KLEKey._u_y k
       = (KLEKeyboard.cur_y (KLEKeyboard.st_kb st)
          + KeyProperties.y (KLEKeyboard.st_props st)) * 1
    /\ KLEKeyboard.st_props st' = KeyProperties.default.
Proof.
  cbn [KLEKeyboard.item_step]. unfold KLEKeyboard.add_key. intros H.
  apply bind_ok_inv in H. destruct H as ([hp1 kb1] & H1 & H).
  injection H as <-.
  apply bind_ok_inv in H1. destruct H1 as ([hp2 k] & Hk & H1).
  injection H1 as <- <-.
  apply init_copy_inv in Hk.
  destruct Hk as (Hhp & Hp & Hsnap & Hcap & Hx & Hy & _).
  exists k.
  split; [reflexivity |]. split; [reflexivity |]. split; [exact Hhp |].
  split; [exact Hp |]. split; [exact Hsnap |]. split; [exact Hcap |].
  split; [exact Hx |]. split; [exact Hy | reflexivity].
Qed.

Lemma item_step_other {I : Interp} (st : KLEKeyboard.scan) (item : json) :
  (forall text, item <> JStr text) -> (forall obj, item <> JDict obj) ->
  KLEKeyboard.item_step st item = Ok st.
Proof.
  intros Hs Hd. destruct item; try reflexivity.
  - destruct (Hs s); reflexivity.
  - destruct (Hd fields); reflexivity.
Qed.

(** C7: an object item with the field 'rx' leaves the column cursor at 0,
    so the next key of the row is placed at its own x offset counted from
    column 0; an object item with the field 'ry' leaves the vertical cursor
    at 0; without 'rx' the column cursor keeps its value, and without 'ry'
    the vertical cursor keeps its value. *)
Theorem origin_resets_cursor {I : Interp} (st st' : KLEKeyboard.scan)
    (obj : list (string * json)) :
  KLEKeyboard.item_step st (JDict obj) = Ok st' ->
  (has_field obj "rx" = true ->
   KLEKeyboard.cur_x (KLEKeyboard.st_kb st') = 0
   /\ forall text st'',
        KLEKeyboard.item_step st' (JStr text) = Ok st'' ->
        exists k,
          KLEKeyboard.keys (KLEKeyboard.st_kb st'')
          = (KLEKeyboard.keys (KLEKeyboard.st_kb st') ++ [k])%list
          /\ KLEKey._u_x k = KeyProperties.x (KLEKeyboard.st_props st'))
  /\ (has_field obj "rx" = false ->
      KLEKeyboard.cur_x (KLEKeyboard.st_kb st')
      = KLEKeyboard.cur_x (KLEKeyboard.st_kb st))
  /\ (has_field obj "ry" = true ->
      KLEKeyboard.cur_y (KLEKeyboard.st_kb st') = 0)
  /\ (has_field obj "ry" = false ->
      KLEKeyboard.cur_y (KLEKeyboard.st_kb st')
      = KLEKeyboard.cur_y (KLEKeyboard.st_kb st)).
Proof.
  intros H. destruct (item_step_dict_inv _ _ _ H)
    as (props & updated & _ & _ & _ & _ & Hkb).
  assert (Hx : has_field obj "rx" = true ->
               KLEKeyboard.cur_x (KLEKeyboard.st_kb st') = 0).
  { intros E. rewrite Hkb, E. cbn zeta.
    destruct (has_field obj "ry"); reflexivity. }
  split; [| split; [| split]].
  - intros E. split; [exact (Hx E) |].
    intros text st'' H2.
    destruct (item_step_str_inv _ _ _ H2) as (k & Hk & _ & _ & _ & _ & _ & Hux & _).
    exists k. split; [exact Hk |]. rewrite Hux, (Hx E). ring.
  - intros E. rewrite Hkb, E. cbn zeta.
    destruct (has_field obj "ry"); reflexivity.
  - intros E. rewrite Hkb, E. cbn zeta.
    destruct (has_field obj "rx"); reflexivity.
  - intros E. rewrite Hkb, E. cbn zeta.
    destruct (has_field obj "rx"); reflexivity.
Qed.

Lemma origin_resets_cursor_witness :
  exists st',
    KLEKeyboard.item_step (I := plain_interp) sample_scan
      (JDict [("rx", JInt 1); ("x", JFloat (1 / 2))]) = Ok st'
    /\ KLEKeyboard.cur_x (KLEKeyboard.st_kb sample_scan) = 3
    /\ KLEKeyboard.cur_x (KLEKeyboard.st_kb st') = 0
    /\ KLEKeyboard.cur_y (KLEKeyboard.st_kb st')
       = KLEKeyboard.cur_y (KLEKeyboard.st_kb sample_scan).
Proof.
  eexists. split; [run; reflexivity |].
  split; [reflexivity |].
  match goal with
  | |- KLEKeyboard.cur_x (KLEKeyboard.st_kb ?s) = _ /\ _ =>
      destruct (origin_resets_cursor (I := plain_interp) sample_scan s
                  [("rx", JInt 1); ("x", JFloat (1 / 2))])
        as (Hrx & _ & _ & Hry); [run; reflexivity |]
  end.
  split; [exact (proj1 (Hrx eq_refl)) | exact (Hry eq_refl)].
Defined.

(** ** Persistent style fields *)

Lemma agree_refl (f : style_field) (p : KbProperties.t) : agree f p p.
Proof. destruct f; reflexivity. Qed.

Lemma agree_trans (f : style_field) (p q r : KbProperties.t) :
  agree f p q -> agree f q r -> agree f p r.
Proof. destruct f; simpl; congruence. Qed.

(** A conditional assignment of [update] leaves every other field alone. *)
Lemma when_field_keeps {I : Interp} {A B : Type} (proj : KbProperties.t -> B)
    (obj : list (string * json)) (k : string) (conv : json -> result A)
    (assign : KbProperties.t -> A -> KbProperties.t)
    (p q : KbProperties.t) :
  KbProperties.when_field obj k conv assign p = Ok q ->
  (forall p' a, proj (assign p' a) = proj p') ->
  proj q = proj p.
Proof.
  intros H Hkeep. revert H. unfold KbProperties.when_field.
  destruct (field obj k) as [v | ].
  - destruct (conv v) as [a | e]; simpl; [| discriminate].
    intros H; injection H as <-. apply Hkeep.
  - intros H; injection H as <-. reflexivity.
Qed.

Lemma when_field_agree {I : Interp} {A : Type} (f : style_field)
    (obj : list (string * json)) (k : string) (conv : json -> result A)
    (assign : KbProperties.t -> A -> KbProperties.t)
    (p q : KbProperties.t) :
  (forall p' a, field_name f <> k -> agree f (assign p' a) p') ->
  has_field obj (field_name f) = false ->
  KbProperties.when_field obj k conv assign p = Ok q ->
  agree f q p.
Proof.
  intros Hother Hq. unfold KbProperties.when_field.
  destruct (field obj k) as [v | ] eqn:E.
  - destruct (conv v) as [a | e]; simpl; [| discriminate].
    intros H; injection H as <-. apply Hother.
    intros Heq. apply has_field_false in Hq. congruence.
  - intros H; injection H as <-. apply agree_refl.
Qed.

Ltac split_update H :=
  unfold KbProperties.update in H;
  repeat (apply bind_ok_inv in H;
          let p := fresh "p" in
          let Hp := fresh "Hp" in
          destruct H as (p & Hp & H)).

(** [update] with an object that lacks the JSON name of [f] keeps [f]. *)
Lemma update_agree {I : Interp} (f : style_field) (p q : KbProperties.t)
    (obj : list (string * json)) :
  KbProperties.update p obj = Ok q ->
  has_field obj (field_name f) = false ->
  agree f q p.
Proof.
  intros H Hq. split_update H.
  repeat (eapply agree_trans;
          [ eapply when_field_agree; [ | exact Hq | eassumption ];
            intros ? ? N; destruct f; try reflexivity;
            contradiction N; reflexivity
          | ]).
  apply agree_refl.
Qed.

Lemma when_field_sets {I : Interp} {A : Type} (obj : list (string * json))
    (k : string) (conv : json -> result A)
    (assign : KbProperties.t -> A -> KbProperties.t)
    (p q : KbProperties.t) (v : json) :
  KbProperties.when_field obj k conv assign p = Ok q ->
  field obj k = Some v ->
  exists a, conv v = Ok a /\ q = assign p a.
Proof.
  unfold KbProperties.when_field. intros H Hv. rewrite Hv in H.
  destruct (conv v) as [a | e]; simpl in H; [| discriminate].
  injection H as <-. eauto.
Qed.

(** Follow field [proj] back from the result of [update] to the assignment
    that set it. *)
Ltac stored_in proj :=
  repeat match goal with
         | Hs : KbProperties.when_field _ _ _ _ _ = Ok _ |- _ =>
             rewrite (when_field_keeps proj _ _ _ _ _ _ Hs
                        (fun _ _ => eq_refl))
         end;
  match goal with
  | Hv : field _ _ = Some _,
    Hs : KbProperties.when_field _ _ _ _ _ = Ok _ |- _ =>
      let a := fresh "a" in
      let Ha := fresh "Ha" in
      let E := fresh "E" in
      destruct (when_field_sets _ _ _ _ _ _ _ Hs Hv) as (a & Ha & E);
      rewrite E; cbn
  end.

(** [update] with an object that has the JSON name of [f] stores the
    converted value in [f], whichever of the ten fields [f] is: the
    assignments that follow in [update] are to other fields. *)
Lemma update_stores {I : Interp} (f : style_field) (p q : KbProperties.t)
    (obj : list (string * json)) (v : json) :
  KbProperties.update p obj = Ok q ->
  field obj (field_name f) = Some v ->
  stores f v q.
Proof.
  intros H Hv. split_update H.
  destruct f; cbn [field_name] in Hv; cbn [stores].
  - stored_in KbProperties.bg. congruence.
  - stored_in KbProperties.fg. congruence.
  - stored_in KbProperties.ghosted. congruence.
  - assert (G : exists n, py_int v = Ok n
                          /\ Some n = KbProperties.text_alignment q).
    { stored_in KbProperties.text_alignment. eauto. }
    destruct G as (n & G1 & G2). eauto.
  - assert (G : Ok (KbProperties.font_primary q) = py_int v).
    { stored_in KbProperties.font_primary. congruence. }
    congruence.
  - assert (G : Ok (KbProperties.font_secondary q) = py_int v).
    { stored_in KbProperties.font_secondary. congruence. }
    congruence.
  - stored_in KbProperties.profile. congruence.
  - assert (G : Ok (KbProperties.r q) = py_float v).
    { stored_in KbProperties.r. congruence. }
    congruence.
  - assert (G : Ok (KbProperties.rx q) = py_float v).
    { stored_in KbProperties.rx. congruence. }
    congruence.
  - assert (G : Ok (KbProperties.ry q) = py_float v).
    { stored_in KbProperties.ry. congruence. }
    congruence.
Qed.

(** What a field stores goes with the field's value. *)
Lemma stores_agree {I : Interp} (f : style_field) (v : json)
    (p q : KbProperties.t) :
  agree f p q -> stores f v q -> stores f v p.
Proof.
  destruct f; cbn [agree stores]; intros E H;
    try (rewrite E; exact H).
Qed.

(** ** Keys never share the keyboard's properties object *)

Lemma evolves_same_objects (f : style_field) (Q : Prop)
    (st st' : KLEKeyboard.scan) :
  wf st ->
  KLEKeyboard.st_heap st' = KLEKeyboard.st_heap st ->
  KLEKeyboard.keys (KLEKeyboard.st_kb st')
  = KLEKeyboard.keys (KLEKeyboard.st_kb st) ->
  KLEKeyboard.global_props (KLEKeyboard.st_kb st')
  = KLEKeyboard.global_props (KLEKeyboard.st_kb st) ->
  evolves f Q st st'.
Proof.
  intros Hwf Hh Hk Hg. unfold evolves, wf, running in *.
  rewrite Hh, Hk, Hg.
  split; [exact Hwf |]. split; [reflexivity |]. split; [lia |].
  split; [reflexivity |]. split; [intros _; apply agree_refl |].
  exists []. split; [rewrite app_nil_r; reflexivity | constructor].
Qed.

Lemma evolves_refl (f : style_field) (Q : Prop) (st : KLEKeyboard.scan) :
  wf st -> evolves f Q st st.
Proof. intros Hwf. apply evolves_same_objects; auto. Qed.

Lemma evolves_weaken (f : style_field) (Q Q' : Prop)
    (st st' : KLEKeyboard.scan) :
  (Q' -> Q) -> evolves f Q st st' -> evolves f Q' st st'.
Proof.
  intros HQ (Hwf & Hg & Hn & Hfr & Hrun & new & Hk & Hnew).
  repeat (split; [assumption |]).
  split; [auto |]. exists new. split; [exact Hk |].
  eapply Forall_impl; [| exact Hnew].
  intros k (H1 & H2 & H3). auto.
Qed.

Lemma evolves_wf (f : style_field) (Q : Prop) (st st' : KLEKeyboard.scan) :
  evolves f Q st st' -> wf st'.
Proof. intros H; apply H. Qed.

Lemma evolves_trans (f : style_field) (Q : Prop)
    (st st1 st2 : KLEKeyboard.scan) :
  evolves f Q st st1 -> evolves f Q st1 st2 -> evolves f Q st st2.
Proof.
  intros (Hwf1 & Hg1 & Hn1 & Hfr1 & Hrun1 & new1 & Hk1 & Hnew1)
         (Hwf2 & Hg2 & Hn2 & Hfr2 & Hrun2 & new2 & Hk2 & Hnew2).
  split; [exact Hwf2 |]. split; [congruence |]. split; [lia |].
  split.
  { intros a Ha Hag. rewrite Hfr2, Hfr1; auto; [lia | congruence]. }
  split.
  { intros q. eapply agree_trans; [apply Hrun2 | apply Hrun1]; exact q. }
  exists (new1 ++ new2)%list. split.
  { rewrite Hk2, Hk1, app_assoc. reflexivity. }
  apply Forall_app. split.
  - destruct Hwf1 as (_ & Hkeys1). rewrite Hk1 in Hkeys1.
    apply Forall_app in Hkeys1. destruct Hkeys1 as (_ & Hkeys1).
    rewrite Forall_forall in *. intros k Hin.
    destruct (Hnew1 k Hin) as (Hlo & Hcap & Hag).
    destruct (Hkeys1 k Hin) as (Hlt & Hne).
    assert (E : snapshot (KLEKeyboard.st_heap st2) k
                = snapshot (KLEKeyboard.st_heap st1) k).
    { unfold snapshot. apply Hfr2; assumption. }
    split; [exact Hlo |]. unfold captured. rewrite E. auto.
  - eapply Forall_impl; [| exact Hnew2].
    intros k (Hlo & Hcap & Hag). split; [lia |]. split; [exact Hcap |].
    intros q. eapply agree_trans; [apply Hag | apply Hrun1]; exact q.
Qed.

Lemma write_same (hp : heap) (a : ref) (p : KbProperties.t) :
  cell (write hp a p) a = p.
Proof. simpl. rewrite Nat.eqb_refl. reflexivity. Qed.

Lemma write_other (hp : heap) (a b : ref) (p : KbProperties.t) :
  b <> a -> cell (write hp a p) b = cell hp b.
Proof.
  intros N. simpl. apply Nat.eqb_neq in N. rewrite N. reflexivity.
Qed.

Lemma copy_other (hp : heap) (a b : ref) :
  b <> next hp -> cell (fst (copy_copy hp a)) b = cell hp b.
Proof.
  intros N. simpl. apply Nat.eqb_neq in N. rewrite N. reflexivity.
Qed.

Lemma dict_step_keeps_keys {I : Interp} (st st' : KLEKeyboard.scan)
    (obj : list (string * json)) :
  KLEKeyboard.item_step st (JDict obj) = Ok st' ->
  KLEKeyboard.keys (KLEKeyboard.st_kb st')
  = KLEKeyboard.keys (KLEKeyboard.st_kb st)
  /\ KLEKeyboard.global_props (KLEKeyboard.st_kb st')
     = KLEKeyboard.global_props (KLEKeyboard.st_kb st)
  /\ next (KLEKeyboard.st_heap st') = next (KLEKeyboard.st_heap st).
Proof.
  intros H. destruct (item_step_dict_inv _ _ _ H)
    as (props & updated & _ & _ & Hh & _ & Hkb).
  rewrite Hkb, Hh. cbn zeta.
  destruct (has_field obj "rx"), (has_field obj "ry"); auto.
Qed.

(** One item of a row. *)
Lemma item_step_evolves {I : Interp} (f : style_field)
    (st st' : KLEKeyboard.scan) (item : json) :
  wf st ->
  KLEKeyboard.item_step st item = Ok st' ->
  evolves f (sets_field f item = false) st st'.
Proof.
  intros Hwf H.
  assert (Hsame : st' = st -> evolves f (sets_field f item = false) st st')
    by (intros ->; apply evolves_refl; exact Hwf).
  destruct item; try (apply Hsame; injection H as <-; reflexivity).
  - (* a legend: one new key with a fresh copy *)
    destruct (item_step_str_inv _ _ _ H)
      as (k & Hk & Hg & Hh & Hp & Hsnap & Hcap & _).
    destruct Hwf as (Hgl & Hkeys).
    assert (Hnext : next (KLEKeyboard.st_heap st')
                    = S (next (KLEKeyboard.st_heap st)))
      by (rewrite Hh; reflexivity).
    assert (Hfr : forall a, (a < next (KLEKeyboard.st_heap st))%nat ->
                  cell (KLEKeyboard.st_heap st') a
                  = cell (KLEKeyboard.st_heap st) a).
    { intros a Ha. rewrite Hh. apply copy_other. lia. }
    split.
    { split; [rewrite Hg, Hnext; lia |].
      rewrite Hk, Hg, Hnext. apply Forall_app. split.
      - eapply Forall_impl; [| exact Hkeys]. intros k0 (H1 & H2).
        split; [lia | exact H2].
      - constructor; [| constructor]. rewrite Hp. split; lia. }
    split; [exact Hg |]. split; [lia |].
    split; [intros a Ha _; apply Hfr; exact Ha |].
    split.
    { intros _. unfold running. rewrite Hg, Hfr by exact Hgl.
      apply agree_refl. }
    exists [k]. split; [exact Hk |].
    constructor; [| constructor].
    split; [lia |]. split; [exact Hcap |].
    intros _. rewrite Hsnap. apply agree_refl.
  - (* an object: the running properties are updated in place *)
    destruct (item_step_dict_inv _ _ _ H)
      as (props & updated & _ & Hu & Hh & _ & _).
    destruct (dict_step_keeps_keys _ _ _ H) as (Hk & Hg & Hn).
    destruct Hwf as (Hgl & Hkeys).
    split.
    { split; [rewrite Hg, Hn; exact Hgl |].
      rewrite Hk, Hg, Hn. exact Hkeys. }
    split; [exact Hg |]. split; [lia |].
    split; [intros a _ Ha; rewrite Hh; apply write_other; exact Ha |].
    split.
    { intros Hq. unfold running at 1. rewrite Hg, Hh, write_same.
      exact (update_agree f _ _ _ Hu Hq). }
    exists []. split; [rewrite app_nil_r; exact Hk | constructor].
Qed.

Lemma quiet_items_cons (f : style_field) (item : json) (rest : list json) :
  quiet_items f (item :: rest) = true ->
  sets_field f item = false /\ quiet_items f rest = true.
Proof.
  unfold quiet_items; simpl. intros H. apply andb_prop in H.
  destruct H as (H1 & H2). split; [| exact H2].
  destruct (sets_field f item); [discriminate | reflexivity].
Qed.

(** The items of a row. *)
Lemma scan_items_evolves {I : Interp} (f : style_field) (items : list json) :
  forall st st',
    wf st ->
    KLEKeyboard.scan_items st items = Ok st' ->
    evolves f (quiet_items f items = true) st st'.
Proof.
  induction items as [| item rest IH]; intros st st' Hwf H.
  - injection H as <-. apply evolves_refl; exact Hwf.
  - cbn [KLEKeyboard.scan_items] in H.
    apply bind_ok_inv in H. destruct H as (st1 & H1 & H2).
    pose proof (item_step_evolves f _ _ _ Hwf H1) as E1.
    pose proof (IH _ _ (evolves_wf _ _ _ _ E1) H2) as E2.
    eapply evolves_trans.
    + eapply evolves_weaken; [| exact E1].
      intros q. apply (quiet_items_cons _ _ _ q).
    + eapply evolves_weaken; [| exact E2].
      intros q. apply (quiet_items_cons _ _ _ q).
Qed.

Lemma quiet_legends (f : style_field) (texts : list string) :
  quiet_items f (map JStr texts) = true.
Proof. induction texts; simpl; auto. Qed.

(** One row, with the [add_row] that ends it. *)
Lemma row_step_evolves {I : Interp} (f : style_field)
    (st st' : KLEKeyboard.scan) (row0 : json) :
  wf st ->
  KLEKeyboard.row_step st row0 = Ok st' ->
  evolves f (quiet_row f row0 = true) st st'.
Proof.
  intros Hwf H.
  assert (Hrow : forall items,
            KLEKeyboard.iterate row0 = Ok items ->
            (quiet_row f row0 = true -> quiet_items f items = true) ->
            (items <- KLEKeyboard.iterate row0 ;;
             st1 <- KLEKeyboard.scan_items st items ;;
             Ok (KLEKeyboard.Scan (KLEKeyboard.st_heap st1)
                   (KLEKeyboard.add_row (KLEKeyboard.st_kb st1))
                   (KLEKeyboard.st_props st1) (KLEKeyboard.st_pos st1)))
            = Ok st' ->
            evolves f (quiet_row f row0 = true) st st').
  { intros items Hit Hq H'. rewrite Hit in H'. cbn [bind] in H'.
    apply bind_ok_inv in H'. destruct H' as (st1 & H1 & H2).
    injection H2 as <-.
    pose proof (scan_items_evolves f items _ _ Hwf H1) as E1.
    eapply evolves_trans.
    - eapply evolves_weaken; [exact Hq | exact E1].
    - apply evolves_same_objects; [exact (evolves_wf _ _ _ _ E1) | | |];
        reflexivity. }
  destruct row0; try discriminate H.
  - (* a string row: one key per character *)
    eapply Hrow; [reflexivity | | exact H].
    intros _. rewrite <- map_map with (f := fun c => String c EmptyString).
    apply quiet_legends.
  - (* an array row *)
    eapply Hrow; [reflexivity | | exact H]. intros q; exact q.
  - (* a metadata object *)
    injection H as <-. apply evolves_same_objects; [exact Hwf | | |];
      reflexivity.
Qed.

Lemma scan_rows_evolves {I : Interp} (f : style_field) (rows : list json) :
  forall st st',
    wf st ->
    KLEKeyboard.scan_rows st rows = Ok st' ->
    evolves f (quiet_rows f rows = true) st st'.
Proof.
  induction rows as [| row0 rest IH]; intros st st' Hwf H.
  - injection H as <-. apply evolves_refl; exact Hwf.
  - cbn [KLEKeyboard.scan_rows] in H.
    apply bind_ok_inv in H. destruct H as (st1 & H1 & H2).
    pose proof (row_step_evolves f _ _ _ Hwf H1) as E1.
    pose proof (IH _ _ (evolves_wf _ _ _ _ E1) H2) as E2.
    eapply evolves_trans.
    + eapply evolves_weaken; [| exact E1].
      unfold quiet_rows; simpl. intros q. apply andb_prop in q. apply q.
    + eapply evolves_weaken; [| exact E2].
      unfold quiet_rows; simpl. intros q. apply andb_prop in q. apply q.
Qed.

Lemma scan_on_evolves {I : Interp} (f : style_field)
    (st st' : KLEKeyboard.scan) (items : list json)
    (later : option (list json * list json)) :
  wf st ->
  KLEKeyboard.scan_on st items later = Ok st' ->
  evolves f (quiet_on f items later = true) st st'.
Proof.
  intros Hwf H. unfold KLEKeyboard.scan_on in H.
  apply bind_ok_inv in H. destruct H as (st1 & H1 & H2).
  pose proof (scan_items_evolves f items _ _ Hwf H1) as E1.
  assert (Hq1 : quiet_on f items later = true -> quiet_items f items = true).
  { unfold quiet_on. intros q. apply andb_prop in q. apply q. }
  destruct later as [[rows more] | ].
  - apply bind_ok_inv in H2. destruct H2 as (st2 & H2 & H3).
    assert (E1' : evolves f (quiet_items f items = true) st
                    (KLEKeyboard.Scan (KLEKeyboard.st_heap st1)
                       (KLEKeyboard.add_row (KLEKeyboard.st_kb st1))
                       (KLEKeyboard.st_props st1) (KLEKeyboard.st_pos st1))).
    { eapply evolves_trans; [exact E1 |].
      apply evolves_same_objects; [exact (evolves_wf _ _ _ _ E1) | | |];
        reflexivity. }
    pose proof (scan_rows_evolves f rows _ _ (evolves_wf _ _ _ _ E1') H2)
      as E2.
    pose proof (scan_items_evolves f more _ _ (evolves_wf _ _ _ _ E2) H3)
      as E3.
    assert (Hq2 : quiet_on f items (Some (rows, more)) = true ->
                  quiet_rows f rows = true /\ quiet_items f more = true).
    { unfold quiet_on. intros q. apply andb_prop in q. destruct q as (_ & q).
      apply andb_prop in q. exact q. }
    eapply evolves_trans; [eapply evolves_trans |].
    + eapply evolves_weaken; [exact Hq1 | exact E1'].
    + eapply evolves_weaken; [| exact E2]. intros q. apply (Hq2 q).
    + eapply evolves_weaken; [| exact E3]. intros q. apply (Hq2 q).
  - injection H2 as <-. eapply evolves_weaken; [exact Hq1 | exact E1].
Qed.

(** The scan of [from_json] starts in a well-formed state, and every state
    it goes through is well-formed. *)
Lemma begin_scan_wf (hp : heap) (s : R) : wf (KLEKeyboard.begin_scan hp s).
Proof. split; simpl; [lia | constructor]. Qed.

Lemma scan_rows_wf {I : Interp} (hp : heap) (s : R) (rows : list json)
    (st : KLEKeyboard.scan) :
  KLEKeyboard.scan_rows (KLEKeyboard.begin_scan hp s) rows = Ok st -> wf st.
Proof.
  intros H.
  exact (evolves_wf _ _ _ _
           (scan_rows_evolves F_r rows _ _ (begin_scan_wf hp s) H)).
Qed.

(** C3: let an object item be scanned in a well-formed state, and let the
    scan go on to any later point, in the same row or in a later one.  For
    each of the ten style fields ('c', 't', 'g', 'a', 'f', 'f2', 'p', 'r',
    'rx', 'ry') that the object names, the converted value of the object
    becomes the running value.  The keys built before the object are still
    there, each with the same private copy as before, whatever was updated
    since.  Every key built afterwards took its [_r], [_u_rx], [_u_ry] from
    its own copy; for every style field that no object item in between
    assigns, that copy holds the value that was running right after the
    object, and so, for a field that the object names, the converted value
    of the object. *)
Theorem style_persists_snapshots_frozen {I : Interp}
    (st0 st st' : KLEKeyboard.scan) (obj : list (string * json))
    (items : list json) (later : option (list json * list json)) :
  wf st0 ->
  KLEKeyboard.item_step st0 (JDict obj) = Ok st ->
  KLEKeyboard.scan_on st items later = Ok st' ->
  (forall f v, field obj (field_name f) = Some v -> stores f v (running st))
  /\ (forall v, field obj "r" = Some v ->
                py_float v = Ok (KbProperties.r (running st)))
  /\ (forall v, field obj "rx" = Some v ->
                py_float v = Ok (KbProperties.rx (running st)))
  /\ (forall v, field obj "ry" = Some v ->
                py_float v = Ok (KbProperties.ry (running st)))
  /\ exists new,
       KLEKeyboard.keys (KLEKeyboard.st_kb st')
       = (KLEKeyboard.keys (KLEKeyboard.st_kb st0) ++ new)%list
       /\ Forall
            (fun k => snapshot (KLEKeyboard.st_heap st') k
                      = snapshot (KLEKeyboard.st_heap st0) k)
            (KLEKeyboard.keys (KLEKeyboard.st_kb st0))
       /\ Forall (fun k => captured (KLEKeyboard.st_heap st') k) new
       /\ (forall f,
             quiet_on f items later = true ->
             Forall
               (fun k => agree f (snapshot (KLEKeyboard.st_heap st') k)
                                 (running st))
               new)
       /\ forall f v,
            field obj (field_name f) = Some v ->
            quiet_on f items later = true ->
            Forall
              (fun k => stores f v (snapshot (KLEKeyboard.st_heap st') k))
              new.
Proof.
  intros Hwf H1 H2.
  destruct (item_step_dict_inv _ _ _ H1)
    as (props & updated & _ & Hu & Hh & _ & _).
  destruct (dict_step_keeps_keys _ _ _ H1) as (Hk1 & Hg1 & _).
  assert (Hrun : running st = updated).
  { unfold running. rewrite Hg1, Hh. apply write_same. }
  assert (Hst : forall f v, field obj (field_name f) = Some v ->
                            stores f v (running st)).
  { intros f v Hv. rewrite Hrun. exact (update_stores f _ _ _ v Hu Hv). }
  split; [exact Hst |].
  split; [intros v Hv; exact (Hst F_r v Hv) |].
  split; [intros v Hv; exact (Hst F_rx v Hv) |].
  split; [intros v Hv; exact (Hst F_ry v Hv) |].
  pose proof (item_step_evolves F_r _ _ _ Hwf H1) as E1.
  pose proof (evolves_wf _ _ _ _ E1) as Hwf1.
  assert (E : forall f, evolves f (quiet_on f items later = true) st st')
    by (intros f; apply scan_on_evolves; assumption).
  destruct (E F_r) as (_ & _ & _ & _ & _ & new & Hk & Hnew).
  assert (Hag : forall f,
            quiet_on f items later = true ->
            Forall
              (fun k => agree f (snapshot (KLEKeyboard.st_heap st') k)
                                (running st))
              new).
  { intros f Hq.
    destruct (E f) as (_ & _ & _ & _ & _ & new' & Hk' & Hnew').
    assert (new' = new) by (eapply app_inv_head; rewrite <- Hk'; exact Hk).
    subst new'. eapply Forall_impl; [| exact Hnew'].
    intros k (_ & _ & Hagk). apply Hagk. exact Hq. }
  exists new. rewrite <- Hk1. split; [exact Hk |].
  split; [| split; [| split; [exact Hag |]]].
  - (* the keys built before: frozen *)
    assert (E0 : evolves F_r False st0 st').
    { eapply evolves_trans; eapply evolves_weaken;
        [| exact E1 | | exact (E F_r)]; intros []. }
    destruct E0 as (_ & _ & _ & Hfr & _).
    destruct Hwf as (_ & Hkeys). rewrite Hk1.
    eapply Forall_impl; [| exact Hkeys].
    intros k (Hlt & Hne). unfold snapshot. apply Hfr; assumption.
  - eapply Forall_impl; [| exact Hnew]. intros k (_ & Hcap & _). exact Hcap.
  - (* the keys built afterwards hold the object's value *)
    intros f v Hv Hq. eapply Forall_impl; [| exact (Hag f Hq)].
    intros k Hk0. exact (stores_agree f v _ _ Hk0 (Hst f v Hv)).
Qed.

Lemma sample_scan_wf : wf sample_scan.
Proof.
  split; [simpl; lia |].
  repeat (apply Forall_cons; [split; simpl; [lia | discriminate] |]).
  apply Forall_nil.
Defined.

Lemma style_persists_snapshots_frozen_witness :
  KLEKeyboard.item_step (I := plain_interp) sample_scan (JDict sample_obj)
  = Ok sample_scan_r
  /\ KLEKeyboard.scan_on (I := plain_interp) sample_scan_r
       sample_items sample_later = Ok sample_scan_end
  /\ exists new,
       KLEKeyboard.keys (KLEKeyboard.st_kb sample_scan_end)
       = (KLEKeyboard.keys (KLEKeyboard.st_kb sample_scan) ++ new)%list
       /\ List.length new = 4%nat
       /\ Forall
            (fun k => snapshot (KLEKeyboard.st_heap sample_scan_end) k
                      = snapshot (KLEKeyboard.st_heap sample_scan) k)
            (KLEKeyboard.keys (KLEKeyboard.st_kb sample_scan))
       /\ Forall (fun k => KLEKey._r k = 15) new
       /\ Forall
            (fun k =>
               KbProperties.profile
                 (snapshot (KLEKeyboard.st_heap sample_scan_end) k)
               = Some "DCS")
            new.
Proof.
  assert (E1 : KLEKeyboard.item_step (I := plain_interp) sample_scan
                 (JDict sample_obj) = Ok sample_scan_r) by (run; reflexivity).
  assert (E2 : KLEKeyboard.scan_on (I := plain_interp) sample_scan_r
                 sample_items sample_later = Ok sample_scan_end)
    by (run; reflexivity).
  split; [exact E1 |]. split; [exact E2 |].
  destruct (style_persists_snapshots_frozen (I := plain_interp)
              sample_scan sample_scan_r sample_scan_end sample_obj
              sample_items sample_later sample_scan_wf E1 E2)
    as (_ & Hr & _ & _ & new & Hk & Hold & Hcap & Hq & Hst).
  exists new. split; [exact Hk |].
  split.
  { assert (L : List.length
                  (KLEKeyboard.keys (KLEKeyboard.st_kb sample_scan_end))
                = 6%nat) by (run; reflexivity).
    rewrite Hk, length_app in L.
    change (List.length (KLEKeyboard.keys (KLEKeyboard.st_kb sample_scan)))
      with 2%nat in L.
    lia. }
  split; [exact Hold |].
  split.
  - specialize (Hq F_r eq_refl).
    specialize (Hr (JInt 15) eq_refl).
    rewrite Forall_forall in *. intros k Hin.
    destruct (Hcap k Hin) as (-> & _). rewrite (Hq k Hin).
    cbn [py_float] in Hr. congruence.
  - exact (Hst F_profile (JStr "DCS") eq_refl eq_refl).
Defined.

(** ** Serialisation *)

Lemma append_assoc (a b c : string) : (a ++ b) ++ c = a ++ (b ++ c).
Proof. induction a as [| x a IH]; simpl; [reflexivity | rewrite IH; reflexivity]. Qed.

Lemma append_empty_r (a : string) : a ++ EmptyString = a.
Proof. induction a as [| x a IH]; simpl; [reflexivity | rewrite IH; reflexivity]. Qed.

Lemma fold_left_raise {A B : Type} (g : result B -> A -> result B)
    (l : list A) (e : exn) :
  (forall a, g (Raise e) a = Raise e) ->
  fold_left g l (Raise e) = Raise e.
Proof.
  intros Hg. induction l as [| a l IH]; simpl; [reflexivity |].
  rewrite Hg. exact IH.
Qed.

(** The loop of [get_legend_str] over any range of slots that all hold a
    string. *)
Lemma legend_loop (d : dict (K := nat) (V := string)) (l : list nat)
    (acc : string) :
  (forall key, In key l -> dict_get Nat.eqb d key <> None) ->
  fold_left
    (fun acc0 key =>
       result <- acc0 ;;
       match dict_get Nat.eqb d key with
       | Some s => Ok (result ++ s ++ nl)
       | None => Raise KeyError
       end)
    l (Ok acc)
  = Ok (acc ++ concat_lines
                 (map (fun key => match dict_get Nat.eqb d key with
                                  | Some s => s
                                  | None => EmptyString
                                  end) l)).
Proof.
  revert acc. induction l as [| key l IH]; intros acc Hall; simpl.
  - rewrite append_empty_r; reflexivity.
  - destruct (dict_get Nat.eqb d key) as [s | ] eqn:E.
    + rewrite IH by (intros j Hj; apply Hall; right; exact Hj).
      rewrite !append_assoc. reflexivity.
    + exfalso. apply (Hall key); [left; reflexivity | exact E].
Qed.

Lemma get_legend_str_eq (k : KLEKey.t) :
  all_slots k ->
  KLEKey.get_legend_str k
  = Ok (strip newline (concat_lines (legend_list k))).
Proof.
  intros Hall. unfold KLEKey.get_legend_str, legend_list.
  rewrite legend_loop.
  - reflexivity.
  - intros key Hin. apply Hall. apply in_seq in Hin. lia.
Qed.

(** A slot without a string makes [get_legend_str] raise. *)
Lemma get_legend_str_missing (k : KLEKey.t) :
  dict_get Nat.eqb (KLEKey._legends k) 0%nat = None ->
  KLEKey.get_legend_str k = Raise KeyError.
Proof.
  intros H. unfold KLEKey.get_legend_str.
  change (seq 0 (List.length KLEKey.LEGEND_MAP)) with (0%nat :: seq 1 11).
  cbn [fold_left bind]. rewrite H.
  rewrite fold_left_raise; reflexivity.
Qed.

Lemma rstrip_app (c : ascii) (a b : string) :
  rstrip c (a ++ b)
  = match rstrip c b with
    | EmptyString => rstrip c a
    | String _ _ as t => a ++ t
    end.
Proof.
  induction a as [| x a IH]; simpl.
  - destruct (rstrip c b); reflexivity.
  - rewrite IH. destruct (rstrip c b) as [| y t]; [reflexivity |].
    destruct a; reflexivity.
Qed.

Lemma rstrip_clean (l : string) :
  has_newline l = false -> rstrip newline l = l.
Proof.
  induction l as [| a l IH]; simpl; [reflexivity |].
  intros H. apply orb_false_elim in H. destruct H as (Ha & Hl).
  rewrite (IH Hl), Ha. destruct l; reflexivity.
Qed.

Lemma append_nonempty (a : string) (x : ascii) (b : string) :
  a ++ String x b <> EmptyString.
Proof. destruct a; discriminate. Qed.

(** Stripping the newlines at the end of the concatenated lines gives the
    joined lines without the trailing empty ones. *)
Lemma rstrip_concat_lines (ls : list string) :
  Forall (fun l => has_newline l = false) ls ->
  match trim_trailing_empty ls with
  | [] => rstrip newline (concat_lines ls) = EmptyString
  | t => rstrip newline (concat_lines ls) = join_lines t
         /\ join_lines t <> EmptyString
  end.
Proof.
  induction 1 as [| l rest Hl _ IH]; [reflexivity |].
  cbn [trim_trailing_empty concat_lines fold_right].
  fold (concat_lines rest).
  change (nl ++ concat_lines rest) with (String newline (concat_lines rest)).
  rewrite rstrip_app. cbn [rstrip].
  destruct (trim_trailing_empty rest) as [| l1 t].
  - rewrite IH. cbn. rewrite (rstrip_clean l Hl).
    destruct (String.eqb_spec l EmptyString) as [-> | N];
      [reflexivity | split; [reflexivity | exact N]].
  - destruct IH as (IH & Hne). rewrite IH.
    change (join_lines (l :: l1 :: t)) with (l ++ nl ++ join_lines (l1 :: t)).
    destruct (join_lines (l1 :: t)) as [| y u] eqn:E; [contradiction |].
    change (Ascii.eqb newline newline) with true.
    split; [reflexivity | apply append_nonempty].
Qed.

Lemma lstrip_first_line (l rest : string) :
  l <> EmptyString -> has_newline l = false ->
  lstrip newline (l ++ rest) = l ++ rest.
Proof.
  destruct l as [| a l]; [contradiction |]. simpl.
  intros _ H. apply orb_false_elim in H. destruct H as (-> & _).
  reflexivity.
Qed.

(** For a key whose legends hold no newline and whose slot 0 is not empty,
    [get_legend_str] is the legend string of the specification. *)
Lemma get_legend_str_spec (k : KLEKey.t) :
  all_slots k ->
  Forall (fun l => has_newline l = false) (legend_list k) ->
  nth 0 (legend_list k) EmptyString <> EmptyString ->
  KLEKey.get_legend_str k = Ok (spec_legend_string k).
Proof.
  intros Hall Hclean Hfirst. rewrite get_legend_str_eq by exact Hall.
  unfold spec_legend_string, strip. f_equal.
  pose proof (rstrip_concat_lines _ Hclean) as H.
  destruct (legend_list k) as [| l rest] eqn:E; [contradiction Hfirst; reflexivity |].
  cbn [nth] in Hfirst.
  assert (Hl : has_newline l = false) by (inversion Hclean; assumption).
  cbn [concat_lines fold_right]. rewrite lstrip_first_line by assumption.
  cbn [concat_lines fold_right] in H.
  destruct (trim_trailing_empty (l :: rest)) as [| l1 t] eqn:T.
  - exfalso. cbn [trim_trailing_empty] in T.
    destruct (trim_trailing_empty rest); [| discriminate].
    destruct (String.eqb_spec l EmptyString); [contradiction | discriminate].
  - apply H.
Qed.

Lemma key_properties_to_json (k : KLEKey.t) :
  KeyProperties.to_json (KLEKey.get_properties k)
  = [ ("x", KLEKey._u_x k); ("y", KLEKey._u_y k); ("w", KLEKey._u_w k);
      ("h", KLEKey._u_h k); ("rx", KLEKey._u_rx k); ("ry", KLEKey._u_ry k) ].
Proof. reflexivity. Qed.



(** Every key that [__init__] builds has all its slots. *)
Lemma init_all_slots (hp hp1 : heap) (ux uy uw uh : R) (text : string)
    (props : option ref) (decal0 : bool) (spacing0 : R) (k : KLEKey.t) :
  KLEKey.init hp ux uy uw uh text props decal0 spacing0 = Ok (hp1, k) ->
  all_slots k.
Proof.
  unfold KLEKey.init.
  destruct (match props with
            | Some p => copy_copy hp p
            | None => alloc hp KbProperties.default
            end) as [hp' own].
  destruct (Nat.ltb _ _); [discriminate |].
  intros H; injection H as _ <-. intros key Hkey.
  cbn [KLEKey._legends]. rewrite complete_legends_id.
  rewrite (fill_legends_get _ _ key Hkey). discriminate.
Qed.





(** The legend in slot 1 of a key with an empty slot 0 is emitted as if it
    were in slot 0: the empty first line is stripped too. *)
Lemma leading_empty_slot_lost :
  KLEKey.get_legend second_slot_key 0 = Ok EmptyString
  /\ KLEKey.get_legend second_slot_key 1 = Ok "B"
  /\ KLEKey.get_legend_str second_slot_key = Ok "B"
  /\ spec_legend_string second_slot_key = nl ++ "B".
Proof. repeat split; reflexivity. Qed.

(** * Further properties *)

(** ** Rotation and vectors *)

(** X1: rotations compose by adding their angles, the rotation by 0 is the
    identity factor, and every rotation factor has modulus 1. *)
Theorem rotate_complex_compose (a b : R) :
  Cmul (rotate_complex a) (rotate_complex b) = rotate_complex (a + b)
  /\ rotate_complex 0 = of_float 1
  /\ real (rotate_complex a) * real (rotate_complex a)
     + imag (rotate_complex a) * imag (rotate_complex a) = 1.
Proof.
  rewrite !rotate_complex_eq. split; [| split].
  - apply complex_eq; simpl; [rewrite cos_plus | rewrite sin_plus]; ring.
  - rewrite cos_0, sin_0. reflexivity.
  - simpl. apply cos_sin_unit.
Qed.








(** ** Geometry of a key *)

Lemma math_radians_0 : math_radians 0 = 0.
Proof. unfold math_radians. field. Qed.

Ltac points_eq :=
  repeat (apply (f_equal2 (@cons Point.t));
          [apply (f_equal2 Point.mk); ring |]);
  reflexivity.

(** The four corners, written out. *)
Lemma get_rect_points_eq (k : KLEKey.t) :
  let c := cos (KLEKey.r_rad k) in
  let s := sin (KLEKey.r_rad k) in
  let x0 := Point.x (KLEKey.get_pos k) in
  let y0 := Point.y (KLEKey.get_pos k) in
  KLEKey.get_rect_points k
  = [ Point.mk x0 y0;
      Point.mk (x0 + KLEKey.w k * c) (y0 + KLEKey.w k * s);
      Point.mk (x0 + KLEKey.w k * c - KLEKey.h k * s)
               (y0 + KLEKey.w k * s + KLEKey.h k * c);
      Point.mk (x0 - KLEKey.h k * s) (y0 + KLEKey.h k * c) ].
Proof.
  intros c s x0 y0. unfold KLEKey.get_rect_points.
  rewrite float_plus_j_eq, rotate_complex_eq. fold c s x0 y0.
  cbn [real imag Cadd Cmul of_float Cj]. points_eq.
Qed.

Lemma get_center_coords (k : KLEKey.t) :
  let c := cos (KLEKey.r_rad k) in
  let s := sin (KLEKey.r_rad k) in
  KLEKey.get_center k
  = Point.mk
      (Point.x (KLEKey.get_pos k) + (KLEKey.w k * c - KLEKey.h k * s) / 2)
      (Point.y (KLEKey.get_pos k) + (KLEKey.w k * s + KLEKey.h k * c) / 2).
Proof.
  intros c s. rewrite get_center_eq. unfold KLEKey.half_diagonal.
  rewrite float_plus_j_eq, rotate_complex_eq. fold c s.
  cbn [real imag Cmul of_float]. apply (f_equal2 Point.mk); field.
Qed.

(** X5: for a key that is not rotated, [get_pos] is the point of the [x]
    and [y] properties, spacing times the sum of unit position and rotation
    origin. *)
Theorem get_pos_unrotated (k : KLEKey.t) :
  KLEKey._r k = 0 ->
  KLEKey.get_pos k = Point.mk (KLEKey.x k) (KLEKey.y k).
Proof.
  intros Hr. rewrite get_pos_eq. unfold KLEKey.r_rad, KLEKey.x, KLEKey.y.
  rewrite Hr, math_radians_0, cos_0, sin_0.
  apply (f_equal2 Point.mk); ring.
Qed.

Lemma get_pos_unrotated_witness :
  KLEKey.get_pos plain_key
  = Point.mk (KLEKey.x plain_key) (KLEKey.y plain_key).
Proof. apply (get_pos_unrotated plain_key). reflexivity. Defined.

Lemma sqrt_scaled_unit (u c s : R) :
  c * c + s * s = 1 ->
  sqrt ((- (u * c)) * (- (u * c)) + (- (u * s)) * (- (u * s))) = Rabs u.
Proof.
  intros H.
  replace ((- (u * c)) * (- (u * c)) + (- (u * s)) * (- (u * s)))
    with (Rsqr u * (c * c + s * s)) by (unfold Rsqr; ring).
  rewrite H, Rmult_1_r. apply sqrt_Rsqr_abs.
Qed.

(** The corners of a key and its center. *)
Lemma rect_points_facts (k : KLEKey.t) :
  exists p0 p1 p2 p3,
    KLEKey.get_rect_points k = [p0; p1; p2; p3]
    /\ p0 = KLEKey.get_pos k
    /\ Point.sub p2 p1 = Point.sub p3 p0
    /\ Point.dot_product (Point.sub p1 p0) (Point.sub p3 p0) = 0
    /\ Point.distance_to p0 p1 = Rabs (KLEKey.w k)
    /\ Point.distance_to p0 p3 = Rabs (KLEKey.h k)
    /\ Point.mul (KLEKey.get_center k) 2 = Point.add p0 p2
    /\ Point.mul (KLEKey.get_center k) 2 = Point.add p1 p3.
Proof.
  rewrite get_rect_points_eq, get_center_coords.
  pose proof (cos_sin_unit (KLEKey.r_rad k)) as Hcs.
  set (c := cos (KLEKey.r_rad k)) in *. set (s := sin (KLEKey.r_rad k)) in *.
  destruct (KLEKey.get_pos k) as [x0 y0]. cbn [Point.x Point.y].
  do 4 eexists. split; [reflexivity |].
  unfold Point.sub, Point.add, Point.mul, Point.dot_product,
    Point.distance_to, math_hypot; cbn [Point.x Point.y].
  split; [reflexivity |].
  split; [apply (f_equal2 Point.mk); ring |].
  split; [ring |].
  split.
  { replace (x0 - (x0 + KLEKey.w k * c)) with (- (KLEKey.w k * c)) by ring.
    replace (y0 - (y0 + KLEKey.w k * s)) with (- (KLEKey.w k * s)) by ring.
    apply sqrt_scaled_unit; exact Hcs. }
  split.
  { replace (x0 - (x0 - KLEKey.h k * s)) with (- (KLEKey.h k * - s)) by ring.
    replace (y0 - (y0 + KLEKey.h k * c)) with (- (KLEKey.h k * c)) by ring.
    rewrite Rplus_comm. apply sqrt_scaled_unit. lra. }
  split; apply (f_equal2 Point.mk); field.
Qed.

(** X6: the four points of [get_rect_points] are the corners of a
    rectangle that starts at [get_pos]: opposite sides are equal, the two
    sides at the first corner are perpendicular and have lengths |w| and
    |h|, and [get_center] is the midpoint of both diagonals. *)
Theorem rect_points_rectangle (k : KLEKey.t) :
  exists p0 p1 p2 p3,
    KLEKey.get_rect_points k = [p0; p1; p2; p3]
    /\ p0 = KLEKey.get_pos k
    /\ Point.sub p2 p1 = Point.sub p3 p0
    /\ Point.dot_product (Point.sub p1 p0) (Point.sub p3 p0) = 0
    /\ Point.distance_to p0 p1 = Rabs (KLEKey.w k)
    /\ Point.distance_to p0 p3 = Rabs (KLEKey.h k)
    /\ Point.mul (KLEKey.get_center k) 2 = Point.add p0 p2
    /\ Point.mul (KLEKey.get_center k) 2 = Point.add p1 p3.
Proof. exact (rect_points_facts k). Qed.

(** The bounding box, from the four corners. *)
Lemma bounding_box_of_points (k : KLEKey.t) (p0 p1 p2 p3 : Point.t) :
  KLEKey.get_rect_points k = [p0; p1; p2; p3] ->
  let xmin := Rmin (Rmin (Rmin (Point.x p0) (Point.x p1)) (Point.x p2))
                   (Point.x p3) in
  let ymin := Rmin (Rmin (Rmin (Point.y p0) (Point.y p1)) (Point.y p2))
                   (Point.y p3) in
  let xmax := Rmax (Rmax (Rmax (Point.x p0) (Point.x p1)) (Point.x p2))
                   (Point.x p3) in
  let ymax := Rmax (Rmax (Rmax (Point.y p0) (Point.y p1)) (Point.y p2))
                   (Point.y p3) in
  KLEKey.bounding_box k
  = Rect.mk (Fin xmin) (Fin ymin) (Fin (xmax - xmin)) (Fin (ymax - ymin)).
Proof.
  intros E. unfold KLEKey.bounding_box. rewrite E. cbn [fold_left].
  rewrite !py_min_inf, !py_max_minf, !py_min_fin, !py_max_fin.
  reflexivity.
Qed.

(** X7: for a key that is not rotated and whose width and height are not
    negative, the bounding box is the rectangle of the key itself: it starts
    at [get_pos] with the key's [w] and [h], and [bounding_box_points] are
    the points of [get_rect_points], corner for corner. *)
Theorem bounding_box_unrotated (k : KLEKey.t) :
  KLEKey._r k = 0 -> 0 <= KLEKey.w k -> 0 <= KLEKey.h k ->
  KLEKey.bounding_box k
  = Rect.mk (Fin (Point.x (KLEKey.get_pos k)))
            (Fin (Point.y (KLEKey.get_pos k)))
            (Fin (KLEKey.w k)) (Fin (KLEKey.h k))
  /\ KLEKey.bounding_box_points k
     = map (fun p => Point.xmk (Fin (Point.x p)) (Fin (Point.y p)))
           (KLEKey.get_rect_points k).
Proof.
  intros Hr Hw Hh.
  assert (Hbox : KLEKey.bounding_box k
                 = Rect.mk (Fin (Point.x (KLEKey.get_pos k)))
                           (Fin (Point.y (KLEKey.get_pos k)))
                           (Fin (KLEKey.w k)) (Fin (KLEKey.h k))).
  { rewrite (bounding_box_of_points k _ _ _ _ (get_rect_points_eq k)).
    unfold KLEKey.r_rad. rewrite Hr, math_radians_0, cos_0, sin_0.
    cbn [Point.x Point.y].
    set (x0 := Point.x (KLEKey.get_pos k)).
    set (y0 := Point.y (KLEKey.get_pos k)).
    set (w := KLEKey.w k) in *. set (h := KLEKey.h k) in *.
    rewrite (Rmin_left x0 (x0 + w * 1)) by lra.
    rewrite (Rmin_left x0 (x0 + w * 1 - h * 0)) by lra.
    rewrite (Rmin_left x0 (x0 - h * 0)) by lra.
    rewrite (Rmin_left y0 (y0 + w * 0)) by lra.
    rewrite (Rmin_left y0 (y0 + w * 0 + h * 1)) by lra.
    rewrite (Rmin_left y0 (y0 + h * 1)) by lra.
    rewrite (Rmax_right x0 (x0 + w * 1)) by lra.
    rewrite (Rmax_left (x0 + w * 1) (x0 + w * 1 - h * 0)) by lra.
    rewrite (Rmax_left (x0 + w * 1) (x0 - h * 0)) by lra.
    rewrite (Rmax_left y0 (y0 + w * 0)) by lra.
    rewrite (Rmax_right y0 (y0 + w * 0 + h * 1)) by lra.
    rewrite (Rmax_left (y0 + w * 0 + h * 1) (y0 + h * 1)) by lra.
    f_equal; f_equal; ring. }
  split; [exact Hbox |].
  unfold KLEKey.bounding_box_points. rewrite Hbox.
  rewrite get_rect_points_eq.
  unfold KLEKey.r_rad. rewrite Hr, math_radians_0, cos_0, sin_0.
  cbn [map Rect.x Rect.y Rect.w Rect.h xadd Point.x Point.y].
  repeat (apply (f_equal2 (@cons Point.xt));
          [apply (f_equal2 Point.xmk); f_equal; ring |]).
  reflexivity.
Qed.

Lemma bounding_box_unrotated_witness :
  KLEKey.bounding_box plain_key
  = Rect.mk (Fin (Point.x (KLEKey.get_pos plain_key)))
            (Fin (Point.y (KLEKey.get_pos plain_key)))
            (Fin (KLEKey.w plain_key)) (Fin (KLEKey.h plain_key))
  /\ KLEKey.bounding_box_points plain_key
     = map (fun p => Point.xmk (Fin (Point.x p)) (Fin (Point.y p)))
           (KLEKey.get_rect_points plain_key).
Proof.
  apply (bounding_box_unrotated plain_key);
    [reflexivity | unfold KLEKey.w; simpl; lra | unfold KLEKey.h; simpl; lra].
Defined.

(** X8: the bounding box of a key contains its center. *)
Theorem center_in_bounding_box (k : KLEKey.t) :
  exists bx by_ bw bh : R,
    KLEKey.bounding_box k = Rect.mk (Fin bx) (Fin by_) (Fin bw) (Fin bh)
    /\ bx <= Point.x (KLEKey.get_center k) <= bx + bw
    /\ by_ <= Point.y (KLEKey.get_center k) <= by_ + bh.
Proof.
  destruct (rect_points_facts k)
    as (p0 & p1 & p2 & p3 & E & _ & _ & _ & _ & _ & Hmid & _).
  rewrite (bounding_box_of_points k _ _ _ _ E).
  do 4 eexists. split; [reflexivity |].
  destruct (min4_le (Point.x p0) (Point.x p1) (Point.x p2) (Point.x p3))
    as (X0 & _ & X2 & _).
  destruct (min4_le (Point.y p0) (Point.y p1) (Point.y p2) (Point.y p3))
    as (Y0 & _ & Y2 & _).
  destruct (max4_ge (Point.x p0) (Point.x p1) (Point.x p2) (Point.x p3))
    as (U0 & _ & U2 & _).
  destruct (max4_ge (Point.y p0) (Point.y p1) (Point.y p2) (Point.y p3))
    as (V0 & _ & V2 & _).
  pose proof (f_equal Point.x Hmid) as Hx.
  pose proof (f_equal Point.y Hmid) as Hy.
  unfold Point.mul, Point.add in Hx, Hy. cbn [Point.x Point.y] in Hx, Hy.
  split; split; lra.
Qed.

(** X9: the [spacing] setter rescales the drawing-space geometry and leaves
    the unit-space fields alone: position, center, width and height with
    the new spacing are those with the old spacing, multiplied by the ratio
    of the two spacings. *)
Theorem set_spacing_scales (k : KLEKey.t) (value : R) :
  let k' := KLEKey.set_spacing k value in
  KLEKey.get_u_pos k' = KLEKey.get_u_pos k
  /\ KLEKey.r k' = KLEKey.r k
  /\ Point.mul (KLEKey.get_pos k') (KLEKey.spacing k)
     = Point.mul (KLEKey.get_pos k) value
  /\ Point.mul (KLEKey.get_center k') (KLEKey.spacing k)
     = Point.mul (KLEKey.get_center k) value
  /\ KLEKey.w k' * KLEKey.spacing k = KLEKey.w k * value
  /\ KLEKey.h k' * KLEKey.spacing k = KLEKey.h k * value.
Proof.
  intros k'. subst k'.
  split; [reflexivity |]. split; [reflexivity |].
  rewrite !get_center_coords, !get_pos_eq.
  unfold KLEKey.set_spacing, KLEKey.w, KLEKey.h, KLEKey.spacing, KLEKey.r_rad,
    Point.mul; cbn [KLEKey._spacing KLEKey._u_x KLEKey._u_y KLEKey._u_w
    KLEKey._u_h KLEKey._r KLEKey._u_rx KLEKey._u_ry Point.x Point.y].
  split; [apply (f_equal2 Point.mk); ring |].
  split; [apply (f_equal2 Point.mk); field |].
  split; ring.
Qed.

(** ** Moving and turning a key *)

Lemma get_pos_zero_spacing (k : KLEKey.t) :
  KLEKey._spacing k = 0 -> KLEKey.get_pos k = Point.mk 0 0.
Proof.
  intros Hs. rewrite get_pos_eq, Hs. apply (f_equal2 Point.mk); ring.
Qed.

Lemma mirror_keys_zero_spacing (m : Point.t) (ks : list KLEKey.t) :
  Exists (fun k => KLEKey._spacing k = 0) ks ->
  KLEKeyboard.mirror_keys (Some m) ks = Raise ZeroDivisionError.
Proof.
  induction ks as [| k ks IH]; intros H; [inversion H |].
  cbn [KLEKeyboard.mirror_keys].
  destruct (Req_dec_T (KLEKey._spacing k) 0) as [E | N].
  - unfold KLEKeyboard.mirror_key. rewrite set_center_eq.
    rewrite (set_pos_zero_spacing k _ _ E). reflexivity.
  - destruct (mirror_key_ok m k N) as (k1 & ->). cbn [bind].
    rewrite IH; [reflexivity |].
    inversion H as [? ? E | ? ? Hrest]; subst; [contradiction | exact Hrest].
Qed.

(** X10: with a spacing of 0, [set_pos], [set_center] and [set_angle] raise
    [ZeroDivisionError], whatever their arguments; [get_pos] is the origin;
    and [mirror] about 'x' or 'y' raises [ZeroDivisionError] on every
    keyboard that holds such a key. *)
Theorem zero_spacing_raises (k : KLEKey.t) (px py a : R) :
  KLEKey._spacing k = 0 ->
  KLEKey.set_pos k px py = Raise ZeroDivisionError
  /\ KLEKey.set_center k px py = Raise ZeroDivisionError
  /\ KLEKey.set_angle k a = Raise ZeroDivisionError
  /\ KLEKey.get_pos k = Point.mk 0 0
  /\ forall kb,
       In k (KLEKeyboard.keys kb) ->
       KLEKeyboard.mirror kb "x" = Raise ZeroDivisionError
       /\ KLEKeyboard.mirror kb "y" = Raise ZeroDivisionError.
Proof.
  intros Hs.
  split; [apply set_pos_zero_spacing; exact Hs |].
  split; [rewrite set_center_eq; apply set_pos_zero_spacing; exact Hs |].
  split.
  { unfold KLEKey.set_angle. rewrite set_center_eq.
    apply set_pos_zero_spacing. exact Hs. }
  split; [apply get_pos_zero_spacing; exact Hs |].
  intros kb Hin.
  assert (Hex : Exists (fun k0 => KLEKey._spacing k0 = 0)
                       (KLEKeyboard.keys kb)).
  { apply Exists_exists. exists k. split; assumption. }
  unfold KLEKeyboard.mirror, KLEKeyboard.get_keys.
  cbn [String.eqb Ascii.eqb Bool.eqb].
  rewrite !mirror_keys_zero_spacing by exact Hex. split; reflexivity.
Qed.

Lemma zero_spacing_raises_witness :
  KLEKey.set_pos zero_spacing_key 5 6 = Raise ZeroDivisionError
  /\ KLEKey.set_angle zero_spacing_key 90 = Raise ZeroDivisionError.
Proof.
  destruct (zero_spacing_raises zero_spacing_key 5 6 90 eq_refl)
    as (H1 & _ & H3 & _).
  split; [exact H1 | exact H3].
Defined.

Lemma set_pos_with_u_pos (k : KLEKey.t) (ux uy px py : R) :
  KLEKey.set_pos (KLEKey.with_u_pos k ux uy) px py = KLEKey.set_pos k px py.
Proof. reflexivity. Qed.

Lemma set_center_with_u_pos (k : KLEKey.t) (ux uy cx cy : R) :
  KLEKey.set_center (KLEKey.with_u_pos k ux uy) cx cy
  = KLEKey.set_center k cx cy.
Proof. reflexivity. Qed.

Lemma with_r_same (k : KLEKey.t) : KLEKey.with_r k (KLEKey._r k) = k.
Proof. destruct k; reflexivity. Qed.

(** X11: [set_angle] changes the stored unit position and the angle and
    nothing else; turning a key twice gives exactly the key that the second
    turn alone gives; and turning it back to its first angle gives back the
    key it was. *)
Theorem set_angle_compose (k k1 : KLEKey.t) (a b : R) :
  KLEKey.set_angle k a = Ok k1 ->
  k1 = KLEKey.with_u_pos (KLEKey.with_r k a) (KLEKey._u_x k1) (KLEKey._u_y k1)
  /\ KLEKey.set_angle k1 b = KLEKey.set_angle k b
  /\ KLEKey.set_angle k1 (KLEKey.r k) = Ok k.
Proof.
  intros H.
  pose proof (set_angle_spec _ _ _ H) as (Hc & _ & Hs).
  assert (Hshape : exists ux uy,
             k1 = KLEKey.with_u_pos (KLEKey.with_r k a) ux uy)
    by (exact (set_center_shape _ _ _ _ H)).
  destruct Hshape as (ux & uy & Hk1).
  assert (Hturn : forall c, KLEKey.set_angle k1 c = KLEKey.set_angle k c).
  { intros c. unfold KLEKey.set_angle. rewrite Hc. rewrite Hk1.
    reflexivity. }
  split; [rewrite Hk1; reflexivity |].
  split; [apply Hturn |].
  rewrite Hturn. unfold KLEKey.set_angle, KLEKey.r. rewrite with_r_same.
  apply set_center_get_center.
  destruct (Req_dec_T (KLEKey._spacing k) 0) as [E | N]; [| exact N].
  exfalso. unfold KLEKey.set_angle in H. rewrite set_center_eq in H.
  rewrite set_pos_zero_spacing in H by exact E. discriminate.
Qed.

Lemma set_angle_compose_witness :
  exists k1,
    KLEKey.set_angle sample_key 45 = Ok k1
    /\ KLEKey.set_angle k1 90 = KLEKey.set_angle sample_key 90
    /\ KLEKey.set_angle k1 (KLEKey.r sample_key) = Ok sample_key.
Proof.
  assert (Hs : KLEKey._spacing sample_key <> 0) by (simpl; lra).
  destruct (set_angle_ok sample_key 45 Hs) as (k1 & H).
  exists k1. split; [exact H |].
  exact (proj2 (set_angle_compose sample_key k1 45 90 H)).
Defined.

(** ** Mirroring, one call at a time *)

Lemma mirror_key_shape (m : Point.t) (k k' : KLEKey.t) :
  KLEKeyboard.mirror_key (Some m) k = Ok k' ->
  k' = KLEKey.with_u_pos (KLEKey.with_r k (- KLEKey._r k))
         (KLEKey._u_x k') (KLEKey._u_y k').
Proof.
  unfold KLEKeyboard.mirror_key.
  destruct (KLEKey.set_center k _ _) as [k1 | e] eqn:E1; [| discriminate].
  cbn [bind]. intros H.
  destruct (set_center_shape _ _ _ _ E1) as (ux & uy & ->).
  destruct (set_center_shape _ _ _ _ H) as (ux' & uy' & ->).
  reflexivity.
Qed.

Lemma mirror_keys_spec (m : Point.t) (ks : list KLEKey.t) :
  Forall (fun k => KLEKey._spacing k <> 0) ks ->
  exists ks',
    KLEKeyboard.mirror_keys (Some m) ks = Ok ks'
    /\ Forall (fun k => KLEKey._spacing k <> 0) ks'
    /\ Forall2
         (fun k k' =>
            KLEKey.get_center k'
            = Point.mk (Point.x m * Point.x (KLEKey.get_center k))
                       (Point.y m * Point.y (KLEKey.get_center k))
            /\ k' = KLEKey.with_u_pos (KLEKey.with_r k (- KLEKey._r k))
                      (KLEKey._u_x k') (KLEKey._u_y k'))
         ks ks'.
Proof.
  induction 1 as [| k ks Hs _ IH].
  - exists []. cbn. repeat split; constructor.
  - destruct IH as (ks' & E & Hall & H2).
    destruct (mirror_key_ok m k Hs) as (k' & Ek).
    destruct (mirror_key_spec _ _ _ Ek) as (Hc & _ & Hs').
    exists (k' :: ks'). cbn [KLEKeyboard.mirror_keys]. rewrite Ek, E.
    split; [reflexivity |]. split.
    + constructor; [rewrite Hs'; exact Hs | exact Hall].
    + constructor; [| exact H2].
      split; [exact Hc | exact (mirror_key_shape _ _ _ Ek)].
Qed.

(** X12: on a keyboard whose keys have a non-zero spacing, one [mirror]
    about 'x' sends the center (cx, cy) of every key to (-cx, cy), one
    about 'y' sends it to (cx, -cy); either negates the angle, and changes
    nothing of a key but its unit position and its angle, and nothing of the
    keyboard but its keys. *)
Theorem mirror_reflects (kb : KLEKeyboard.t) (axis : string) :
  axis = "x" \/ axis = "y" ->
  Forall (fun k => KLEKey._spacing k <> 0) (KLEKeyboard.keys kb) ->
  exists ks',
    KLEKeyboard.mirror kb axis = Ok (KLEKeyboard.with_keys kb ks')
    /\ Forall2
         (fun k k' =>
            (axis = "x" ->
             KLEKey.get_center k'
             = Point.mk (- Point.x (KLEKey.get_center k))
                        (Point.y (KLEKey.get_center k)))
            /\ (axis = "y" ->
                KLEKey.get_center k'
                = Point.mk (Point.x (KLEKey.get_center k))
                           (- Point.y (KLEKey.get_center k)))
            /\ KLEKey.r k' = - KLEKey.r k
            /\ k' = KLEKey.with_u_pos (KLEKey.with_r k (- KLEKey._r k))
                      (KLEKey._u_x k') (KLEKey._u_y k'))
         (KLEKeyboard.keys kb) ks'.
Proof.
  intros Haxis Hall. unfold KLEKeyboard.mirror, KLEKeyboard.get_keys.
  destruct Haxis as [-> | ->]; cbn [String.eqb Ascii.eqb Bool.eqb].
  - destruct (mirror_keys_spec (Point.mk (-1) 1) _ Hall) as (ks' & E & _ & H).
    exists ks'. rewrite E. split; [reflexivity |].
    eapply Forall2_impl; [| exact H].
    intros k k' (Hc & Hk). cbn [Point.x Point.y] in Hc.
    split; [intros _; rewrite Hc; apply (f_equal2 Point.mk); ring |].
    split; [intros D; discriminate D |].
    split; [rewrite Hk; reflexivity | exact Hk].
  - destruct (mirror_keys_spec (Point.mk 1 (-1)) _ Hall) as (ks' & E & _ & H).
    exists ks'. rewrite E. split; [reflexivity |].
    eapply Forall2_impl; [| exact H].
    intros k k' (Hc & Hk). cbn [Point.x Point.y] in Hc.
    split; [intros D; discriminate D |].
    split; [intros _; rewrite Hc; apply (f_equal2 Point.mk); ring |].
    split; [rewrite Hk; reflexivity | exact Hk].
Qed.

Lemma sample_keyboard_spacing :
  Forall (fun k => KLEKey._spacing k <> 0) (KLEKeyboard.keys sample_keyboard).
Proof.
  repeat (apply Forall_cons; [simpl; lra |]). apply Forall_nil.
Defined.

Lemma mirror_reflects_witness :
  exists ks',
    KLEKeyboard.mirror sample_keyboard "x"
    = Ok (KLEKeyboard.with_keys sample_keyboard ks')
    /\ Forall2
         (fun k k' =>
            KLEKey.get_center k'
            = Point.mk (- Point.x (KLEKey.get_center k))
                       (Point.y (KLEKey.get_center k))
            /\ KLEKey.r k' = - KLEKey.r k)
         (KLEKeyboard.keys sample_keyboard) ks'.
Proof.
  destruct (mirror_reflects sample_keyboard "x" (or_introl eq_refl)
              sample_keyboard_spacing) as (ks' & E & H).
  exists ks'. split; [exact E |].
  eapply Forall2_impl; [| exact H].
  intros k k' (Hx & _ & Hr & _). split; [exact (Hx eq_refl) | exact Hr].
Defined.

Lemma mirror_keys_two (m1 m2 : Point.t) (ks : list KLEKey.t) :
  Forall (fun k => KLEKey._spacing k <> 0) ks ->
  exists ks1 ks2,
    KLEKeyboard.mirror_keys (Some m1) ks = Ok ks1
    /\ KLEKeyboard.mirror_keys (Some m2) ks1 = Ok ks2
    /\ Forall2
         (fun k k2 =>
            KLEKey.get_center k2
            = Point.mk
                (Point.x m2 * (Point.x m1 * Point.x (KLEKey.get_center k)))
                (Point.y m2 * (Point.y m1 * Point.y (KLEKey.get_center k)))
            /\ KLEKey._r k2 = KLEKey._r k)
         ks ks2.
Proof.
  intros Hall.
  destruct (mirror_keys_spec m1 ks Hall) as (ks1 & E1 & Hall1 & H1).
  destruct (mirror_keys_spec m2 ks1 Hall1) as (ks2 & E2 & _ & H2).
  exists ks1, ks2. split; [exact E1 |]. split; [exact E2 |].
  clear E1 E2 Hall Hall1. revert ks2 H2.
  induction H1 as [| k k1 ks ks1 (Hc1 & Hk1) _ IH]; intros ks2 H2.
  - inversion H2. constructor.
  - inversion H2 as [| ? k2 ? ks2' (Hc2 & Hk2) Hrest]; subst.
    constructor; [| exact (IH _ Hrest)].
    split.
    + rewrite Hc2, Hc1. reflexivity.
    + rewrite Hk2, Hk1. cbn [KLEKey._r KLEKey.with_u_pos KLEKey.with_r].
      ring.
Qed.

(** X13: on a keyboard whose keys have a non-zero spacing, [mirror] about
    'x' followed by [mirror] about 'y', and the two calls in the other
    order, both succeed and both leave every key with its center negated in
    both coordinates and with its first angle: a half turn about the
    origin. *)
Theorem mirror_both_axes (kb : KLEKeyboard.t) :
  Forall (fun k => KLEKey._spacing k <> 0) (KLEKeyboard.keys kb) ->
  exists kb1 kb2 kb1' kb2',
    KLEKeyboard.mirror kb "x" = Ok kb1
    /\ KLEKeyboard.mirror kb1 "y" = Ok kb2
    /\ KLEKeyboard.mirror kb "y" = Ok kb1'
    /\ KLEKeyboard.mirror kb1' "x" = Ok kb2'
    /\ Forall2
         (fun k k2 =>
            KLEKey.get_center k2 = Point.neg (KLEKey.get_center k)
            /\ KLEKey.r k2 = KLEKey.r k)
         (KLEKeyboard.keys kb) (KLEKeyboard.keys kb2)
    /\ Forall2
         (fun k k2 =>
            KLEKey.get_center k2 = Point.neg (KLEKey.get_center k)
            /\ KLEKey.r k2 = KLEKey.r k)
         (KLEKeyboard.keys kb) (KLEKeyboard.keys kb2').
Proof.
  intros Hall.
  destruct (mirror_keys_two (Point.mk (-1) 1) (Point.mk 1 (-1)) _ Hall)
    as (ks1 & ks2 & E1 & E2 & H).
  destruct (mirror_keys_two (Point.mk 1 (-1)) (Point.mk (-1) 1) _ Hall)
    as (ks1' & ks2' & E1' & E2' & H').
  exists (KLEKeyboard.with_keys kb ks1),
         (KLEKeyboard.with_keys (KLEKeyboard.with_keys kb ks1) ks2),
         (KLEKeyboard.with_keys kb ks1'),
         (KLEKeyboard.with_keys (KLEKeyboard.with_keys kb ks1') ks2').
  unfold KLEKeyboard.mirror, KLEKeyboard.get_keys.
  cbn [String.eqb Ascii.eqb Bool.eqb KLEKeyboard.with_keys KLEKeyboard.keys].
  rewrite E1, E1'. cbn [bind KLEKeyboard.with_keys KLEKeyboard.keys].
  rewrite E2, E2'. cbn [bind].
  repeat (split; [reflexivity |]).
  split; (eapply Forall2_impl; [| eassumption]);
    intros k k2 (Hc & Hr); cbn [Point.x Point.y] in Hc;
    (split; [rewrite Hc; unfold Point.neg; apply (f_equal2 Point.mk); ring
            | exact Hr]).
Qed.

Lemma mirror_both_axes_witness :
  exists kb1 kb2,
    KLEKeyboard.mirror sample_keyboard "x" = Ok kb1
    /\ KLEKeyboard.mirror kb1 "y" = Ok kb2
    /\ Forall2
         (fun k k2 =>
            KLEKey.get_center k2 = Point.neg (KLEKey.get_center k)
            /\ KLEKey.r k2 = KLEKey.r k)
         (KLEKeyboard.keys sample_keyboard) (KLEKeyboard.keys kb2).
Proof.
  destruct (mirror_both_axes sample_keyboard sample_keyboard_spacing)
    as (kb1 & kb2 & _ & _ & E1 & E2 & _ & _ & H & _).
  exists kb1, kb2. auto.
Defined.

Lemma with_keys_same (kb : KLEKeyboard.t) :
  KLEKeyboard.with_keys kb (KLEKeyboard.keys kb) = kb.
Proof. destruct kb; reflexivity. Qed.

(** X14: with an axis that is neither 'x' nor 'y', [mirror] raises
    [UnboundLocalError] as soon as the keyboard has a key, and returns the
    keyboard unchanged when it has none. *)
Theorem mirror_other_axis (kb : KLEKeyboard.t) (axis : string) :
  axis <> "x" -> axis <> "y" ->
  (KLEKeyboard.keys kb = [] -> KLEKeyboard.mirror kb axis = Ok kb)
  /\ (KLEKeyboard.keys kb <> [] ->
      KLEKeyboard.mirror kb axis = Raise UnboundLocalError).
Proof.
  intros Nx Ny. unfold KLEKeyboard.mirror, KLEKeyboard.get_keys.
  apply String.eqb_neq in Nx. apply String.eqb_neq in Ny. rewrite Nx, Ny.
  split; intros H.
  - rewrite H. cbn. rewrite <- H. rewrite with_keys_same. reflexivity.
  - destruct (KLEKeyboard.keys kb) as [| k ks]; [contradiction |].
    reflexivity.
Qed.

Lemma mirror_other_axis_witness :
  KLEKeyboard.mirror sample_keyboard "z" = Raise UnboundLocalError.
Proof.
  apply (mirror_other_axis sample_keyboard "z"); discriminate.
Defined.

(** ** Legends *)

Lemma legend_slot_invalid (key : nat) :
  (12 <= key)%nat -> dict_mem Nat.eqb KLEKey.LEGEND_MAP key = false.
Proof.
  intros H. do 12 (destruct key as [| key]; [lia |]). reflexivity.
Qed.

(** X15: [set_legend] on a slot 0..11 succeeds, [get_legend] then returns
    the new text for that slot and what it returned before for every other
    slot, and nothing but the legends of the key is changed; on any other
    slot both [set_legend] and [get_legend] fail their assertion. *)
Theorem set_legend_get_legend (k : KLEKey.t) (key : nat) (value : string) :
  ((key < 12)%nat ->
   KLEKey.set_legend k key value
   = Ok (KLEKey.with_legends k
           (dict_set Nat.eqb (KLEKey._legends k) key value))
   /\ (forall k', KLEKey.set_legend k key value = Ok k' ->
                  KLEKey.get_legend k' key = Ok value
                  /\ forall j, j <> key ->
                               KLEKey.get_legend k' j = KLEKey.get_legend k j))
  /\ ((12 <= key)%nat ->
      KLEKey.set_legend k key value = Raise AssertionError
      /\ KLEKey.get_legend k key = Raise AssertionError).
Proof.
  split; intros Hkey.
  - unfold KLEKey.set_legend. rewrite (legend_slot_valid key Hkey).
    split; [reflexivity |].
    intros k' H; injection H as <-. split.
    + unfold KLEKey.get_legend. rewrite (legend_slot_valid key Hkey).
      cbn [KLEKey._legends KLEKey.with_legends].
      rewrite (dict_get_set_same Nat.eqb Nat.eqb_eq). reflexivity.
    + intros j Hj. unfold KLEKey.get_legend.
      cbn [KLEKey._legends KLEKey.with_legends].
      rewrite (dict_get_set_other Nat.eqb Nat.eqb_eq) by exact Hj.
      reflexivity.
  - unfold KLEKey.set_legend, KLEKey.get_legend.
    rewrite (legend_slot_invalid key Hkey). split; reflexivity.
Qed.

(** X16: the constructor accepts every text of at most twelve
    newline-separated segments, the empty text included; the key then has
    all twelve slots, slot [i] holding segment [i] or the empty string when
    there is no such segment, and its stored unit position and size are the
    arguments.  On every text of more segments it raises a plain
    [Exception] that carries the [KLEParseError]. *)
Theorem init_by_segments (hp : heap) (ux uy uw uh : R) (text : string)
    (props : option ref) (decal0 : bool) (spacing0 : R) :
  ((List.length (split newline text) <= 12)%nat ->
   exists hp1 k,
     KLEKey.init hp ux uy uw uh text props decal0 spacing0 = Ok (hp1, k)
     /\ all_slots k
     /\ (forall i, (i < 12)%nat ->
                   KLEKey.get_legend k i
                   = Ok (nth i (split newline text) EmptyString))
     /\ KLEKey.get_u_pos k = Point.mk (ux * 1) (uy * 1)
     /\ KLEKey.u_w k = uw * 1 /\ KLEKey.u_h k = uh * 1
     /\ KLEKey.spacing k = spacing0)
  /\ ((12 < List.length (split newline text))%nat ->
      exists msg,
        KLEKey.init hp ux uy uw uh text props decal0 spacing0
        = Raise (PyException (KLEParseError msg))
        /\ is_KLEParseError (PyException (KLEParseError msg)) = false).
Proof.
  split; intros H.
  - destruct (init_accepts hp ux uy uw uh text props decal0 spacing0 H)
      as (hp1 & k & E & Hget).
    exists hp1, k. split; [exact E |].
    split; [exact (init_all_slots _ _ _ _ _ _ _ _ _ _ _ E) |].
    split; [exact Hget |].
    unfold KLEKey.init in E.
    destruct (match props with
              | Some p => copy_copy hp p
              | None => alloc hp KbProperties.default
              end) as [hp' own].
    destruct (Nat.ltb _ _); [discriminate |].
    injection E as _ <-. repeat split; reflexivity.
  - rewrite (init_too_many hp ux uy uw uh text props decal0 spacing0 H).
    eexists. split; reflexivity.
Qed.

(** The loop of [get_legend_list], over the slots from [start] on. *)
Lemma legend_list_loop (d : dict (K := nat) (V := string))
    (anchors : list (Z * Z)) :
  forall (segs : list string) (start : nat)
         (acc : list ((Z * Z) * string)),
    (forall j, (j < List.length anchors)%nat ->
               dict_get Nat.eqb KLEKey.LEGEND_MAP (start + j)%nat
               = Some (nth j anchors (0, 0)%Z)) ->
    (forall j, (j < List.length anchors)%nat ->
               dict_get Nat.eqb d (start + j)%nat
               = Some (nth j segs EmptyString)) ->
    fold_left
      (fun acc0 key =>
         result <- acc0 ;;
         match dict_get Nat.eqb d key with
         | Some s =>
             if negb (String.eqb s EmptyString)
             then match dict_get Nat.eqb KLEKey.LEGEND_MAP key with
                  | Some anchor => Ok (result ++ [(anchor, s)])%list
                  | None => Raise KeyError
                  end
             else Ok result
         | None => Raise KeyError
         end)
      (seq start (List.length anchors)) (Ok acc)
    = Ok (acc ++ filter (fun e => negb (String.eqb (snd e) EmptyString))
                        (combine anchors segs))%list.
Proof.
  induction anchors as [| a anchors IH]; intros segs start acc Ha Hd.
  - cbn. rewrite app_nil_r. reflexivity.
  - cbn [List.length seq fold_left bind].
    pose proof (Hd 0%nat) as Hd0. pose proof (Ha 0%nat) as Ha0.
    rewrite Nat.add_0_r in Hd0, Ha0.
    rewrite Hd0, Ha0 by (cbn; lia).
    assert (Ha' : forall j, (j < List.length anchors)%nat ->
                  dict_get Nat.eqb KLEKey.LEGEND_MAP (S start + j)%nat
                  = Some (nth j anchors (0, 0)%Z)).
    { intros j Hj. replace (S start + j)%nat with (start + S j)%nat by lia.
      rewrite Ha by (cbn; lia). reflexivity. }
    assert (Hd' : forall j, (j < List.length anchors)%nat ->
                  dict_get Nat.eqb d (S start + j)%nat
                  = Some (nth j (tl segs) EmptyString)).
    { intros j Hj. replace (S start + j)%nat with (start + S j)%nat by lia.
      rewrite Hd by (cbn; lia).
      destruct segs as [| s segs]; [destruct j |]; reflexivity. }
    destruct segs as [| s segs]; cbn [nth tl combine filter snd] in *.
    + cbn [String.eqb negb]. rewrite (IH [] (S start) acc Ha' Hd').
      destruct anchors; reflexivity.
    + destruct (negb (String.eqb s EmptyString)).
      * rewrite (IH segs (S start) _ Ha' Hd'). rewrite <- app_assoc.
        reflexivity.
      * apply (IH segs (S start) acc Ha' Hd').
Qed.

(** X17: for a key as the constructor builds it, [get_legend_list] lists
    the non-empty segments of the text in their order, each with the anchor
    of the slot whose index is the position of the segment in the text. *)
Theorem get_legend_list_of_text (hp hp1 : heap) (ux uy uw uh : R)
    (text : string) (props : option ref) (decal0 : bool) (spacing0 : R)
    (k : KLEKey.t) :
  KLEKey.init hp ux uy uw uh text props decal0 spacing0 = Ok (hp1, k) ->
  KLEKey.get_legend_list k
  = Ok (filter (fun e => negb (String.eqb (snd e) EmptyString))
               (combine (map snd KLEKey.LEGEND_MAP) (split newline text))).
Proof.
  intros E.
  assert (Hd : forall j, (j < 12)%nat ->
               dict_get Nat.eqb (KLEKey._legends k) (0 + j)%nat
               = Some (nth j (split newline text) EmptyString)).
  { intros j Hj. cbn [Nat.add]. unfold KLEKey.init in E.
    destruct (match props with
              | Some p => copy_copy hp p
              | None => alloc hp KbProperties.default
              end) as [hp' own].
    destruct (Nat.ltb _ _); [discriminate |].
    injection E as _ <-. cbn [KLEKey._legends].
    rewrite complete_legends_id. apply (fill_legends_get _ 12 j Hj). }
  unfold KLEKey.get_legend_list.
  change (seq 0 (List.length KLEKey.LEGEND_MAP))
    with (seq 0 (List.length (map snd KLEKey.LEGEND_MAP))).
  rewrite (legend_list_loop (KLEKey._legends k) (map snd KLEKey.LEGEND_MAP)
             (split newline text) 0 []).
  - reflexivity.
  - intros j Hj. cbn in Hj. do 12 (destruct j as [| j]; [reflexivity |]). lia.
  - exact Hd.
Qed.

Lemma get_legend_list_of_text_witness :
  exists hp1 k,
    KLEKey.init empty_heap 0 0 1 1 ("A" ++ nl ++ nl ++ "C") None false 19
    = Ok (hp1, k)
    /\ KLEKey.get_legend_list k
       = Ok [ ((-1, -1)%Z, "A"); ((1, -1)%Z, "C") ].
Proof.
  destruct (init_accepts empty_heap 0 0 1 1 ("A" ++ nl ++ nl ++ "C") None
              false 19) as (hp1 & k & E & _); [vm_compute; lia |].
  exists hp1, k. split; [exact E |].
  rewrite (get_legend_list_of_text _ _ _ _ _ _ _ _ _ _ _ E). reflexivity.
Defined.

(** ** Object items and their fields *)

Lemma kp_when_field_keeps {I : Interp} {A B : Type}
    (proj : KeyProperties.t -> B) (obj : list (string * json)) (k : string)
    (conv : json -> result A) (assign : KeyProperties.t -> A -> KeyProperties.t)
    (p q : KeyProperties.t) :
  KeyProperties.when_field obj k conv assign p = Ok q ->
  (forall p' a, proj (assign p' a) = proj p') ->
  proj q = proj p.
Proof.
  intros H Hkeep. revert H. unfold KeyProperties.when_field.
  destruct (field obj k) as [v | ].
  - destruct (conv v) as [a | e]; simpl; [| discriminate].
    intros H; injection H as <-. apply Hkeep.
  - intros H; injection H as <-. reflexivity.
Qed.

Lemma kp_when_field_cases {I : Interp} {A : Type}
    (obj : list (string * json)) (k : string)
    (conv : json -> result A) (assign : KeyProperties.t -> A -> KeyProperties.t)
    (p q : KeyProperties.t) :
  KeyProperties.when_field obj k conv assign p = Ok q ->
  match field obj k with
  | Some v => exists a, conv v = Ok a /\ q = assign p a
  | None => q = p
  end.
Proof.
  unfold KeyProperties.when_field.
  destruct (field obj k) as [v | ].
  - destruct (conv v) as [a | e]; simpl; [| discriminate].
    intros H; injection H as <-. eauto.
  - intros H; injection H as <-. reflexivity.
Qed.

Ltac keep_through proj :=
  repeat match goal with
         | H : KeyProperties.when_field _ _ _ _ ?p = Ok ?q
           |- context [proj ?q] =>
             rewrite (kp_when_field_keeps proj _ _ _ _ p q H
                        (fun _ _ => eq_refl))
         end.

Ltac number_field proj H :=
  unfold float_field; keep_through proj;
  let C := fresh "C" in
  pose proof (kp_when_field_cases _ _ _ _ _ _ H) as C;
  match type of C with
  | match field ?o ?n with _ => _ end =>
      destruct (field o n) as [? | ];
      [ let a := fresh "a" in
        let E := fresh "E" in
        destruct C as (a & E & ->); exact E
      | rewrite C; keep_through proj; reflexivity ]
  end.

Ltac optional_field proj H :=
  unfold optional_float_field; keep_through proj;
  let C := fresh "C" in
  pose proof (kp_when_field_cases _ _ _ _ _ _ H) as C;
  match type of C with
  | match field ?o ?n with _ => _ end =>
      destruct (field o n) as [? | ];
      [ let a := fresh "a" in
        let E := fresh "E" in
        destruct C as (a & E & ->); exists a; split; [exact E | reflexivity]
      | rewrite C; keep_through proj; reflexivity ]
  end.

Ltac flag proj H :=
  unfold flag_field; keep_through proj;
  let C := fresh "C" in
  pose proof (kp_when_field_cases _ _ _ _ _ _ H) as C;
  match type of C with
  | match field ?o ?n with _ => _ end =>
      destruct (field o n) as [? | ];
      [ let a := fresh "a" in
        let E := fresh "E" in
        destruct C as (a & E & ->); injection E as <-; reflexivity
      | rewrite C; keep_through proj; reflexivity ]
  end.

(** The fields of the result of [KeyProperties.from_json]. *)
Lemma key_properties_fields {I : Interp} (obj : list (string * json))
    (p : KeyProperties.t) :
  KeyProperties.from_json obj = Ok p ->
  float_field obj "x" 0 (KeyProperties.x p)
  /\ float_field obj "y" 0 (KeyProperties.y p)
  /\ float_field obj "w" 1 (KeyProperties.w p)
  /\ float_field obj "h" 1 (KeyProperties.h p)
  /\ optional_float_field obj "x2" (KeyProperties.x2 p)
  /\ optional_float_field obj "y2" (KeyProperties.y2 p)
  /\ optional_float_field obj "w2" (KeyProperties.w2 p)
  /\ optional_float_field obj "h2" (KeyProperties.h2 p)
  /\ flag_field obj "d" (KeyProperties.decal p)
  /\ flag_field obj "l" (KeyProperties.stepped p)
  /\ flag_field obj "n" (KeyProperties.homing p)
  /\ KeyProperties.rx p = None /\ KeyProperties.ry p = None.
Proof.
  intros H. unfold KeyProperties.from_json in H.
  apply bind_ok_inv in H. destruct H as (p1 & H1 & H).
  apply bind_ok_inv in H. destruct H as (p2 & H2 & H).
  apply bind_ok_inv in H. destruct H as (p3 & H3 & H).
  apply bind_ok_inv in H. destruct H as (p4 & H4 & H).
  apply bind_ok_inv in H. destruct H as (p5 & H5 & H).
  apply bind_ok_inv in H. destruct H as (p6 & H6 & H).
  apply bind_ok_inv in H. destruct H as (p7 & H7 & H).
  apply bind_ok_inv in H. destruct H as (p8 & H8 & H).
  apply bind_ok_inv in H. destruct H as (p9 & H9 & H).
  apply bind_ok_inv in H. destruct H as (p10 & H10 & H11).
  split; [number_field KeyProperties.x H1 |].
  split; [number_field KeyProperties.y H2 |].
  split; [number_field KeyProperties.w H3 |].
  split; [number_field KeyProperties.h H4 |].
  split; [optional_field KeyProperties.x2 H5 |].
  split; [optional_field KeyProperties.y2 H6 |].
  split; [optional_field KeyProperties.w2 H7 |].
  split; [optional_field KeyProperties.h2 H8 |].
  split; [flag KeyProperties.decal H9 |].
  split; [flag KeyProperties.stepped H10 |].
  split; [flag KeyProperties.homing H11 |].
  split; [keep_through KeyProperties.rx | keep_through KeyProperties.ry];
    reflexivity.
Qed.

(** X18: [KeyProperties.from_json] starts from the defaults every time: in
    its result x, y, w, h are [float] of the object's field, or 0, 0, 1, 1
    when the object lacks the field; x2, y2, w2, h2 likewise, or [None]; the
    flags decal, stepped, homing are the truth value of 'd', 'l', 'n', or
    false; rx and ry are always [None]. *)
Theorem key_properties_from_json {I : Interp} (obj : list (string * json))
    (p : KeyProperties.t) :
  KeyProperties.from_json obj = Ok p ->
  float_field obj "x" 0 (KeyProperties.x p)
  /\ float_field obj "y" 0 (KeyProperties.y p)
  /\ float_field obj "w" 1 (KeyProperties.w p)
  /\ float_field obj "h" 1 (KeyProperties.h p)
  /\ optional_float_field obj "x2" (KeyProperties.x2 p)
  /\ optional_float_field obj "y2" (KeyProperties.y2 p)
  /\ optional_float_field obj "w2" (KeyProperties.w2 p)
  /\ optional_float_field obj "h2" (KeyProperties.h2 p)
  /\ flag_field obj "d" (KeyProperties.decal p)
  /\ flag_field obj "l" (KeyProperties.stepped p)
  /\ flag_field obj "n" (KeyProperties.homing p)
  /\ KeyProperties.rx p = None /\ KeyProperties.ry p = None.
Proof. exact (key_properties_fields obj p). Qed.

Lemma key_properties_from_json_witness :
  exists p,
    KeyProperties.from_json (I := plain_interp)
      [("w", JInt 2); ("d", JBool true)] = Ok p
    /\ KeyProperties.x p = 0 /\ KeyProperties.w p = 2
    /\ KeyProperties.decal p = true /\ KeyProperties.rx p = None.
Proof.
  eexists. split; [reflexivity |].
  match goal with
  | |- KeyProperties.x ?p = _ /\ _ =>
      destruct (key_properties_from_json (I := plain_interp)
                  [("w", JInt 2); ("d", JBool true)] p eq_refl)
        as (Hx & _ & Hw & _ & _ & _ & _ & _ & Hd & _ & _ & Hrx & _)
  end.
  split; [exact Hx |]. split; [| split; [exact Hd | exact Hrx]].
  reflexivity.
Defined.

(** ** The cursor *)

Lemma init_inv (hp hp1 : heap) (ux uy uw uh : R) (text : string)
    (props : option ref) (decal0 : bool) (spacing0 : R) (k : KLEKey.t) :
  KLEKey.init hp ux uy uw uh text props decal0 spacing0 = Ok (hp1, k) ->
  (List.length (split newline text) <= 12)%nat
  /\ exists own,
       k = KLEKey.mk (ux * 1) (uy * 1) (uw * 1) (uh * 1) spacing0 decal0 own
             (KbProperties.r (cell hp1 own))
             (KbProperties.rx (cell hp1 own))
             (KbProperties.ry (cell hp1 own))
             (KLEKey.fill_legends (split newline text) 12).
Proof.
  unfold KLEKey.init.
  destruct (match props with
            | Some p => copy_copy hp p
            | None => alloc hp KbProperties.default
            end) as [hp' own].
  change (List.length KLEKey.LEGEND_MAP) with 12%nat.
  destruct (Nat.ltb _ _) eqn:L; [discriminate |].
  intros H; injection H as <- <-. apply Nat.ltb_ge in L.
  split; [exact L |]. exists own. rewrite complete_legends_id. reflexivity.
Qed.

(** What a legend item does to the keyboard, field by field. *)
Lemma item_step_str_full {I : Interp} (st st' : KLEKeyboard.scan)
    (text : string) :
  KLEKeyboard.item_step st (JStr text) = Ok st' ->
  let kb := KLEKeyboard.st_kb st in
  let props := KLEKeyboard.st_props st in
  exists k,
    KLEKeyboard.st_kb st'
    = KLEKeyboard.mk (KLEKeyboard.keys kb ++ [k]) (KLEKeyboard.col kb + 1)
        (KLEKeyboard.row kb) (KLEKeyboard.global_props kb)
        (KLEKeyboard.cur_x kb + KeyProperties.x props + KeyProperties.w props)
        (KLEKeyboard.cur_y kb + KeyProperties.y props)
        (KLEKeyboard.spacing kb) (KLEKeyboard.metadata kb)
        (KLEKeyboard._col kb)
    /\ KLEKeyboard.st_props st' = KeyProperties.default
    /\ KLEKeyboard.st_pos st' = (KLEKeyboard.st_pos st + 1)%Z
    /\ KLEKey._u_x k = (KLEKeyboard.cur_x kb + KeyProperties.x props) * 1
    /\ KLEKey._u_y k = (KLEKeyboard.cur_y kb + KeyProperties.y props) * 1
    /\ KLEKey._u_w k = KeyProperties.w props * 1
    /\ KLEKey._u_h k = KeyProperties.h props * 1
    /\ KLEKey.decal k = KeyProperties.decal props
    /\ KLEKey._spacing k = KLEKeyboard.spacing kb
    /\ KLEKey._legends k = KLEKey.fill_legends (split newline text) 12
    /\ (List.length (split newline text) <= 12)%nat.
Proof.
  cbn [KLEKeyboard.item_step]. unfold KLEKeyboard.add_key. intros H.
  cbv zeta.
  apply bind_ok_inv in H. destruct H as ([hp1 kb1] & H1 & H).
  injection H as <-.
  apply bind_ok_inv in H1. destruct H1 as ([hp2 k] & Hk & H1).
  injection H1 as <- <-.
  apply init_inv in Hk. destruct Hk as (Hlen & own & ->).
  eexists. split; [reflexivity |]. repeat split; try reflexivity. exact Hlen.
Qed.

(** X19: two legends in a row with nothing between them give two keys side
    by side: the second key starts where the first one ends, on the same
    line, and has the default size 1 x 1. *)
Theorem consecutive_keys_adjacent {I : Interp}
    (st st1 st2 : KLEKeyboard.scan) (text1 text2 : string) :
  KLEKeyboard.item_step st (JStr text1) = Ok st1 ->
  KLEKeyboard.item_step st1 (JStr text2) = Ok st2 ->
  exists k1 k2,
    KLEKeyboard.keys (KLEKeyboard.st_kb st2)
    = (KLEKeyboard.keys (KLEKeyboard.st_kb st) ++ [k1; k2])%list
    /\ KLEKey._u_x k2 = KLEKey._u_x k1 + KLEKey._u_w k1
    /\ KLEKey._u_y k2 = KLEKey._u_y k1
    /\ KLEKey._u_w k2 = 1 /\ KLEKey._u_h k2 = 1.
Proof.
  intros H1 H2.
  destruct (item_step_str_full _ _ _ H1)
    as (k1 & Hkb1 & Hp1 & _ & Hx1 & Hy1 & Hw1 & _).
  destruct (item_step_str_full _ _ _ H2)
    as (k2 & Hkb2 & _ & _ & Hx2 & Hy2 & Hw2 & Hh2 & _).
  exists k1, k2. rewrite Hkb2, Hkb1. cbn [KLEKeyboard.keys].
  split; [rewrite <- app_assoc; reflexivity |].
  rewrite Hx2, Hy2, Hw2, Hh2, Hp1, Hkb1, Hx1, Hy1, Hw1.
  cbn [KLEKeyboard.cur_x KLEKeyboard.cur_y KeyProperties.x KeyProperties.y
       KeyProperties.w KeyProperties.h KeyProperties.default
       KeyProperties.init].
  repeat split; ring.
Qed.

Lemma consecutive_keys_adjacent_witness :
  exists st1 st2 k1 k2,
    KLEKeyboard.item_step (I := plain_interp) sample_scan (JStr "A") = Ok st1
    /\ KLEKeyboard.item_step (I := plain_interp) st1 (JStr "B") = Ok st2
    /\ KLEKeyboard.keys (KLEKeyboard.st_kb st2)
       = (KLEKeyboard.keys (KLEKeyboard.st_kb sample_scan) ++ [k1; k2])%list
    /\ KLEKey._u_x k2 = KLEKey._u_x k1 + KLEKey._u_w k1.
Proof.
  eexists. eexists.
  match goal with
  | |- exists k1 k2, KLEKeyboard.item_step _ (JStr "A") = Ok ?s1 /\ _ =>
      assert (E1 : KLEKeyboard.item_step (I := plain_interp) sample_scan
                     (JStr "A") = Ok s1) by (run; reflexivity)
  end.
  match goal with
  | |- exists k1 k2, _ /\ KLEKeyboard.item_step ?s1 (JStr "B") = Ok ?s2 /\ _ =>
      assert (E2 : KLEKeyboard.item_step (I := plain_interp) s1 (JStr "B")
                   = Ok s2) by (run; reflexivity)
  end.
  destruct (consecutive_keys_adjacent _ _ _ _ _ E1 E2)
    as (k1 & k2 & Hk & Hx & _).
  exists k1, k2. auto.
Defined.

(** X20: an object item without 'rx' and 'ry' between two legends moves
    the second key by its 'x' and 'y', counted from the end of the first
    key, and gives it its 'w' and 'h'; where the object lacks one of the
    four, the offset is 0 and the size is 1. *)
Theorem object_offsets_next_key {I : Interp}
    (st st1 st2 st3 : KLEKeyboard.scan) (text1 text2 : string)
    (obj : list (string * json)) :
  KLEKeyboard.item_step st (JStr text1) = Ok st1 ->
  KLEKeyboard.item_step st1 (JDict obj) = Ok st2 ->
  KLEKeyboard.item_step st2 (JStr text2) = Ok st3 ->
  has_field obj "rx" = false -> has_field obj "ry" = false ->
  exists k1 k2 dx dy,
    KLEKeyboard.keys (KLEKeyboard.st_kb st3)
    = (KLEKeyboard.keys (KLEKeyboard.st_kb st) ++ [k1; k2])%list
    /\ float_field obj "x" 0 dx /\ float_field obj "y" 0 dy
    /\ KLEKey._u_x k2 = KLEKey._u_x k1 + KLEKey._u_w k1 + dx
    /\ KLEKey._u_y k2 = KLEKey._u_y k1 + dy
    /\ float_field obj "w" 1 (KLEKey._u_w k2)
    /\ float_field obj "h" 1 (KLEKey._u_h k2).
Proof.
  intros H1 H2 H3 Hrx Hry.
  destruct (item_step_str_full _ _ _ H1)
    as (k1 & Hkb1 & _ & _ & Hx1 & Hy1 & Hw1 & _).
  destruct (item_step_dict_inv _ _ _ H2)
    as (props & updated & Hprops & _ & _ & Hp2 & Hkb2).
  rewrite Hrx, Hry in Hkb2. cbn zeta in Hkb2.
  destruct (item_step_str_full _ _ _ H3)
    as (k2 & Hkb3 & _ & _ & Hx2 & Hy2 & Hw2 & Hh2 & _).
  destruct (key_properties_fields _ _ Hprops)
    as (Fx & Fy & Fw & Fh & _).
  exists k1, k2, (KeyProperties.x props), (KeyProperties.y props).
  rewrite Hkb3, Hkb2, Hkb1. cbn [KLEKeyboard.keys].
  split; [rewrite <- app_assoc; reflexivity |].
  split; [exact Fx |]. split; [exact Fy |].
  rewrite Hx2, Hy2, Hw2, Hh2, Hp2, Hkb2, Hkb1, Hx1, Hy1, Hw1.
  cbn [KLEKeyboard.cur_x KLEKeyboard.cur_y].
  split; [ring |]. split; [ring |].
  rewrite !Rmult_1_r. split; assumption.
Qed.

Lemma object_offsets_next_key_witness :
  exists st1 st2 st3 k1 k2,
    KLEKeyboard.item_step (I := plain_interp) sample_scan (JStr "A") = Ok st1
    /\ KLEKeyboard.item_step (I := plain_interp) st1
         (JDict [("x", JFloat (1 / 2)); ("w", JInt 2)]) = Ok st2
    /\ KLEKeyboard.item_step (I := plain_interp) st2 (JStr "B") = Ok st3
    /\ KLEKeyboard.keys (KLEKeyboard.st_kb st3)
       = (KLEKeyboard.keys (KLEKeyboard.st_kb sample_scan) ++ [k1; k2])%list
    /\ KLEKey._u_x k2 = KLEKey._u_x k1 + KLEKey._u_w k1 + 1 / 2
    /\ KLEKey._u_w k2 = 2.
Proof.
  do 3 eexists.
  match goal with
  | |- exists k1 k2, KLEKeyboard.item_step _ _ = Ok ?s1 /\
                     KLEKeyboard.item_step _ _ = Ok ?s2 /\
                     KLEKeyboard.item_step _ _ = Ok ?s3 /\ _ =>
      assert (E1 : KLEKeyboard.item_step (I := plain_interp) sample_scan
                     (JStr "A") = Ok s1) by (run; reflexivity);
      assert (E2 : KLEKeyboard.item_step (I := plain_interp) s1
                     (JDict [("x", JFloat (1 / 2)); ("w", JInt 2)]) = Ok s2)
        by (run; reflexivity);
      assert (E3 : KLEKeyboard.item_step (I := plain_interp) s2 (JStr "B")
                   = Ok s3) by (run; reflexivity)
  end.
  destruct (object_offsets_next_key _ _ _ _ _ _ _ E1 E2 E3 eq_refl eq_refl)
    as (k1 & k2 & dx & dy & Hk & Fx & _ & Hx & _ & Fw & _).
  exists k1, k2. split; [exact E1 |]. split; [exact E2 |].
  split; [exact E3 |]. split; [exact Hk |].
  unfold float_field in Fx, Fw. cbn in Fx, Fw.
  split; [rewrite Hx; congruence | congruence].
Defined.

(** ** Counters, metadata and items that are skipped *)

Lemma dict_step_kb {I : Interp} (st st' : KLEKeyboard.scan)
    (obj : list (string * json)) :
  KLEKeyboard.item_step st (JDict obj) = Ok st' ->
  KLEKeyboard.col (KLEKeyboard.st_kb st') = KLEKeyboard.col (KLEKeyboard.st_kb st)
  /\ KLEKeyboard.row (KLEKeyboard.st_kb st')
     = KLEKeyboard.row (KLEKeyboard.st_kb st)
  /\ KLEKeyboard.keys (KLEKeyboard.st_kb st')
     = KLEKeyboard.keys (KLEKeyboard.st_kb st)
  /\ KLEKeyboard.metadata (KLEKeyboard.st_kb st')
     = KLEKeyboard.metadata (KLEKeyboard.st_kb st)
  /\ KLEKeyboard.spacing (KLEKeyboard.st_kb st')
     = KLEKeyboard.spacing (KLEKeyboard.st_kb st).
Proof.
  intros H. destruct (item_step_dict_inv _ _ _ H)
    as (props & updated & _ & _ & _ & _ & Hkb).
  rewrite Hkb. cbn zeta.
  destruct (has_field obj "rx"), (has_field obj "ry"); auto.
Qed.

(** Keys and columns grow together, item by item. *)
Lemma scan_items_counts {I : Interp} (items : list json) :
  forall st st',
    KLEKeyboard.scan_items st items = Ok st' ->
    (KLEKeyboard.col (KLEKeyboard.st_kb st')
     - Z.of_nat (List.length (KLEKeyboard.keys (KLEKeyboard.st_kb st')))
     = KLEKeyboard.col (KLEKeyboard.st_kb st)
       - Z.of_nat (List.length (KLEKeyboard.keys (KLEKeyboard.st_kb st))))%Z
    /\ KLEKeyboard.row (KLEKeyboard.st_kb st')
       = KLEKeyboard.row (KLEKeyboard.st_kb st).
Proof.
  induction items as [| item rest IH]; intros st st' H.
  - injection H as <-. split; reflexivity.
  - cbn [KLEKeyboard.scan_items] in H.
    apply bind_ok_inv in H. destruct H as (st1 & H1 & H2).
    destruct (IH _ _ H2) as (Hc & Hr). rewrite Hc, Hr. clear IH H2 Hc Hr.
    destruct item;
      try (injection H1 as <-; split; reflexivity).
    + destruct (item_step_str_full _ _ _ H1) as (k & Hkb & _).
      rewrite Hkb. cbn [KLEKeyboard.col KLEKeyboard.keys KLEKeyboard.row].
      rewrite length_app. cbn [List.length]. split; [lia | reflexivity].
    + destruct (dict_step_kb _ _ _ H1) as (Hc & Hr & Hk & _).
      rewrite Hc, Hr, Hk. split; reflexivity.
Qed.

Lemma scan_rows_counts {I : Interp} (rows : list json) :
  forall st st',
    KLEKeyboard.scan_rows st rows = Ok st' ->
    (KLEKeyboard.col (KLEKeyboard.st_kb st')
     - Z.of_nat (List.length (KLEKeyboard.keys (KLEKeyboard.st_kb st')))
     = KLEKeyboard.col (KLEKeyboard.st_kb st)
       - Z.of_nat (List.length (KLEKeyboard.keys (KLEKeyboard.st_kb st))))%Z
    /\ (KLEKeyboard.row (KLEKeyboard.st_kb st')
        = KLEKeyboard.row (KLEKeyboard.st_kb st)
          + Z.of_nat (List.length
                        (filter (fun r => negb (is_dict r)) rows)))%Z.
Proof.
  induction rows as [| row0 rest IH]; intros st st' H.
  - injection H as <-. cbn. split; lia.
  - cbn [KLEKeyboard.scan_rows] in H.
    apply bind_ok_inv in H. destruct H as (st1 & H1 & H2).
    destruct (IH _ _ H2) as (Hc & Hr). rewrite Hc, Hr. clear IH H2 Hc Hr.
    assert (Hrow : forall items,
              (items <- Ok items ;;
               st2 <- KLEKeyboard.scan_items st items ;;
               Ok (KLEKeyboard.Scan (KLEKeyboard.st_heap st2)
                     (KLEKeyboard.add_row (KLEKeyboard.st_kb st2))
                     (KLEKeyboard.st_props st2) (KLEKeyboard.st_pos st2)))
              = Ok st1 ->
              (KLEKeyboard.col (KLEKeyboard.st_kb st1)
               - Z.of_nat (List.length
                             (KLEKeyboard.keys (KLEKeyboard.st_kb st1)))
               = KLEKeyboard.col (KLEKeyboard.st_kb st)
                 - Z.of_nat (List.length
                               (KLEKeyboard.keys (KLEKeyboard.st_kb st))))%Z
              /\ (KLEKeyboard.row (KLEKeyboard.st_kb st1)
                  = KLEKeyboard.row (KLEKeyboard.st_kb st) + 1)%Z).
    { intros items H. cbn [bind] in H.
      apply bind_ok_inv in H. destruct H as (st2 & Hs & H).
      injection H as <-. destruct (scan_items_counts _ _ _ Hs) as (Hc & Hr).
      cbn [KLEKeyboard.st_kb KLEKeyboard.add_row KLEKeyboard.col
           KLEKeyboard.keys KLEKeyboard.row].
      rewrite Hc, Hr. split; reflexivity. }
    destruct row0; try discriminate H1;
      cbn [filter is_dict negb List.length].
    + destruct (Hrow _ H1) as (Hc & Hr). rewrite Hc, Hr. split; lia.
    + destruct (Hrow _ H1) as (Hc & Hr). rewrite Hc, Hr. split; lia.
    + injection H1 as <-. cbn. split; lia.
Qed.

(** X21: after [from_json], [col] is the number of keys of the keyboard,
    whatever the rows they were in, and [row] is the number of rows that are
    not metadata objects, minus one. *)
Theorem from_json_counters {I : Interp} (hp hp' : heap)
    (json_layout : list json) (spacing0 : R) (kb : KLEKeyboard.t) :
  KLEKeyboard.from_json hp json_layout spacing0 = Ok (hp', kb) ->
  KLEKeyboard.col kb = Z.of_nat (List.length (KLEKeyboard.keys kb))
  /\ (KLEKeyboard.row kb
      = Z.of_nat (List.length
                    (filter (fun r => negb (is_dict r)) json_layout)) - 1)%Z
  /\ KLEKeyboard.spacing kb = spacing0.
Proof.
  unfold KLEKeyboard.from_json. intros H.
  apply bind_ok_inv in H. destruct H as (st & Hs & H).
  injection H as _ <-.
  destruct (scan_rows_counts _ _ _ Hs) as (Hc & Hr).
  change (KLEKeyboard.col
            (KLEKeyboard.st_kb (KLEKeyboard.begin_scan hp spacing0)))
    with 0%Z in Hc.
  change (KLEKeyboard.keys
            (KLEKeyboard.st_kb (KLEKeyboard.begin_scan hp spacing0)))
    with (@nil KLEKey.t) in Hc.
  change (KLEKeyboard.row
            (KLEKeyboard.st_kb (KLEKeyboard.begin_scan hp spacing0)))
    with (-1)%Z in Hr.
  cbn [List.length] in Hc.
  split; [lia |]. split; [lia |].
  clear Hc Hr. revert Hs.
  generalize (KLEKeyboard.begin_scan hp spacing0)
    (eq_refl : KLEKeyboard.spacing
                 (KLEKeyboard.st_kb (KLEKeyboard.begin_scan hp spacing0))
               = spacing0).
  intros st0 Hsp Hs. rewrite <- Hsp. clear Hsp.
  revert st0 Hs. induction json_layout as [| row0 rest IH]; intros st0 Hs.
  - injection Hs as <-. reflexivity.
  - cbn [KLEKeyboard.scan_rows] in Hs.
    apply bind_ok_inv in Hs. destruct Hs as (st1 & H1 & H2).
    rewrite (IH _ H2). clear IH H2.
    assert (Hitems : forall items s0 s1,
              KLEKeyboard.scan_items s0 items = Ok s1 ->
              KLEKeyboard.spacing (KLEKeyboard.st_kb s1)
              = KLEKeyboard.spacing (KLEKeyboard.st_kb s0)).
    { induction items as [| item items IHi]; intros s0 s1 Hi.
      - injection Hi as <-. reflexivity.
      - cbn [KLEKeyboard.scan_items] in Hi.
        apply bind_ok_inv in Hi. destruct Hi as (s2 & Ha & Hb).
        rewrite (IHi _ _ Hb).
        destruct item; try (injection Ha as <-; reflexivity).
        + destruct (item_step_str_full _ _ _ Ha) as (k & Hkb & _).
          rewrite Hkb. reflexivity.
        + apply (dict_step_kb _ _ _ Ha). }
    assert (Hrow : forall items,
              (items <- Ok items ;;
               st2 <- KLEKeyboard.scan_items st0 items ;;
               Ok (KLEKeyboard.Scan (KLEKeyboard.st_heap st2)
                     (KLEKeyboard.add_row (KLEKeyboard.st_kb st2))
                     (KLEKeyboard.st_props st2) (KLEKeyboard.st_pos st2)))
              = Ok st1 ->
              KLEKeyboard.spacing (KLEKeyboard.st_kb st1)
              = KLEKeyboard.spacing (KLEKeyboard.st_kb st0)).
    { intros items H. cbn [bind] in H.
      apply bind_ok_inv in H. destruct H as (st2 & Ha & H).
      injection H as <-. cbn. apply (Hitems _ _ _ Ha). }
    destruct row0; try discriminate H1.
    + apply (Hrow _ H1).
    + apply (Hrow _ H1).
    + injection H1 as <-. reflexivity.
Qed.

Lemma parsed_with_meta_eq :
  KLEKeyboard.from_json (I := plain_interp) empty_heap layout_with_meta 19
  = Ok parsed_with_meta.
Proof. run. reflexivity. Defined.

Lemma from_json_counters_witness :
  KLEKeyboard.col (snd parsed_with_meta) = 3%Z
  /\ KLEKeyboard.row (snd parsed_with_meta) = 1%Z.
Proof.
  destruct (from_json_counters (I := plain_interp) empty_heap
              (fst parsed_with_meta) layout_with_meta 19
              (snd parsed_with_meta)) as (Hc & Hr & _).
  - rewrite parsed_with_meta_eq. destruct parsed_with_meta; reflexivity.
  - split; [rewrite Hc | rewrite Hr]; reflexivity.
Defined.

Lemma field_in_keys (obj : list (string * json)) (k : string) (v : json) :
  field obj k = Some v -> In k (dict_keys obj).
Proof.
  unfold field. induction obj as [| [k' v'] obj IH]; simpl; [discriminate |].
  destruct (String.eqb_spec k k') as [-> | N]; [auto |].
  intros H. right. exact (IH H).
Qed.

Lemma merge_metadata_get (obj : list (string * json)) (l : list string) :
  forall (m : dict (K := string) (V := json)) (j : string),
    dict_get String.eqb
      (fold_left
         (fun m' key =>
            match field obj key with
            | Some v => dict_set String.eqb m' key v
            | None => m'
            end) l m) j
    = if existsb (String.eqb j) l
      then match field obj j with
           | Some v => Some v
           | None => dict_get String.eqb m j
           end
      else dict_get String.eqb m j.
Proof.
  induction l as [| k l IH]; intros m j; simpl; [reflexivity |].
  rewrite IH. destruct (existsb (String.eqb j) l) eqn:El.
  - rewrite orb_true_r.
    destruct (field obj j) as [v | ] eqn:Ej; [reflexivity |].
    destruct (field obj k) as [vk | ] eqn:Ek; [| reflexivity].
    apply (dict_get_set_other String.eqb String.eqb_eq). congruence.
  - rewrite orb_false_r. destruct (String.eqb_spec j k) as [-> | N].
    + destruct (field obj k) as [vk | ]; [| reflexivity].
      apply (dict_get_set_same String.eqb String.eqb_eq).
    + destruct (field obj k) as [vk | ]; [| reflexivity].
      apply (dict_get_set_other String.eqb String.eqb_eq). exact N.
Qed.

(** X22: a row that is an object is merged into the metadata and does
    nothing else: afterwards a name of the object maps to the object's
    value, every other name maps to what it mapped to before, and keys,
    cursor, counters, pending properties and heap are unchanged. *)
Theorem metadata_row_merges {I : Interp} (st : KLEKeyboard.scan)
    (obj : list (string * json)) :
  exists m,
    KLEKeyboard.row_step st (JDict obj)
    = Ok (KLEKeyboard.Scan (KLEKeyboard.st_heap st)
            (KLEKeyboard.with_metadata (KLEKeyboard.st_kb st) m)
            (KLEKeyboard.st_props st) (KLEKeyboard.st_pos st))
    /\ forall name,
         dict_get String.eqb m name
         = match field obj name with
           | Some v => Some v
           | None =>
               dict_get String.eqb
                 (KLEKeyboard.metadata (KLEKeyboard.st_kb st)) name
           end.
Proof.
  eexists. split; [reflexivity |].
  intros name. unfold KLEKeyboard.merge_metadata.
  rewrite merge_metadata_get.
  destruct (existsb (String.eqb name) (dict_keys obj)) eqn:E; [reflexivity |].
  destruct (field obj name) as [v | ] eqn:F; [| reflexivity].
  exfalso. apply field_in_keys in F.
  assert (X : existsb (String.eqb name) (dict_keys obj) = true).
  { apply existsb_exists. exists name. split; [exact F |].
    apply String.eqb_refl. }
  congruence.
Qed.

(** X23: items of a row that are neither strings nor objects (numbers,
    booleans, null, arrays) are skipped: scanning a row gives the same as
    scanning the row without them. *)
Theorem other_items_skipped {I : Interp} (items : list json) :
  forall st,
    KLEKeyboard.scan_items st items
    = KLEKeyboard.scan_items st (filter is_str_or_dict items).
Proof.
  induction items as [| item rest IH]; intros st; [reflexivity |].
  destruct item; cbn [filter is_str_or_dict KLEKeyboard.scan_items];
    try (cbn [KLEKeyboard.item_step bind]; apply IH).
  - destruct (KLEKeyboard.item_step st (JStr s)) as [st1 | e];
      cbn [bind]; [apply IH | reflexivity].
  - destruct (KLEKeyboard.item_step st (JDict fields)) as [st1 | e];
      cbn [bind]; [apply IH | reflexivity].
Qed.

Lemma scan_items_long_legend {I : Interp} (text : string)
    (items : list json) :
  In (JStr text) items ->
  (12 < List.length (split newline text))%nat ->
  forall st st', KLEKeyboard.scan_items st items <> Ok st'.
Proof.
  intros Hin Hlen. induction items as [| item rest IH]; [destruct Hin |].
  intros st st' H. cbn [KLEKeyboard.scan_items] in H.
  apply bind_ok_inv in H. destruct H as (st1 & H1 & H2).
  destruct Hin as [-> | Hin].
  - destruct (item_step_str_full _ _ _ H1) as (k & _ & _ & _ & _ & _ & _ & _
                                                & _ & _ & _ & Hle).
    lia.
  - exact (IH Hin _ _ H2).
Qed.

(** X24: a legend of more than twelve segments anywhere in an array row
    makes [from_json] raise: no layout that holds one is accepted. *)
Theorem from_json_long_legend {I : Interp} (hp : heap)
    (json_layout : list json) (spacing0 : R) (items : list json)
    (text : string) :
  In (JList items) json_layout ->
  In (JStr text) items ->
  (12 < List.length (split newline text))%nat ->
  exists e, KLEKeyboard.from_json hp json_layout spacing0 = Raise e.
Proof.
  intros Hrow Hitem Hlen.
  assert (Hrows : forall st st',
            KLEKeyboard.scan_rows st json_layout <> Ok st').
  { induction json_layout as [| row0 rest IH]; [destruct Hrow |].
    intros st st' H. cbn [KLEKeyboard.scan_rows] in H.
    apply bind_ok_inv in H. destruct H as (st1 & H1 & H2).
    destruct Hrow as [-> | Hrow].
    - cbn [KLEKeyboard.row_step KLEKeyboard.iterate bind] in H1.
      apply bind_ok_inv in H1. destruct H1 as (st2 & Hs & _).
      exact (scan_items_long_legend text items Hitem Hlen _ _ Hs).
    - exact (IH Hrow _ _ H2). }
  unfold KLEKeyboard.from_json.
  destruct (KLEKeyboard.scan_rows (KLEKeyboard.begin_scan hp spacing0)
              json_layout) as [st | e] eqn:E.
  - exfalso. exact (Hrows _ _ E).
  - exists e. reflexivity.
Qed.

Lemma from_json_long_legend_witness :
  exists e,
    KLEKeyboard.from_json (I := plain_interp) empty_heap
      [JList [JStr "A"]; JList [JInt 1; JStr thirteen_segments]] 19
    = Raise e.
Proof.
  apply (from_json_long_legend (I := plain_interp) empty_heap _ 19
           [JInt 1; JStr thirteen_segments] thirteen_segments).
  - right; left; reflexivity.
  - right; left; reflexivity.
  - vm_compute; lia.
Defined.

(** ** Writing a keyboard and reading it back *)

Lemma split_clean (l : string) :
  has_newline l = false -> split newline l = [l].
Proof.
  induction l as [| a l IH]; [reflexivity |]. cbn [has_newline split].
  intros H. apply orb_false_elim in H. destruct H as (Ha & Hl).
  rewrite Ha, (IH Hl). reflexivity.
Qed.

Lemma split_app_clean (l rest : string) :
  has_newline l = false ->
  split newline (l ++ String newline rest) = l :: split newline rest.
Proof.
  induction l as [| a l IH]; intros H.
  - cbn. reflexivity.
  - cbn [has_newline] in H. apply orb_false_elim in H.
    destruct H as (Ha & Hl).
    cbn [append split]. rewrite Ha, (IH Hl). reflexivity.
Qed.

(** Splitting the joined lines gives the lines back. *)
Lemma split_join_lines (t : list string) :
  Forall (fun l => has_newline l = false) t -> t <> [] ->
  split newline (join_lines t) = t.
Proof.
  induction 1 as [| l t Hl Ht IH]; intros N; [contradiction |].
  destruct t as [| l2 t].
  - cbn. apply split_clean; exact Hl.
  - change (join_lines (l :: l2 :: t))
      with (l ++ String newline (join_lines (l2 :: t))).
    rewrite (split_app_clean _ _ Hl), IH by discriminate. reflexivity.
Qed.

Lemma trim_nth (ls : list string) :
  forall i,
    nth i (trim_trailing_empty ls) EmptyString = nth i ls EmptyString.
Proof.
  induction ls as [| l r IH]; intros i; [reflexivity |].
  cbn [trim_trailing_empty].
  destruct (trim_trailing_empty r) as [| l1 t] eqn:T.
  - destruct (String.eqb_spec l EmptyString) as [-> | N].
    + destruct i as [| j]; [reflexivity |].
      cbn [nth]. rewrite <- IH. destruct j; reflexivity.
    + destruct i as [| j]; [reflexivity |].
      cbn [nth]. rewrite <- IH. destruct j; reflexivity.
  - destruct i as [| j]; [reflexivity |]. cbn [nth]. apply IH.
Qed.

Lemma trim_clean (ls : list string) :
  Forall (fun l => has_newline l = false) ls ->
  Forall (fun l => has_newline l = false) (trim_trailing_empty ls).
Proof.
  induction 1 as [| l r Hl _ IH]; [constructor |].
  cbn [trim_trailing_empty].
  destruct (trim_trailing_empty r) as [| l1 t].
  - destruct (String.eqb l EmptyString); repeat constructor; exact Hl.
  - constructor; assumption.
Qed.

Lemma trim_length (ls : list string) :
  (List.length (trim_trailing_empty ls) <= List.length ls)%nat.
Proof.
  induction ls as [| l r IH]; [reflexivity |].
  cbn [trim_trailing_empty].
  destruct (trim_trailing_empty r) as [| l1 t].
  - destruct (String.eqb l EmptyString); cbn; lia.
  - cbn in *. lia.
Qed.

Lemma trim_nonempty (ls : list string) :
  nth 0 ls EmptyString <> EmptyString -> trim_trailing_empty ls <> [].
Proof.
  destruct ls as [| l r]; [intros H; contradiction H; reflexivity |].
  cbn [nth trim_trailing_empty]. intros N.
  destruct (trim_trailing_empty r); [| discriminate].
  destruct (String.eqb_spec l EmptyString); [contradiction | discriminate].
Qed.

Lemma legend_list_nth (k : KLEKey.t) (i : nat) :
  (i < 12)%nat ->
  nth i (legend_list k) EmptyString
  = match dict_get Nat.eqb (KLEKey._legends k) i with
    | Some s => s
    | None => EmptyString
    end.
Proof.
  intros Hi. unfold legend_list.
  change (List.length KLEKey.LEGEND_MAP) with 12%nat.
  do 12 (destruct i as [| i]; [reflexivity |]). lia.
Qed.

Lemma get_legend_all_slots (k : KLEKey.t) (i : nat) :
  all_slots k -> (i < 12)%nat ->
  KLEKey.get_legend k i = Ok (nth i (legend_list k) EmptyString).
Proof.
  intros Hall Hi. unfold KLEKey.get_legend.
  rewrite (legend_slot_valid i Hi), (legend_list_nth k i Hi).
  destruct (dict_get Nat.eqb (KLEKey._legends k) i) eqn:E; [reflexivity |].
  exfalso. exact (Hall i Hi E).
Qed.

(** The legend string of a key with plain legends splits into at most
    twelve segments, and segment [i] is the legend of slot [i]. *)
Lemma spec_legend_string_split (k : KLEKey.t) :
  plain_legends k ->
  (List.length (split newline (spec_legend_string k)) <= 12)%nat
  /\ forall i,
       nth i (split newline (spec_legend_string k)) EmptyString
       = nth i (legend_list k) EmptyString.
Proof.
  intros (Hall & Hclean & Hfirst). unfold spec_legend_string.
  rewrite split_join_lines
    by (try apply trim_clean; try apply trim_nonempty; assumption).
  split.
  - etransitivity; [apply trim_length |].
    unfold legend_list. rewrite length_map, length_seq. reflexivity.
  - apply trim_nth.
Qed.

Lemma key_object_props {I : Interp} (a b c d e f : R) :
  KeyProperties.from_json
    [ ("x", JFloat a); ("y", JFloat b); ("w", JFloat c); ("h", JFloat d);
      ("rx", JFloat e); ("ry", JFloat f) ]
  = Ok (KeyProperties.mk a b c d None None None None None None
          false false false).
Proof. reflexivity. Qed.

Lemma key_object_update {I : Interp} (p : KbProperties.t)
    (a b c d e f : R) :
  KbProperties.update p
    [ ("x", JFloat a); ("y", JFloat b); ("w", JFloat c); ("h", JFloat d);
      ("rx", JFloat e); ("ry", JFloat f) ]
  = Ok (KbProperties.set_ry (KbProperties.set_rx p e) f).
Proof. reflexivity. Qed.

(** The row that [to_json] wrote for a key, read by [from_json]. *)
Lemma entry_row_read {I : Interp} (st : KLEKeyboard.scan) (k : KLEKey.t)
    (text : string) :
  (List.length (split newline text) <= 12)%nat ->
  exists st' k',
    KLEKeyboard.row_step st (JList [key_object k; JStr text]) = Ok st'
    /\ KLEKeyboard.keys (KLEKeyboard.st_kb st')
       = (KLEKeyboard.keys (KLEKeyboard.st_kb st) ++ [k'])%list
    /\ KLEKeyboard.metadata (KLEKeyboard.st_kb st')
       = KLEKeyboard.metadata (KLEKeyboard.st_kb st)
    /\ KLEKeyboard.spacing (KLEKeyboard.st_kb st')
       = KLEKeyboard.spacing (KLEKeyboard.st_kb st)
    /\ KbProperties.r (running st') = KbProperties.r (running st)
    /\ KLEKey._u_x k' = KLEKey._u_x k /\ KLEKey._u_y k' = KLEKey._u_y k
    /\ KLEKey._u_w k' = KLEKey._u_w k /\ KLEKey._u_h k' = KLEKey._u_h k
    /\ KLEKey._u_rx k' = KLEKey._u_rx k /\ KLEKey._u_ry k' = KLEKey._u_ry k
    /\ KLEKey._r k' = KbProperties.r (running st)
    /\ KLEKey.decal k' = false
    /\ KLEKey._spacing k' = KLEKeyboard.spacing (KLEKeyboard.st_kb st)
    /\ KLEKey._legends k' = KLEKey.fill_legends (split newline text) 12.
Proof.
  intros Hlen. destruct st as [hp kb props pos].
  unfold key_object.
  cbn [KLEKeyboard.row_step KLEKeyboard.iterate bind KLEKeyboard.scan_items
       KLEKeyboard.item_step KLEKeyboard.st_kb KLEKeyboard.st_heap
       KLEKeyboard.st_props KLEKeyboard.st_pos].
  rewrite key_object_props, key_object_update.
  cbn [bind]. change (has_field _ "rx") with true.
  change (has_field _ "ry") with true. cbv iota.
  cbn [KLEKeyboard.item_step KLEKeyboard.st_kb KLEKeyboard.st_heap
       KLEKeyboard.st_props KLEKeyboard.st_pos].
  unfold KLEKeyboard.add_key, KLEKey.init, copy_copy, alloc.
  change (List.length KLEKey.LEGEND_MAP) with 12%nat.
  apply Nat.ltb_ge in Hlen. rewrite Hlen.
  cbn [bind KLEKeyboard.st_kb KLEKeyboard.st_heap KLEKeyboard.st_props
       KLEKeyboard.st_pos].
  rewrite complete_legends_id.
  cbn [KLEKeyboard.with_cur_x KLEKeyboard.with_cur_y KLEKeyboard.cur_x
       KLEKeyboard.cur_y KLEKeyboard.global_props KLEKeyboard.spacing
       KLEKeyboard.keys KLEKeyboard.col KLEKeyboard.row KLEKeyboard.metadata
       KLEKeyboard._col cell write next
       KeyProperties.x KeyProperties.y KeyProperties.w KeyProperties.h
       KeyProperties.decal].
  rewrite !Nat.eqb_refl.
  cbn [KbProperties.r KbProperties.rx KbProperties.ry KbProperties.set_rx
       KbProperties.set_ry].
  eexists. eexists. split; [reflexivity |].
  unfold running.
  cbn [KLEKeyboard.keys KLEKeyboard.metadata KLEKeyboard.spacing
       KLEKeyboard.st_kb KLEKeyboard.st_heap KLEKeyboard.add_row
       KLEKeyboard.global_props cell
       KLEKey._u_x KLEKey._u_y KLEKey._u_w KLEKey._u_h KLEKey._u_rx
       KLEKey._u_ry KLEKey._r KLEKey.decal KLEKey._spacing KLEKey._legends].
  destruct (Nat.eqb (KLEKeyboard.global_props kb) (next hp));
    rewrite ?Nat.eqb_refl;
    cbn [KbProperties.r KbProperties.rx KbProperties.ry KbProperties.set_rx
         KbProperties.set_ry];
    repeat (split;
            [cbn [KLEKey._u_x KLEKey._u_y KLEKey._u_w KLEKey._u_h
                  KLEKey._u_rx KLEKey._u_ry KLEKey._r KLEKey.decal
                  KLEKey._spacing KLEKey._legends];
             first [reflexivity | ring] |]);
    reflexivity.
Qed.

Lemma scan_rows_app {I : Interp} (rows1 rows2 : list json) :
  forall st,
    KLEKeyboard.scan_rows st (rows1 ++ rows2)
    = (st1 <- KLEKeyboard.scan_rows st rows1 ;;
       KLEKeyboard.scan_rows st1 rows2).
Proof.
  induction rows1 as [| row0 rest IH]; intros st; [reflexivity |].
  cbn [app KLEKeyboard.scan_rows].
  destruct (KLEKeyboard.row_step st row0) as [st1 | e]; cbn [bind];
    [apply IH | reflexivity].
Qed.

(** The rows that [to_json] wrote for a list of keys, read by
    [from_json]. *)
Lemma entry_rows_read {I : Interp} (ks : list KLEKey.t) :
  Forall plain_legends ks ->
  forall st,
    KbProperties.r (running st) = 0 ->
    exists st' ks',
      KLEKeyboard.scan_rows st
        (map (fun k => JList [key_object k; JStr (spec_legend_string k)]) ks)
      = Ok st'
      /\ KLEKeyboard.keys (KLEKeyboard.st_kb st')
         = (KLEKeyboard.keys (KLEKeyboard.st_kb st) ++ ks')%list
      /\ KLEKeyboard.metadata (KLEKeyboard.st_kb st')
         = KLEKeyboard.metadata (KLEKeyboard.st_kb st)
      /\ KLEKeyboard.spacing (KLEKeyboard.st_kb st')
         = KLEKeyboard.spacing (KLEKeyboard.st_kb st)
      /\ Forall2 (read_back (KLEKeyboard.spacing (KLEKeyboard.st_kb st)))
                 ks ks'.
Proof.
  induction 1 as [| k ks Hk _ IH]; intros st Hr.
  - exists st, []. cbn. rewrite app_nil_r. repeat split; constructor.
  - destruct (spec_legend_string_split k Hk) as (Hlen & Hnth).
    destruct (entry_row_read st k (spec_legend_string k) Hlen)
      as (st1 & k' & E1 & Hkeys1 & Hm1 & Hs1 & Hr1 & Hx & Hy & Hw & Hh
          & Hrx & Hry & Hrk & Hd & Hsp & Hleg).
    destruct (IH st1) as (st' & ks' & E & Hkeys & Hm & Hs & Hall);
      [rewrite Hr1; exact Hr |].
    exists st', (k' :: ks'). cbn [map KLEKeyboard.scan_rows].
    rewrite E1. cbn [bind]. rewrite E.
    split; [reflexivity |].
    split; [rewrite Hkeys, Hkeys1, <- app_assoc; reflexivity |].
    split; [congruence |]. split; [congruence |].
    constructor; [| rewrite <- Hs1; exact Hall].
    unfold read_back. rewrite Hx, Hy, Hw, Hh, Hrx, Hry, Hrk, Hr, Hd, Hsp.
    repeat (split; [reflexivity |]).
    intros i Hi. destruct Hk as (Hslots & _).
    rewrite (get_legend_all_slots k i Hslots Hi), <- Hnth.
    unfold KLEKey.get_legend. rewrite (legend_slot_valid i Hi), Hleg.
    rewrite (fill_legends_get _ 12 i Hi). reflexivity.
Qed.

Lemma key_entry_plain (k : KLEKey.t) :
  plain_legends k ->
  KLEKeyboard.key_entry k
  = Ok (JList [key_object k; JStr (spec_legend_string k)]).
Proof.
  intros (Hall & Hclean & Hfirst). unfold KLEKeyboard.key_entry.
  rewrite (get_legend_str_spec k Hall Hclean Hfirst). reflexivity.
Qed.

(** The loop of [to_json] on keys with plain legends. *)
Lemma to_json_plain (ks : list KLEKey.t) :
  Forall plain_legends ks ->
  forall acc,
    fold_left
      (fun acc0 key =>
         result <- acc0 ;;
         row0 <- KLEKeyboard.key_entry key ;;
         Ok (result ++ [row0])%list)
      ks (Ok acc)
    = Ok (acc ++ map (fun k => JList [key_object k;
                                      JStr (spec_legend_string k)]) ks)%list.
Proof.
  induction 1 as [| k ks Hk _ IH]; intros acc.
  - cbn. rewrite app_nil_r. reflexivity.
  - cbn [fold_left bind map]. rewrite (key_entry_plain k Hk). cbn [bind].
    rewrite IH, <- app_assoc. reflexivity.
Qed.

(** Merging an object into an empty metadata gives the object. *)
Lemma merge_metadata_fresh (pre suf : list (string * json)) :
  NoDup (dict_keys (pre ++ suf)%list) ->
  fold_left
    (fun m' key =>
       match field (pre ++ suf)%list key with
       | Some v => dict_set String.eqb m' key v
       | None => m'
       end)
    (dict_keys suf) pre
  = (pre ++ suf)%list.
Proof.
  revert pre. induction suf as [| [k v] suf IH]; intros pre Hnd.
  - cbn. rewrite app_nil_r. reflexivity.
  - cbn [dict_keys map fst fold_left].
    assert (Hnotin : ~ In k (dict_keys pre)).
    { unfold dict_keys in *. rewrite map_app in Hnd.
      apply NoDup_remove_2 in Hnd. intros Hin. apply Hnd.
      apply in_or_app. left; exact Hin. }
    assert (Hfield : field (pre ++ (k, v) :: suf)%list k = Some v).
    { unfold field. clear Hnd IH.
      induction pre as [| [k' v'] pre IHp]; cbn.
      - rewrite String.eqb_refl. reflexivity.
      - destruct (String.eqb_spec k k') as [-> | N].
        + exfalso. apply Hnotin. left; reflexivity.
        + apply IHp. intros Hin. apply Hnotin. right; exact Hin. }
    assert (Hset : dict_set String.eqb pre k v = (pre ++ [(k, v)])%list).
    { clear Hnd IH Hfield.
      induction pre as [| [k' v'] pre IHp]; cbn; [reflexivity |].
      destruct (String.eqb_spec k k') as [-> | N].
      - exfalso. apply Hnotin. left; reflexivity.
      - rewrite IHp; [reflexivity |].
        intros Hin. apply Hnotin. right; exact Hin. }
    rewrite Hfield, Hset.
    replace (pre ++ (k, v) :: suf)%list with ((pre ++ [(k, v)]) ++ suf)%list
      by (rewrite <- app_assoc; reflexivity).
    apply IH. rewrite <- app_assoc. exact Hnd.
Qed.

Lemma begin_scan_running (hp : heap) (spacing0 : R) :
  running (KLEKeyboard.begin_scan hp spacing0) = KbProperties.default.
Proof.
  unfold running, KLEKeyboard.begin_scan, KLEKeyboard.init, alloc.
  cbn [KLEKeyboard.st_heap KLEKeyboard.st_kb KLEKeyboard.global_props cell].
  rewrite Nat.eqb_refl. reflexivity.
Qed.

(** X25: let every key of a keyboard have its twelve slots, no newline in a
    legend and a legend in slot 0, and let the metadata have no name twice.
    Then [to_json] succeeds and [from_json] accepts what it wrote: the
    keyboard read back has the same metadata and as many keys, each with the
    unit position, the unit size, the rotation origin and the twelve legends
    of the key it was written from.  The rotation angle and the decal flag
    are not written: every key read back has angle 0 and is no decal. *)
Theorem to_json_from_json {I : Interp} (hp : heap) (kb : KLEKeyboard.t)
    (spacing0 : R) :
  Forall plain_legends (KLEKeyboard.keys kb) ->
  NoDup (dict_keys (KLEKeyboard.metadata kb)) ->
  exists entries hp' kb',
    KLEKeyboard.to_json kb = Ok entries
    /\ KLEKeyboard.from_json hp entries spacing0 = Ok (hp', kb')
    /\ KLEKeyboard.metadata kb' = KLEKeyboard.metadata kb
    /\ KLEKeyboard.spacing kb' = spacing0
    /\ Forall2 (read_back spacing0) (KLEKeyboard.keys kb)
               (KLEKeyboard.keys kb').
Proof.
  intros Hkeys Hnd.
  set (rows := map (fun k => JList [key_object k;
                                    JStr (spec_legend_string k)])
                   (KLEKeyboard.keys kb)).
  set (meta := match KLEKeyboard.metadata kb with
               | [] => []
               | _ :: _ => [JDict (KLEKeyboard.metadata kb)]
               end).
  assert (Hto : KLEKeyboard.to_json kb = Ok (meta ++ rows)%list).
  { unfold KLEKeyboard.to_json, KLEKeyboard.get_keys.
    apply (to_json_plain _ Hkeys). }
  assert (Hmeta : exists st1,
             KLEKeyboard.scan_rows (KLEKeyboard.begin_scan hp spacing0) meta
             = Ok st1
             /\ running st1 = KbProperties.default
             /\ KLEKeyboard.keys (KLEKeyboard.st_kb st1) = []
             /\ KLEKeyboard.spacing (KLEKeyboard.st_kb st1) = spacing0
             /\ KLEKeyboard.metadata (KLEKeyboard.st_kb st1)
                = KLEKeyboard.metadata kb).
  { subst meta. destruct (KLEKeyboard.metadata kb) as [| e m] eqn:M.
    - eexists. split; [reflexivity |].
      split; [apply begin_scan_running |]. repeat split; reflexivity.
    - eexists. split; [reflexivity |].
      split; [apply begin_scan_running |].
      split; [reflexivity |]. split; [reflexivity |].
      cbn [KLEKeyboard.st_kb KLEKeyboard.with_metadata KLEKeyboard.metadata].
      change (KLEKeyboard.metadata
                (KLEKeyboard.st_kb (KLEKeyboard.begin_scan hp spacing0)))
        with (@nil (string * json)).
      apply (merge_metadata_fresh [] (e :: m)). exact Hnd. }
  destruct Hmeta as (st1 & E1 & Hrun & Hk1 & Hs1 & Hm1).
  destruct (entry_rows_read (KLEKeyboard.keys kb) Hkeys st1)
    as (st2 & ks' & E2 & Hk2 & Hm2 & Hs2 & Hall);
    [rewrite Hrun; reflexivity |].
  exists (meta ++ rows)%list, (KLEKeyboard.st_heap st2),
         (KLEKeyboard.st_kb st2).
  split; [exact Hto |].
  unfold KLEKeyboard.from_json. rewrite scan_rows_app, E1. cbn [bind].
  fold rows in E2. rewrite E2. cbn [bind].
  split; [reflexivity |]. split; [congruence |]. split; [congruence |].
  rewrite Hk2, Hk1, <- Hs1. exact Hall.
Qed.

Lemma meta_keyboard_plain :
  Forall plain_legends (KLEKeyboard.keys meta_keyboard).
Proof.
  repeat (apply Forall_cons;
          [split; [| split];
           [intros key Hkey; cbn in Hkey;
            do 12 (destruct key as [| key]; [discriminate |]); lia
           | repeat constructor
           | discriminate] |]).
  apply Forall_nil.
Defined.

Lemma meta_keyboard_names :
  NoDup (dict_keys (KLEKeyboard.metadata meta_keyboard)).
Proof.
  repeat (apply NoDup_cons;
          [intros H; cbn in H; intuition discriminate |]).
  apply NoDup_nil.
Defined.

Lemma to_json_from_json_witness :
  exists entries hp' kb',
    KLEKeyboard.to_json meta_keyboard = Ok entries
    /\ KLEKeyboard.from_json (I := plain_interp) empty_heap entries 19
       = Ok (hp', kb')
    /\ KLEKeyboard.metadata kb' = KLEKeyboard.metadata meta_keyboard
    /\ KLEKeyboard.spacing kb' = 19
    /\ Forall2 (read_back 19) (KLEKeyboard.keys meta_keyboard)
               (KLEKeyboard.keys kb').
Proof.
  exact (to_json_from_json (I := plain_interp) empty_heap meta_keyboard 19
           meta_keyboard_plain meta_keyboard_names).
Defined.

(** ** Objects replace the pending key properties and update the style *)

(** X26: of two object items in a row before a legend, only the second
    counts for the size and the decal flag of the key: they are what the
    second object gives, or the defaults, whatever the first object said.
    The style is different: for every style field that the second object
    does not assign, the copy of the key holds the value that was running
    after the first object. *)
Theorem second_object_replaces {I : Interp}
    (st st1 st2 st3 : KLEKeyboard.scan) (obj1 obj2 : list (string * json))
    (text : string) :
  KLEKeyboard.item_step st (JDict obj1) = Ok st1 ->
  KLEKeyboard.item_step st1 (JDict obj2) = Ok st2 ->
  KLEKeyboard.item_step st2 (JStr text) = Ok st3 ->
  exists k,
    KLEKeyboard.keys (KLEKeyboard.st_kb st3)
    = (KLEKeyboard.keys (KLEKeyboard.st_kb st) ++ [k])%list
    /\ float_field obj2 "w" 1 (KLEKey._u_w k)
    /\ float_field obj2 "h" 1 (KLEKey._u_h k)
    /\ flag_field obj2 "d" (KLEKey.decal k)
    /\ forall f,
         has_field obj2 (field_name f) = false ->
         agree f (snapshot (KLEKeyboard.st_heap st3) k) (running st1).
Proof.
  intros H1 H2 H3.
  destruct (dict_step_keeps_keys _ _ _ H1) as (Hk1 & _).
  destruct (dict_step_keeps_keys _ _ _ H2) as (Hk2 & Hg2 & _).
  destruct (item_step_dict_inv _ _ _ H2)
    as (props & updated & Hprops & Hu & Hh & Hp2 & _).
  destruct (item_step_str_full _ _ _ H3)
    as (k & Hkb3 & _ & _ & _ & _ & Hw & Hhh & Hd & _).
  destruct (item_step_str_inv _ _ _ H3)
    as (k' & Hk3 & _ & _ & _ & Hsnap & _).
  assert (k' = k).
  { rewrite Hkb3 in Hk3. cbn [KLEKeyboard.keys] in Hk3.
    apply app_inv_head in Hk3. congruence. }
  subst k'.
  destruct (key_properties_fields _ _ Hprops)
    as (_ & _ & Fw & Fh & _ & _ & _ & _ & Fd & _).
  exists k. split; [rewrite Hk3, Hk2, Hk1; reflexivity |].
  rewrite Hw, Hhh, Hd, Hp2, !Rmult_1_r.
  split; [exact Fw |]. split; [exact Fh |]. split; [exact Fd |].
  intros f Hf. rewrite Hsnap. unfold running at 1.
  rewrite Hg2, Hh, write_same. exact (update_agree f _ _ _ Hu Hf).
Qed.

Lemma second_object_replaces_witness :
  exists st1 st2 st3 k,
    KLEKeyboard.item_step (I := plain_interp) sample_scan
      (JDict [("w", JInt 2); ("r", JInt 15)]) = Ok st1
    /\ KLEKeyboard.item_step (I := plain_interp) st1
         (JDict [("h", JInt 3)]) = Ok st2
    /\ KLEKeyboard.item_step (I := plain_interp) st2 (JStr "A") = Ok st3
    /\ KLEKeyboard.keys (KLEKeyboard.st_kb st3)
       = (KLEKeyboard.keys (KLEKeyboard.st_kb sample_scan) ++ [k])%list
    /\ KLEKey._u_w k = 1 /\ KLEKey._u_h k = 3
    /\ KbProperties.r (snapshot (KLEKeyboard.st_heap st3) k) = 15.
Proof.
  do 3 eexists.
  match goal with
  | |- exists k, KLEKeyboard.item_step _ _ = Ok ?s1 /\
                 KLEKeyboard.item_step _ _ = Ok ?s2 /\
                 KLEKeyboard.item_step _ _ = Ok ?s3 /\ _ =>
      assert (E1 : KLEKeyboard.item_step (I := plain_interp) sample_scan
                     (JDict [("w", JInt 2); ("r", JInt 15)]) = Ok s1)
        by (run; reflexivity);
      assert (E2 : KLEKeyboard.item_step (I := plain_interp) s1
                     (JDict [("h", JInt 3)]) = Ok s2) by (run; reflexivity);
      assert (E3 : KLEKeyboard.item_step (I := plain_interp) s2 (JStr "A")
                   = Ok s3) by (run; reflexivity)
  end.
  destruct (second_object_replaces _ _ _ _ _ _ _ E1 E2 E3)
    as (k & Hk & Fw & Fh & _ & Hstyle).
  exists k. split; [exact E1 |]. split; [exact E2 |]. split; [exact E3 |].
  split; [exact Hk |].
  unfold float_field in Fw, Fh. cbn in Fw, Fh.
  split; [exact Fw |]. split; [congruence |].
  rewrite (Hstyle F_r eq_refl). run. reflexivity.
Defined.

(** ** A grid of legends *)

Lemma item_step_str_ok {I : Interp} (st : KLEKeyboard.scan) (text : string) :
  (List.length (split newline text) <= 12)%nat ->
  exists st', KLEKeyboard.item_step st (JStr text) = Ok st'.
Proof.
  intros Hlen. cbn [KLEKeyboard.item_step].
  unfold KLEKeyboard.add_key, KLEKey.init, copy_copy, alloc.
  change (List.length KLEKey.LEGEND_MAP) with 12%nat.
  apply Nat.ltb_ge in Hlen. rewrite Hlen. cbn [bind].
  eexists. reflexivity.
Qed.

Lemma item_step_str_running {I : Interp} (st st' : KLEKeyboard.scan)
    (text : string) :
  KLEKeyboard.item_step st (JStr text) = Ok st' ->
  running st' = running st.
Proof.
  intros H. destruct (item_step_str_inv _ _ _ H)
    as (k & _ & Hg & Hh & _).
  unfold running. rewrite Hg, Hh. cbn [copy_copy alloc fst cell].
  destruct (Nat.eqb _ _); reflexivity.
Qed.

Lemma row_of_legends {I : Interp} (row0 : list string) :
  Forall (fun t => (List.length (split newline t) <= 12)%nat) row0 ->
  forall st x0 y0,
    KLEKeyboard.cur_x (KLEKeyboard.st_kb st) = x0 ->
    KLEKeyboard.cur_y (KLEKeyboard.st_kb st) = y0 ->
    KLEKeyboard.st_props st = KeyProperties.default ->
    exists st' ks,
      KLEKeyboard.scan_items st (map JStr row0) = Ok st'
      /\ KLEKeyboard.keys (KLEKeyboard.st_kb st')
         = (KLEKeyboard.keys (KLEKeyboard.st_kb st) ++ ks)%list
      /\ Forall2 (grid_key (running st)) ks
                 (combine (row_positions x0 y0 row0) row0)
      /\ KLEKeyboard.cur_y (KLEKeyboard.st_kb st') = y0
      /\ KLEKeyboard.st_props st' = KeyProperties.default
      /\ running st' = running st.
Proof.
  induction 1 as [| text rest Hlen _ IH]; intros st x0 y0 Hx Hy Hp.
  - exists st, []. cbn. rewrite app_nil_r.
    repeat split; auto; try constructor.
  - destruct (item_step_str_ok st text Hlen) as (st1 & E1).
    destruct (item_step_str_full _ _ _ E1)
      as (k & Hkb & Hp1 & _ & Hux & Huy & Huw & Huh & _ & _ & Hleg & _).
    destruct (item_step_str_inv _ _ _ E1)
      as (k' & Hk' & _ & _ & _ & Hsnap & Hcap & _).
    assert (k' = k).
    { rewrite Hkb in Hk'. cbn [KLEKeyboard.keys] in Hk'.
      apply app_inv_head in Hk'. congruence. }
    subst k'.
    pose proof (item_step_str_running _ _ _ E1) as Hrun.
    rewrite Hp in Hux, Huy, Huw, Huh, Hkb.
    cbn [KeyProperties.x KeyProperties.y KeyProperties.w KeyProperties.h
         KeyProperties.default KeyProperties.init] in Hux, Huy, Huw, Huh, Hkb.
    destruct (IH st1 (x0 + 1) y0) as (st' & ks & E & Hks & Hall & Hcy & Hpp & Hr);
      [rewrite Hkb; cbn [KLEKeyboard.cur_x]; lra
      | rewrite Hkb; cbn [KLEKeyboard.cur_y]; lra
      | exact Hp1 |].
    exists st', (k :: ks). cbn [map KLEKeyboard.scan_items].
    rewrite E1. cbn [bind]. rewrite E.
    split; [reflexivity |].
    split.
    { rewrite Hks, Hkb. cbn [KLEKeyboard.keys]. rewrite <- app_assoc.
      reflexivity. }
    split.
    { cbn [row_positions combine]. constructor.
      - destruct Hcap as (Hcr & Hcx & Hcy'). rewrite Hsnap in Hcr, Hcx, Hcy'.
        unfold grid_key. cbn [fst snd].
        repeat (split; [first [assumption | lra] |]).
        intros i Hi. unfold KLEKey.get_legend.
        rewrite (legend_slot_valid i Hi), Hleg.
        rewrite (fill_legends_get _ 12 i Hi). reflexivity.
      - rewrite <- Hrun. exact Hall. }
    split; [exact Hcy |]. split; [exact Hpp |]. congruence.
Qed.

Lemma grid_of_legends {I : Interp} (grid : list (list string)) :
  Forall (Forall (fun t => (List.length (split newline t) <= 12)%nat)) grid ->
  forall st y0,
    KLEKeyboard.cur_x (KLEKeyboard.st_kb st) = 0 ->
    KLEKeyboard.cur_y (KLEKeyboard.st_kb st) = y0 ->
    KLEKeyboard.st_props st = KeyProperties.default ->
    exists st' ks,
      KLEKeyboard.scan_rows st (grid_layout grid) = Ok st'
      /\ KLEKeyboard.keys (KLEKeyboard.st_kb st')
         = (KLEKeyboard.keys (KLEKeyboard.st_kb st) ++ ks)%list
      /\ Forall2 (grid_key (running st)) ks
                 (combine (grid_positions y0 grid) (List.concat grid)).
Proof.
  induction 1 as [| row0 rest Hrow _ IH]; intros st y0 Hx Hy Hp.
  - exists st, []. cbn. rewrite app_nil_r.
    repeat split; auto; try constructor.
  - destruct (row_of_legends row0 Hrow st 0 y0 Hx Hy Hp)
      as (st1 & ks1 & E1 & Hk1 & Hall1 & Hcy & Hp1 & Hr1).
    destruct (IH (KLEKeyboard.Scan (KLEKeyboard.st_heap st1)
                    (KLEKeyboard.add_row (KLEKeyboard.st_kb st1))
                    (KLEKeyboard.st_props st1) (KLEKeyboard.st_pos st1))
                 (y0 + 1))
      as (st' & ks2 & E2 & Hk2 & Hall2);
      [reflexivity | cbn; rewrite Hcy; reflexivity | exact Hp1 |].
    exists st', (ks1 ++ ks2)%list.
    cbn [grid_layout map KLEKeyboard.scan_rows KLEKeyboard.row_step
         KLEKeyboard.iterate bind].
    rewrite E1. cbn [bind]. fold (grid_layout rest). rewrite E2.
    split; [reflexivity |].
    split.
    { rewrite Hk2. cbn [KLEKeyboard.st_kb KLEKeyboard.add_row KLEKeyboard.keys].
      rewrite Hk1, <- app_assoc. reflexivity. }
    cbn [grid_positions List.concat].
    assert (Hlen : List.length (row_positions 0 y0 row0) = List.length row0).
    { generalize 0. clear. induction row0; intros x; cbn; auto. }
    assert (Hcomb : forall (A B : Type) (l1 l1' : list A) (l2 l2' : list B),
              List.length l1 = List.length l2 ->
              combine (l1 ++ l1') (l2 ++ l2')
              = (combine l1 l2 ++ combine l1' l2')%list).
    { intros A B l1. induction l1 as [| a l1 IHl]; intros l1' l2 l2' Hl;
        destruct l2 as [| b l2]; try discriminate; [reflexivity |].
      cbn. rewrite IHl by (cbn in Hl; lia). reflexivity. }
    rewrite Hcomb by exact Hlen.
    apply Forall2_app; [exact Hall1 |].
    replace (running st) with (running st1) by exact Hr1. exact Hall2.
Qed.

(** X27: a layout that is a grid of legends, each of at most twelve
    segments, is always accepted, and gives one key per legend, row by row:
    the key of column j in row i is at unit position (j, i), has size 1 x 1,
    no rotation, and the legends of its text. *)
Theorem from_json_grid {I : Interp} (hp : heap) (grid : list (list string))
    (spacing0 : R) :
  Forall (Forall (fun t => (List.length (split newline t) <= 12)%nat)) grid ->
  exists hp' kb,
    KLEKeyboard.from_json hp (grid_layout grid) spacing0 = Ok (hp', kb)
    /\ Forall2 (grid_key KbProperties.default) (KLEKeyboard.keys kb)
               (combine (grid_positions 0 grid) (List.concat grid)).
Proof.
  intros Hgrid.
  destruct (grid_of_legends grid Hgrid (KLEKeyboard.begin_scan hp spacing0) 0)
    as (st' & ks & E & Hk & Hall); try reflexivity.
  exists (KLEKeyboard.st_heap st'), (KLEKeyboard.st_kb st').
  unfold KLEKeyboard.from_json. rewrite E. cbn [bind].
  split; [reflexivity |].
  rewrite Hk. cbn [app]. rewrite begin_scan_running in Hall. exact Hall.
Qed.

Lemma from_json_grid_witness :
  exists hp' kb,
    KLEKeyboard.from_json (I := plain_interp) empty_heap
      (grid_layout [["Q"; "W"]; ["A"]]) 19 = Ok (hp', kb)
    /\ Forall2 (grid_key KbProperties.default) (KLEKeyboard.keys kb)
               [ ((0, 0), "Q"); ((0 + 1, 0), "W"); ((0, 0 + 1), "A") ].
Proof.
  apply (from_json_grid (I := plain_interp) empty_heap [["Q"; "W"]; ["A"]] 19).
  repeat (apply Forall_cons;
          [repeat (apply Forall_cons; [vm_compute; lia |]); apply Forall_nil
          |]).
  apply Forall_nil.
Defined.

(** ** Concrete runs of the legend properties *)

Lemma set_legend_get_legend_witness :
  exists k',
    KLEKey.set_legend sample_key 3 "Fn" = Ok k'
    /\ KLEKey.get_legend k' 3 = Ok "Fn"
    /\ KLEKey.get_legend k' 0 = KLEKey.get_legend sample_key 0
    /\ KLEKey.set_legend sample_key 12 "Fn" = Raise AssertionError.
Proof.
  destruct (set_legend_get_legend sample_key 3 "Fn") as (Hvalid & _).
  destruct (set_legend_get_legend sample_key 12 "Fn") as (_ & Hbad).
  assert (H3 : (3 < 12)%nat) by lia. assert (H12 : (12 <= 12)%nat) by lia.
  destruct (Hvalid H3) as (E & Hget).
  destruct (Hget _ E) as (Hsame & Hother).
  eexists. split; [exact E |]. split; [exact Hsame |].
  split; [apply Hother; discriminate | exact (proj1 (Hbad H12))].
Defined.

Lemma init_by_segments_witness :
  (exists hp1 k,
     KLEKey.init empty_heap 0 0 1 1 twelve_segments None false 19
     = Ok (hp1, k)
     /\ KLEKey.get_legend k 11 = Ok "l")
  /\ exists msg,
       KLEKey.init empty_heap 0 0 1 1 thirteen_segments None false 19
       = Raise (PyException (KLEParseError msg)).
Proof.
  split.
  - destruct (init_by_segments empty_heap 0 0 1 1 twelve_segments None false
                19) as (Hok & _).
    destruct Hok as (hp1 & k & E & _ & Hget & _); [vm_compute; lia |].
    exists hp1, k. split; [exact E |].
    rewrite Hget by lia. reflexivity.
  - destruct (init_by_segments empty_heap 0 0 1 1 thirteen_segments None
                false 19) as (_ & Hbad).
    destruct Hbad as (msg & E & _); [vm_compute; lia |].
    exists msg. exact E.
Defined.
